(** * Colour-blind LUTs: the colour model, the deficiency engine and the
      3D LUT builder and sampler of CBLuts.cpp / CBLutGen.cpp.

    Integer code (the sampler, the identity cube) is embedded over [Z] with
    the [uint8_t] wrap written out.

    Code on [float] is embedded twice.  Module [CBLut] takes every
    arithmetic operation to be exact, over the real numbers; it carries the
    statements on packed bytes, gamma and gamut.  [powf] on a negative base
    is a fault there, and where the code goes on with the NaN and converts
    it to [uint8_t] (the loop of [CreateLUT]), the byte that undefined
    conversion leaves is a parameter.  Module [Binary32] is the deficiency
    engine with every [float] operation rounded to binary32; it carries the
    statements that compare [float] values with each other. *)

From Stdlib Require Import ZArith List Lia Bool Ascii.
From Stdlib Require Import QArith Qabs Qround Qpower.
From Stdlib Require Lqa.
From Stdlib Require Import Reals Lra Zfloor.
Import ListNotations.

Local Open Scope Z_scope.

(** ** Results of fallible code *)

Inductive fault : Type :=
| AssertIndex      (* assert(0 <= i && i < kLUTSize) fired *)
| AssertChannel    (* assert(0 <= ch && ch <= 255) fired *)
| OutOfBounds      (* an array read outside its extent *)
| NaN.             (* powf left the finite numbers (a domain error); its
                      callers go on to convert the value to uint8_t *)

Inductive result (A : Type) : Type :=
| Ok (a : A)
| Fault (f : fault).

Arguments Ok {A} a.
Arguments Fault {A} f.

Definition bind {A B : Type} (r : result A) (k : A -> result B) : result B :=
  match r with
  | Ok a => k a
  | Fault f => Fault f
  end.

Notation "x <- e ;; k" := (bind e (fun x => k))
  (at level 61, e at next level, right associativity).
Notation "e ;;; k" := (bind e (fun _ => k))
  (at level 61, right associativity).

Fixpoint mapM {A B : Type} (f : A -> result B) (l : list A) : result (list B) :=
  match l with
  | [] => Ok []
  | a :: l' => b <- f a ;; bs <- mapM f l' ;; Ok (b :: bs)
  end.

Definition assert (f : fault) (b : bool) : result unit :=
  if b then Ok tt else Fault f.

Module CBLut.

(** ** Packed colour *)

(** [struct RGBA32 { uint8_t c[4]; }]: the four bytes, as integers. *)
Record RGBA32 : Type := mkRGBA32 { c0 : Z; c1 : Z; c2 : Z; c3 : Z }.

(** [p.c[j]] for a constant index [j]. *)
Definition chan (p : RGBA32) (j : nat) : Z :=
  match j with
  | O => c0 p
  | 1%nat => c1 p
  | 2%nat => c2 p
  | _ => c3 p
  end.

(** Storing an [int] into a [uint8_t]. *)
Definition u8 (v : Z) : Z := v mod 256.

Definition is_u8 (v : Z) : bool := (0 <=? v) && (v <? 256).

(** A pixel whose four bytes are bytes. *)
Definition wf_pixel (p : RGBA32) : bool :=
  is_u8 (c0 p) && is_u8 (c1 p) && is_u8 (c2 p) && is_u8 (c3 p).

(** ** The cube *)

Definition kLUTBits : Z := 5.
Definition kLUTSize : Z := Z.shiftl 1 kLUTBits.

(** [RGBA32 rgbLUT[kLUTSize][kLUTSize][kLUTSize]], indexed [blue][green][red]. *)
Definition LUT : Type := list (list (list RGBA32)).

Definition lut_read (rgbLUT : LUT) (i j k : Z) : result RGBA32 :=
  match nth_error rgbLUT (Z.to_nat i) with
  | Some plane =>
      match nth_error plane (Z.to_nat j) with
      | Some line =>
          match nth_error line (Z.to_nat k) with
          | Some p => Ok p
          | None => Fault OutOfBounds
          end
      | None => Fault OutOfBounds
      end
  | None => Fault OutOfBounds
  end.

(** The values a loop [for (int i = 0; i < kLUTSize; i++)] runs through. *)
Definition indices : list Z := map Z.of_nat (seq 0 (Z.to_nat kLUTSize)).

(** The three nested loops of the builders, filling cell [i][j][k]. *)
Definition fill (cell : Z -> Z -> Z -> RGBA32) : LUT :=
  map (fun i => map (fun j => map (fun k => cell i j k) indices) indices) indices.

Definition wf_lut (rgbLUT : LUT) : bool :=
  (length rgbLUT =? Z.to_nat kLUTSize)%nat
  && forallb (fun plane =>
       (length plane =? Z.to_nat kLUTSize)%nat
       && forallb (fun line =>
            (length line =? Z.to_nat kLUTSize)%nat && forallb wf_pixel line) plane)
     rgbLUT.

Definition identity_cell (i j k : Z) : RGBA32 :=
  let scale := 256 / kLUTSize in
  let offset := scale / 2 in
  {| c0 := u8 (k * scale + offset);
     c1 := u8 (j * scale + offset);
     c2 := u8 (i * scale + offset);
     c3 := 255 |}.

Definition CreateIdentityLUT : LUT := fill identity_cell.

(** ** The sampler *)

Definition lutShift : Z := kLUTBits.
Definition lutSize : Z := Z.shiftl 1 lutShift.
Definition fShift : Z := 8 - lutShift.
Definition fHalf : Z := Z.shiftl 1 (fShift - 1).
Definition fMask : Z := Z.shiftl 1 fShift - 1.

(** One component [j] of the arrays [i0], [i1] and [s]. *)
Record axis : Type := mkAxis { i0 : Z; i1 : Z; s : Z }.

Definition axis_init (ci : Z) : axis :=
  let co := ci + fHalf in
  let i1 := Z.shiftr co fShift in
  {| i0 := i1 - 1; i1 := i1; s := Z.land co fMask |}.

(** The body of [for (int j = 0; j < 3; j++)] before its assertions;
    [extrapolate] is whether [EXTRAPOLATE_LUT] is defined. *)
Definition axis_adjust (extrapolate : bool) (a : axis) : axis :=
  if i0 a <? 0 then
    {| i0 := i0 a + 1;
       i1 := if extrapolate then i1 a + 1 else i1 a;
       s := if extrapolate then s a - 8 else s a |}
  else if i1 a >=? lutSize then
    {| i0 := if extrapolate then i0 a - 1 else i0 a;
       i1 := i1 a - 1;
       s := if extrapolate then s a + 8 else s a |}
  else a.

Definition axis_of (extrapolate : bool) (ci : Z) : axis :=
  axis_adjust extrapolate (axis_init ci).

Definition index_ok (a : axis) : bool :=
  ((0 <=? i0 a) && (i0 a <? kLUTSize)) && ((0 <=? i1 a) && (i1 a <? kLUTSize)).

(** [((8 - s) * c0 + s * c1) >> 3]; on a negative sum [>>] is the
    arithmetic shift, which rounds down as [Z.shiftr] does. *)
Definition blend (w v0 v1 : Z) : Z := Z.shiftr ((8 - w) * v0 + w * v1) 3.

Definition clamp255 (ch : Z) : Z :=
  if ch <? 0 then 0 else if ch >? 255 then 255 else ch.

Definition channel_ok (ch : Z) : bool := (0 <=? ch) && (ch <=? 255).

(** One iteration of the pixel loop of [ApplyLUT]. *)
Definition ApplyLUT_pixel (extrapolate : bool) (rgbLUT : LUT) (p : RGBA32)
  : result RGBA32 :=
  let a0 := axis_of extrapolate (c0 p) in
  let a1 := axis_of extrapolate (c1 p) in
  let a2 := axis_of extrapolate (c2 p) in
  assert AssertIndex (index_ok a0) ;;;
  assert AssertIndex (index_ok a1) ;;;
  assert AssertIndex (index_ok a2) ;;;
  lutC0 <- lut_read rgbLUT (i0 a2) (i0 a1) (i0 a0) ;;
  lutC1 <- lut_read rgbLUT (i1 a2) (i1 a1) (i1 a0) ;;
  let ch0 := blend (s a0) (c0 lutC0) (c0 lutC1) in
  let ch1 := blend (s a1) (c1 lutC0) (c1 lutC1) in
  let ch2 := blend (s a2) (c2 lutC0) (c2 lutC1) in
  let ch0 := if extrapolate then clamp255 ch0 else ch0 in
  let ch1 := if extrapolate then clamp255 ch1 else ch1 in
  let ch2 := if extrapolate then clamp255 ch2 else ch2 in
  assert AssertChannel (channel_ok ch0) ;;;
  assert AssertChannel (channel_ok ch1) ;;;
  assert AssertChannel (channel_ok ch2) ;;;
  Ok {| c0 := u8 ch0; c1 := u8 ch1; c2 := u8 ch2; c3 := 255 |}.

(** [#define EXTRAPOLATE_LUT 1] *)
Definition EXTRAPOLATE_LUT : bool := true.

(** [ApplyLUT(rgbLUT, n, dataIn, dataOut)]: the first [n] pixels of
    [dataIn], each sampled; the result is what [dataOut] holds. *)
Definition ApplyLUT (rgbLUT : LUT) (n : nat) (dataIn : list RGBA32)
  : result (list RGBA32) :=
  mapM (ApplyLUT_pixel EXTRAPOLATE_LUT rgbLUT) (firstn n dataIn).

Definition ApplyLUTNoLerp_pixel (rgbLUT : LUT) (p : RGBA32) : result RGBA32 :=
  let fShift := 8 - kLUTBits in
  lut_read rgbLUT (Z.shiftr (c2 p) fShift) (Z.shiftr (c1 p) fShift)
           (Z.shiftr (c0 p) fShift).

Definition ApplyLUTNoLerp (rgbLUT : LUT) (n : nat) (dataIn : list RGBA32)
  : result (list RGBA32) :=
  mapM (ApplyLUTNoLerp_pixel rgbLUT) (firstn n dataIn).

(** ** Vectors and matrices *)

Local Open Scope R_scope.

(** [struct Vec3f { float x; float y; float z; }] *)
Record Vec3f : Type := mkVec3f { x : R; y : R; z : R }.

(** [struct Mat3f { Vec3f x; Vec3f y; Vec3f z; }]: the three rows. *)
Record Mat3f : Type := mkMat3f { mx : Vec3f; my : Vec3f; mz : Vec3f }.

(** A brace initialiser of nine floats, row by row. *)
Definition mat (a b c d e f g h i : R) : Mat3f :=
  {| mx := mkVec3f a b c; my := mkVec3f d e f; mz := mkVec3f g h i |}.

Inductive tLMS : Type := kL | kM | kS.

(** [elt(v, i)], [row(m, i)] and [col(m, i)] at the index a [tLMS] converts to. *)
Definition elt (v : Vec3f) (i : tLMS) : R :=
  match i with kL => x v | kM => y v | kS => z v end.

(** Assignment through the reference [elt(v, i)]. *)
Definition set_elt (v : Vec3f) (i : tLMS) (r : R) : Vec3f :=
  match i with
  | kL => mkVec3f r (y v) (z v)
  | kM => mkVec3f (x v) r (z v)
  | kS => mkVec3f (x v) (y v) r
  end.

Definition row (m : Mat3f) (i : tLMS) : Vec3f :=
  match i with kL => mx m | kM => my m | kS => mz m end.

Definition col (m : Mat3f) (i : tLMS) : Vec3f :=
  mkVec3f (elt (mx m) i) (elt (my m) i) (elt (mz m) i).

Definition vadd (a b : Vec3f) : Vec3f := mkVec3f (x a + x b) (y a + y b) (z a + z b).
Definition vsub (a b : Vec3f) : Vec3f := mkVec3f (x a - x b) (y a - y b) (z a - z b).
Definition vscale (k : R) (a : Vec3f) : Vec3f := mkVec3f (k * x a) (k * y a) (k * z a).
Definition dot (a b : Vec3f) : R := x a * x b + y a * y b + z a * z b.
Definition mulmv (m : Mat3f) (v : Vec3f) : Vec3f :=
  mkVec3f (dot (mx m) v) (dot (my m) v) (dot (mz m) v).

Infix "+v" := vadd (at level 50, left associativity).
Infix "-v" := vsub (at level 50, left associativity).
Infix "*v" := vscale (at level 40, left associativity).
Infix "*m" := mulmv (at level 40, left associativity).

(** ** Colour-blind support *)

(** The matrices, their [float] literals taken at their decimal values. *)

Definition kLMSFromRGB : Mat3f :=
  mat 0.31399022 0.63951294 0.04649755
      0.15537241 0.75789446 0.08670142
      0.01775239 0.10944209 0.87256922.

Definition kRGBFromLMS : Mat3f :=
  mat 5.47221206 (-4.64196010) 0.16963708
      (-1.1252419) 2.29317094 (-0.16789520)
      0.02980165 (-0.19318073) 1.16364789.

Definition kLMSProtanope : Mat3f :=
  mat 0 1.05118294 (-0.05116099)
      0 1 0
      0 0 1.

Definition kLMSDeuteranope : Mat3f :=
  mat 1 0 0
      0.9513092 0 0.04866992
      0 0 1.

Definition kLMSTritanope : Mat3f :=
  mat 1 0 0
      0 1 0
      (-0.86744736) 1.86727089 0.

Definition kLMSFromRGBV : Mat3f :=
  mat 17.8824 43.5161 4.11935
      3.45565 27.1554 3.86714
      0.0299566 0.184309 1.46709.

Definition kRGBFromLMSV : Mat3f :=
  mat 0.080944447900 (-0.13050440900) 0.116721066
      (-0.010248533500) 0.05401932660 (-0.113614708)
      (-0.000365296938) (-0.00412161469) 0.693511405.

Definition kLMSProtanopeV : Mat3f :=
  mat 0 2.02344 (-2.52581)
      0 1 0
      0 0 1.

Definition kLMSDeuteranopeV : Mat3f :=
  mat 1 0 0
      0.494207 0 1.24827
      0 0 1.

Definition kLMSTritanopeV : Mat3f :=
  mat 1 0 0
      0 1 0
      (-0.395913) 0.801109 0.

Definition kDaltonErrorToDeltaP : Mat3f :=
  mat 0 0 0
      0.7 1 0
      0.7 0 1.

Definition kDaltonErrorToDeltaD : Mat3f :=
  mat 1 0.7 0
      0 0 0
      0 0.7 1.

Definition kDaltonErrorToDeltaT : Mat3f :=
  mat 1 0 0.7
      0 1 0.7
      0 0 0.

Definition SimulateV (rgb : Vec3f) (lmsTransform : Mat3f) : Vec3f :=
  let lms := lmsTransform *m (kLMSFromRGBV *m rgb) in
  kRGBFromLMSV *m lms.

Definition Daltonise (rgb : Vec3f) (lmsType : tLMS) (strength : R) : Vec3f :=
  let rgbDelta :=
    match lmsType with
    | kL =>
        let rgbSim := SimulateV rgb kLMSProtanopeV in
        kDaltonErrorToDeltaP *m (strength *v (rgb -v rgbSim))
    | kM =>
        let rgbSim := SimulateV rgb kLMSDeuteranopeV in
        kDaltonErrorToDeltaD *m (strength *v (rgb -v rgbSim))
    | kS =>
        let rgbSim := SimulateV rgb kLMSTritanopeV in
        kDaltonErrorToDeltaT *m (strength *v (rgb -v rgbSim))
    end in
  rgb +v rgbDelta.

Definition kLMSSimulate : Mat3f :=
  mat 0 1.05118294 (-0.05116099)
      0.9513092 0 0.04866992
      (-0.86744736) 1.86727089 0.

Definition kNCDeltaRecip : Mat3f :=
  mat 0 1.05118299 (-1.15280771)
      0.951309144 0 0.535540938
      (-19.5461426) 20.5465717 0.

Definition Simulate (rgb : Vec3f) (lmsType : tLMS) (strength : R) : Vec3f :=
  let lms := kLMSFromRGB *m rgb in
  let eltx := elt lms lmsType in
  let simElt := dot (row kLMSSimulate lmsType) lms in
  let lms := set_elt lms lmsType (eltx + strength * (simElt - eltx)) in
  kRGBFromLMS *m lms.

Definition Correct (rgb : Vec3f) (lmsType : tLMS) (strength : R) : Vec3f :=
  let lms := kLMSFromRGB *m rgb in
  let orgElt := elt lms lmsType in
  let simElt := dot (row kLMSSimulate lmsType) lms in
  let error := strength * (orgElt - simElt) in
  let mc := strength * strength in
  let ms := 1 - strength in
  let amount3Recip := mkVec3f (-0.25) (-0.3) (-0.07) in
  let amount := elt amount3Recip lmsType in
  let correct := (mc * amount) *v col kNCDeltaRecip lmsType in
  let correct := set_elt correct lmsType (ms * 2) in
  let lmsCorrect := lms +v (error *v correct) in
  kRGBFromLMS *m lmsCorrect.

(** The classical projection of a deficiency type. *)
Definition kLMSProjection (lmsType : tLMS) : Mat3f :=
  match lmsType with
  | kL => kLMSProtanope
  | kM => kLMSDeuteranope
  | kS => kLMSTritanope
  end.

(** The error-to-delta matrix [Daltonise] selects for a deficiency type. *)
Definition kDaltonErrorToDelta (lmsType : tLMS) : Mat3f :=
  match lmsType with
  | kL => kDaltonErrorToDeltaP
  | kM => kDaltonErrorToDeltaD
  | kS => kDaltonErrorToDeltaT
  end.

(** ** RGB LUT support *)

Definition kGamma : R := 2.2.

(** [powf(b, e)] for the two exponents of this file, [kGamma] and
    [1 / kGamma], both positive and not integers: a negative base is a
    domain error (the result is a NaN), zero gives zero. *)
Definition powf (b e : R) : result R :=
  if Rlt_dec b 0 then Fault NaN
  else if Rle_dec b 0 then Ok 0
  else Ok (Rpower b e).

Definition pow (v : Vec3f) (p : R) : result Vec3f :=
  a <- powf (x v) p ;; b <- powf (y v) p ;; c <- powf (z v) p ;;
  Ok (mkVec3f a b c).

(** [uint8_t(f)]: truncation towards zero, then the byte. *)
Definition Ztrunc (f : R) : Z := if Rle_dec 0 f then Zfloor f else Zceil f.
Definition float_to_u8 (f : R) : Z := u8 (Ztrunc f).

Definition ToU8 (f : R) : Z :=
  if Rle_dec f 0 then 0%Z
  else if Rge_dec f 1 then 255%Z
  else float_to_u8 (f * 255 + 0.5).

Definition ToU8u (f : R) : Z :=
  if Rle_dec f 0 then 0%Z
  else if Rge_dec f 1 then 255%Z
  else float_to_u8 (f * 256).

Definition ToRGBA32 (c : Vec3f) : result RGBA32 :=
  c <- pow c (1 / kGamma) ;;
  Ok {| c0 := ToU8 (x c); c1 := ToU8 (y c); c2 := ToU8 (z c); c3 := 255 |}.

Definition ToRGBA32u (c : Vec3f) : result RGBA32 :=
  c <- pow c (1 / kGamma) ;;
  Ok {| c0 := ToU8u (x c); c1 := ToU8u (y c); c2 := ToU8u (z c); c3 := 255 |}.

Definition FromRGBA32 (rgb : RGBA32) : result Vec3f :=
  let c := mkVec3f (IZR (c0 rgb) / 255) (IZR (c1 rgb) / 255) (IZR (c2 rgb) / 255) in
  pow c kGamma.

Definition FromRGBA32u (rgb : RGBA32) : result Vec3f :=
  let c := mkVec3f (IZR (c0 rgb) / 256) (IZR (c1 rgb) / 256) (IZR (c2 rgb) / 256) in
  pow c kGamma.

(** ** The builder (CBLutGen.cpp) *)

(** The colour the loops of [CreateLUT] call [identity] at cell [i][j][k]. *)
Definition centre (i j k : Z) : RGBA32 :=
  let scale := (256 / kLUTSize)%Z in
  let offset := (scale / 2)%Z in
  {| c0 := u8 (k * scale + offset);
     c1 := u8 (j * scale + offset);
     c2 := u8 (i * scale + offset);
     c3 := 255 |}.

(** [ToU8u(powf(c, 1 / kGamma))], one channel of [ToRGBA32u], where the
    code goes on after a NaN.  On a negative [c] [powf] returns a NaN; both
    comparisons of [ToU8u] are false on a NaN, and the conversion
    [uint8_t(f * 256.0f)] that follows is undefined in C++: [nan_u8 c]
    stands for the byte it leaves. *)
Definition pack_u (nan_u8 : R -> Z) (c : R) : Z :=
  match powf c (1 / kGamma) with
  | Ok t => ToU8u t
  | Fault _ => u8 (nan_u8 c)
  end.

(** [ToRGBA32u] with that byte made explicit: a colour for every input. *)
Definition ToRGBA32u_with (nan_u8 : R -> Z) (c : Vec3f) : RGBA32 :=
  {| c0 := pack_u nan_u8 (x c); c1 := pack_u nan_u8 (y c);
     c2 := pack_u nan_u8 (z c); c3 := 255 |}.

(** The body of the loops of [CreateLUT]: what is stored at [i][j][k].
    The loops store whatever [ToRGBA32u] returns and go on, also after a
    NaN. *)
Definition CreateLUT_cell (nan_u8 : R -> Z) (xform : Vec3f -> Vec3f) (i j k : Z)
  : result RGBA32 :=
  let identity := centre i j k in
  c <- FromRGBA32u identity ;;
  let c := xform c in
  Ok (ToRGBA32u_with nan_u8 c).

Definition CreateLUT (nan_u8 : R -> Z) (xform : Vec3f -> Vec3f) : result LUT :=
  mapM (fun i => mapM (fun j => mapM (fun k => CreateLUT_cell nan_u8 xform i j k)
                                     indices) indices) indices.

Definition Transform_pixel (xform : Vec3f -> Vec3f) (p : RGBA32) : result RGBA32 :=
  c <- FromRGBA32 p ;;
  let c := xform c in
  ToRGBA32 c.

Definition Transform (xform : Vec3f -> Vec3f) (n : nat) (dataIn : list RGBA32)
  : result (list RGBA32) :=
  mapM (Transform_pixel xform) (firstn n dataIn).

(** ** Mono LUT support *)

(** [monoLUT[i]] in [const RGBA32 monoLUT[256]]. *)
Definition mono_read (monoLUT : list RGBA32) (i : Z) : result RGBA32 :=
  match nth_error monoLUT (Z.to_nat i) with
  | Some p => Ok p
  | None => Fault OutOfBounds
  end.

(** [p.c[channel]] for an index given at run time: [c] has four bytes. *)
Definition chan_read (p : RGBA32) (channel : Z) : result Z :=
  if (0 <=? channel)%Z && (channel <? 4)%Z
  then Ok (chan p (Z.to_nat channel))
  else Fault OutOfBounds.

(** One iteration of either loop of [ApplyMonoLUT]. *)
Definition ApplyMonoLUT_pixel (monoLUT : list RGBA32) (channel : Z) (p : RGBA32)
  : result RGBA32 :=
  if (channel <? 0)%Z then
    c <- FromRGBA32 p ;;
    let lumD65 := dot (mkVec3f 0.2126 0.7152 0.0722) c in
    t <- powf lumD65 (1 / kGamma) ;;
    let lumU8 := ToU8 t in
    mono_read monoLUT lumU8
  else
    v <- chan_read p channel ;;
    mono_read monoLUT v.

Definition ApplyMonoLUT (monoLUT : list RGBA32) (n : nat) (dataIn : list RGBA32)
           (channel : Z) : result (list RGBA32) :=
  mapM (ApplyMonoLUT_pixel monoLUT channel) (firstn n dataIn).

End CBLut.

(** ** The helpers of the generator (CBLutGen.cpp) *)

Module CBLutGen.
Import CBLut.
Local Open Scope R_scope.

(** [operator*(Vec3f a, Vec3f b)]: channel by channel. *)
Definition vmul (a b : Vec3f) : Vec3f := mkVec3f (x a * x b) (y a * y b) (z a * z b).

(** [operator*=(Vec3f& v, float s)]: the value [v] holds afterwards. *)
Definition vscale_assign (v : Vec3f) (k : R) : Vec3f :=
  mkVec3f (x v * k) (y v * k) (z v * k).

(** [c < 0.0f ? 0.0f : c > 1.0f ? 1.0f : c] *)
Definition clamp_unit (c : R) : R :=
  if Rlt_dec c 0 then 0 else if Rgt_dec c 1 then 1 else c.

Definition ClampUnit (c : Vec3f) : Vec3f :=
  mkVec3f (clamp_unit (x c)) (clamp_unit (y c)) (clamp_unit (z c)).

Definition RGBError (c : Vec3f) (lmsType : tLMS) (strength : R) : Vec3f :=
  let sc := Simulate c lmsType strength in
  c -v sc.

Definition LMSSwap (rgb : Vec3f) (ch : tLMS) : Vec3f :=
  let lms := kLMSFromRGB *m rgb in
  let lms :=
    match ch with
    | kL => mkVec3f (y lms) (x lms) (z lms)
    | kM => mkVec3f (x lms) (z lms) (y lms)
    | kS => mkVec3f (z lms) (y lms) (x lms)
    end in
  kRGBFromLMS *m lms.

Definition RemapLToS (rgb : Vec3f) : Vec3f :=
  let lmsP := kLMSFromRGB *m rgb in
  let lmsSimP := kLMSProtanope *m lmsP in
  let error := x lmsP - x lmsSimP in
  let lmsS := mkVec3f (x lmsSimP) (y lmsSimP) (z lmsSimP + 10 * error) in
  kRGBFromLMS *m lmsS.

Definition RemapMToS (rgb : Vec3f) : Vec3f :=
  let lmsM := kLMSFromRGB *m rgb in
  let lmsSimM := kLMSDeuteranope *m lmsM in
  let error := x lmsM - x lmsSimM in
  let lmsS := mkVec3f (x lmsSimM) (y lmsSimM) (z lmsSimM + 10 * error) in
  kRGBFromLMS *m lmsS.

(** The colour of pixel (x, y) of the swatch of option [-F], with
    [w = h = 256]. *)
Definition swatch_rgb (w h px py : Z) : Vec3f :=
  let lx := (IZR px + 0.5) / IZR w in
  let ly := (IZR py + 0.5) / IZR h in
  let lms := mkVec3f lx ly (1 - ly) in
  let remapLMS := mkVec3f 0.46 0.45 0.25 +v vmul (mkVec3f 0.08 0.1 0.5) lms in
  let remapLMS := vscale_assign remapLMS 0.75 in
  kRGBFromLMS *m remapLMS.

(** [rgb.x >= 0.0f && rgb.x <= 1.0f], and so for [y] and [z]. *)
Definition in_unit (c : R) : bool :=
  if Rge_dec c 0 then (if Rle_dec c 1 then true else false) else false.

Definition swatch_pixel (px py : Z) : result RGBA32 :=
  let rgb := swatch_rgb 256 256 px py in
  assert AssertChannel (in_unit (x rgb)) ;;;
  assert AssertChannel (in_unit (y rgb)) ;;;
  assert AssertChannel (in_unit (z rgb)) ;;;
  ToRGBA32 rgb.

(** *** File names *)

(** A C string: the characters before the terminating NUL. *)
Definition cstr : Type := list ascii.

(** [strrchr(s, c)], as the offset of the last [c] in [s]. *)
Fixpoint strrchr (s : cstr) (c : ascii) : option nat :=
  match s with
  | [] => None
  | a :: s' =>
      match strrchr s' c with
      | Some i => Some (S i)
      | None => if Ascii.eqb a c then Some O else None
      end
  end.

(** [strlcpy(dst, src, size)]: what [dst] holds afterwards, given what it
    held before; nothing is written when [size] is 0. *)
Definition strlcpy (dst src : cstr) (size : nat) : cstr :=
  match size with
  | O => dst
  | S m => firstn m src
  end.

(** [GetFileName(buffer, bufferSize, path)]: what [buffer] holds afterwards. *)
Definition GetFileName (buffer : cstr) (bufferSize : nat) (path : cstr) : cstr :=
  let lastSlash := strrchr path "/"%char in
  let lastSlash :=
    match lastSlash with
    | Some i => Some i
    | None => strrchr path "\"%char
    end in
  let buffer :=
    match lastSlash with
    | Some i => strlcpy buffer (skipn (S i) path) bufferSize
    | None => strlcpy buffer path bufferSize
    end in
  match strrchr buffer "."%char with
  | Some i => firstn i buffer
  | None => buffer
  end.

End CBLutGen.

(** ** The deficiency engine in binary32

    The same functions of CBLuts.cpp with every [float] operation rounded
    on its own to binary32 (round to nearest, ties to even; no fused
    multiply-add), and the literals at the [float] nearest to their decimal
    value.  A finite [float] is the rational number it stands for. *)

Module Binary32.
Local Open Scope Q_scope.

(** A [float]: a finite number, or an infinity or a NaN. *)
Inductive float : Type := Fin (q : Q) | NotFinite.

(** 24 bits of precision; 2^-149 is the least subnormal. *)
Definition prec : Z := 24.
Definition emin : Z := -149.
Definition FLT_MAX : Q := inject_Z ((2 ^ 24 - 1) * 2 ^ 104).

(** The exponent of a nonzero [q]: floor(log2 |q|). *)
Definition mag (q : Q) : Z :=
  let e := (Z.log2 (Z.abs (Qnum q)) - Z.log2 (Zpos (Qden q)))%Z in
  if Qle_bool (2 ^ e) (Qabs q) then e else (e - 1)%Z.

(** The integer nearest to [t], the even one of two equally near. *)
Definition rne (t : Q) : Z :=
  let f := Qfloor t in
  match Qcompare (t - inject_Z f) (1 # 2) with
  | Lt => f
  | Gt => (f + 1)%Z
  | Eq => if Z.even f then f else (f + 1)%Z
  end.

(** The [float] an exact result [q] is rounded to (round to nearest, ties
    to even): a multiple of 2^e, [e] leaving 24 bits above it but not
    below [emin]; an infinity when that is beyond [FLT_MAX]. *)
Definition round32 (q : Q) : float :=
  let q := Qred q in
  if Qeq_bool q 0 then Fin 0 else
  let e := Z.max (mag q - (prec - 1)) emin in
  let r := Qred (inject_Z (rne (q / 2 ^ e)) * 2 ^ e) in
  if Qle_bool (Qabs r) FLT_MAX then Fin r else NotFinite.

(** [a + b], [a - b] and [a * b] on [float]; an operand that is not
    finite gives a result that is not finite. *)
Definition fadd (a b : float) : float :=
  match a, b with Fin p, Fin q => round32 (p + q) | _, _ => NotFinite end.
Definition fsub (a b : float) : float :=
  match a, b with Fin p, Fin q => round32 (p - q) | _, _ => NotFinite end.
Definition fmul (a b : float) : float :=
  match a, b with Fin p, Fin q => round32 (p * q) | _, _ => NotFinite end.

Infix "+f" := fadd (at level 50, left associativity).
Infix "-f" := fsub (at level 50, left associativity).
Infix "*f" := fmul (at level 40, left associativity).

(** A literal with suffix [f], or an integer literal converted to [float]. *)
Definition lit (d : Q) : float := round32 d.

(** [FLT_EPSILON] and [FLT_TRUE_MIN] of <float.h>: 2^-23, and the least
    subnormal 2^-149. *)
Definition FLT_EPSILON : Q := 1 # 8388608.
Definition FLT_TRUE_MIN : Q := 2 ^ (-149).

Record Vec3f : Type := mkVec3f { x : float; y : float; z : float }.
Record Mat3f : Type := mkMat3f { mx : Vec3f; my : Vec3f; mz : Vec3f }.

Definition mat (a b c d e f g h i : Q) : Mat3f :=
  {| mx := mkVec3f (lit a) (lit b) (lit c);
     my := mkVec3f (lit d) (lit e) (lit f);
     mz := mkVec3f (lit g) (lit h) (lit i) |}.

(** A vector of three finite channels. *)
Definition vec (a b c : Q) : Vec3f := mkVec3f (Fin a) (Fin b) (Fin c).

Definition elt (v : Vec3f) (i : CBLut.tLMS) : float :=
  match i with CBLut.kL => x v | CBLut.kM => y v | CBLut.kS => z v end.

Definition set_elt (v : Vec3f) (i : CBLut.tLMS) (r : float) : Vec3f :=
  match i with
  | CBLut.kL => mkVec3f r (y v) (z v)
  | CBLut.kM => mkVec3f (x v) r (z v)
  | CBLut.kS => mkVec3f (x v) (y v) r
  end.

Definition row (m : Mat3f) (i : CBLut.tLMS) : Vec3f :=
  match i with CBLut.kL => mx m | CBLut.kM => my m | CBLut.kS => mz m end.

Definition col (m : Mat3f) (i : CBLut.tLMS) : Vec3f :=
  mkVec3f (elt (mx m) i) (elt (my m) i) (elt (mz m) i).

Definition vadd (a b : Vec3f) : Vec3f := mkVec3f (x a +f x b) (y a +f y b) (z a +f z b).
Definition vsub (a b : Vec3f) : Vec3f := mkVec3f (x a -f x b) (y a -f y b) (z a -f z b).
Definition vscale (k : float) (a : Vec3f) : Vec3f := mkVec3f (k *f x a) (k *f y a) (k *f z a).
(** [a.x * b.x + a.y * b.y + a.z * b.z]: the sum associates to the left. *)
Definition dot (a b : Vec3f) : float := x a *f x b +f y a *f y b +f z a *f z b.
Definition mulmv (m : Mat3f) (v : Vec3f) : Vec3f :=
  mkVec3f (dot (mx m) v) (dot (my m) v) (dot (mz m) v).

Infix "+v" := vadd (at level 50, left associativity).
Infix "-v" := vsub (at level 50, left associativity).
Infix "*v" := vscale (at level 40, left associativity).
Infix "*m" := mulmv (at level 40, left associativity).

Definition kLMSFromRGB : Mat3f :=
  mat 0.31399022 0.63951294 0.04649755
      0.15537241 0.75789446 0.08670142
      0.01775239 0.10944209 0.87256922.

Definition kRGBFromLMS : Mat3f :=
  mat 5.47221206 (-4.64196010) 0.16963708
      (-1.1252419) 2.29317094 (-0.16789520)
      0.02980165 (-0.19318073) 1.16364789.

Definition kLMSProtanope : Mat3f :=
  mat 0 1.05118294 (-0.05116099)
      0 1 0
      0 0 1.

Definition kLMSDeuteranope : Mat3f :=
  mat 1 0 0
      0.9513092 0 0.04866992
      0 0 1.

Definition kLMSTritanope : Mat3f :=
  mat 1 0 0
      0 1 0
      (-0.86744736) 1.86727089 0.

Definition kLMSFromRGBV : Mat3f :=
  mat 17.8824 43.5161 4.11935
      3.45565 27.1554 3.86714
      0.0299566 0.184309 1.46709.

Definition kRGBFromLMSV : Mat3f :=
  mat 0.080944447900 (-0.13050440900) 0.116721066
      (-0.010248533500) 0.05401932660 (-0.113614708)
      (-0.000365296938) (-0.00412161469) 0.693511405.

Definition kLMSProtanopeV : Mat3f :=
  mat 0 2.02344 (-2.52581)
      0 1 0
      0 0 1.

Definition kLMSDeuteranopeV : Mat3f :=
  mat 1 0 0
      0.494207 0 1.24827
      0 0 1.

Definition kLMSTritanopeV : Mat3f :=
  mat 1 0 0
      0 1 0
      (-0.395913) 0.801109 0.

Definition kDaltonErrorToDeltaP : Mat3f :=
  mat 0 0 0
      0.7 1 0
      0.7 0 1.

Definition kDaltonErrorToDeltaD : Mat3f :=
  mat 1 0.7 0
      0 0 0
      0 0.7 1.

Definition kDaltonErrorToDeltaT : Mat3f :=
  mat 1 0 0.7
      0 1 0.7
      0 0 0.

Definition SimulateV (rgb : Vec3f) (lmsTransform : Mat3f) : Vec3f :=
  let lms := lmsTransform *m (kLMSFromRGBV *m rgb) in
  kRGBFromLMSV *m lms.

Definition Daltonise (rgb : Vec3f) (lmsType : CBLut.tLMS) (strength : float) : Vec3f :=
  let rgbDelta :=
    match lmsType with
    | CBLut.kL =>
        let rgbSim := SimulateV rgb kLMSProtanopeV in
        kDaltonErrorToDeltaP *m (strength *v (rgb -v rgbSim))
    | CBLut.kM =>
        let rgbSim := SimulateV rgb kLMSDeuteranopeV in
        kDaltonErrorToDeltaD *m (strength *v (rgb -v rgbSim))
    | CBLut.kS =>
        let rgbSim := SimulateV rgb kLMSTritanopeV in
        kDaltonErrorToDeltaT *m (strength *v (rgb -v rgbSim))
    end in
  rgb +v rgbDelta.

Definition kLMSSimulate : Mat3f :=
  mat 0 1.05118294 (-0.05116099)
      0.9513092 0 0.04866992
      (-0.86744736) 1.86727089 0.

Definition kNCDeltaRecip : Mat3f :=
  mat 0 1.05118299 (-1.15280771)
      0.951309144 0 0.535540938
      (-19.5461426) 20.5465717 0.

Definition Simulate (rgb : Vec3f) (lmsType : CBLut.tLMS) (strength : float) : Vec3f :=
  let lms := kLMSFromRGB *m rgb in
  let eltx := elt lms lmsType in
  let simElt := dot (row kLMSSimulate lmsType) lms in
  let lms := set_elt lms lmsType (eltx +f strength *f (simElt -f eltx)) in
  kRGBFromLMS *m lms.

Definition Correct (rgb : Vec3f) (lmsType : CBLut.tLMS) (strength : float) : Vec3f :=
  let lms := kLMSFromRGB *m rgb in
  let orgElt := elt lms lmsType in
  let simElt := dot (row kLMSSimulate lmsType) lms in
  let error := strength *f (orgElt -f simElt) in
  let mc := strength *f strength in
  let ms := lit 1 -f strength in
  let amount3Recip := mkVec3f (lit (-0.25)) (lit (-0.3)) (lit (-0.07)) in
  let amount := elt amount3Recip lmsType in
  let correct := (mc *f amount) *v col kNCDeltaRecip lmsType in
  let correct := set_elt correct lmsType (ms *f lit 2) in
  let lmsCorrect := lms +v (error *v correct) in
  kRGBFromLMS *m lmsCorrect.

Definition kLMSProjection (lmsType : CBLut.tLMS) : Mat3f :=
  match lmsType with
  | CBLut.kL => kLMSProtanope
  | CBLut.kM => kLMSDeuteranope
  | CBLut.kS => kLMSTritanope
  end.

End Binary32.

(** ** Vocabulary of the error bounds on binary32 code *)

Module Rounding.
Import Binary32.
Local Open Scope Q_scope.

(** The largest relative error of one rounding: 2^-24. *)
Definition eps : Q := 1 # 16777216.

(** The largest error of one rounding among the subnormals: 2^-150. *)
Definition eta : Q := 2 ^ (-150).

(** Three roundings in a row: 3 eps + 3 eps^2 + eps^3, and a little more. *)
Definition gamma3 : Q := 3000001 # 16777216000000.

(** A finite [float] of magnitude at most 2^k. *)
Definition bounded (k : Z) (a : float) : Prop :=
  exists q, a = Fin q /\ Qabs q <= 2 ^ k.

Definition vbounded (k : Z) (v : Vec3f) : Prop :=
  bounded k (x v) /\ bounded k (y v) /\ bounded k (z v).

Definition mbounded (k : Z) (m : Mat3f) : Prop :=
  vbounded k (mx m) /\ vbounded k (my m) /\ vbounded k (mz m).

(** A bound on the LMS channel [Simulate] rebuilds for a deficiency type,
    for a colour whose channels are at most [V] in magnitude: the sum of
    the magnitudes of the row of [kLMSSimulate], and the rounding. *)
Definition sim_bound (d : CBLut.tLMS) (V : Q) : Q :=
  match d with
  | CBLut.kL => (1102347 # 1000000) * V + 25 * eta
  | CBLut.kM => V + 25 * eta
  | CBLut.kS => (2734725 # 1000000) * V + 25 * eta
  end.

(** A bound on what the update [eltx += 1.0f * (simElt - eltx)] misses
    [simElt] by. *)
Definition update_bound (d : CBLut.tLMS) (V : Q) : Q :=
  match d with
  | CBLut.kL => (26035 # 10000) * FLT_EPSILON * V + (201 # 100) * eta
  | CBLut.kM => (26 # 10) * FLT_EPSILON * V + (201 # 100) * eta
  | CBLut.kS => (43 # 10) * FLT_EPSILON * V + (201 # 100) * eta
  end.

End Rounding.

(** ** Concrete cubes, transforms and pixels used below *)

Module Scenarios.
Import CBLut.

(** A cube whose channels fall by one level per grid step. *)
Definition descending_cell (i j k : Z) : RGBA32 :=
  {| c0 := 31 - k; c1 := 31 - j; c2 := 31 - i; c3 := 255 |}.
Definition descending_lut : LUT := fill descending_cell.

(** A cube whose entries carry an alpha byte other than 255. *)
Definition translucent_cell (i j k : Z) : RGBA32 :=
  {| c0 := k; c1 := j; c2 := i; c3 := 7 |}.
Definition translucent_lut : LUT := fill translucent_cell.

(** A transform that copies the green channel into all three. *)
Definition grey_of_green (c : Vec3f) : Vec3f := mkVec3f (y c) (y c) (y c).

(** What [CreateLUT grey_of_green] stores at cell [i][j][k]. *)
Definition grey_of_green_cell (i j k : Z) : RGBA32 :=
  {| c0 := 8 * j + 4; c1 := 8 * j + 4; c2 := 8 * j + 4; c3 := 255 |}.

Definition mid_grey : RGBA32 := {| c0 := 128; c1 := 128; c2 := 128; c3 := 255 |}.

(** The linear value [FromRGBA32] gives each channel of [mid_grey]. *)
Definition grey_level : R := Rpower (128 / 255) kGamma.

End Scenarios.

(** ** Vocabulary of the statements on packing *)

Module Tolerance.
Import CBLut.
Local Open Scope R_scope.

(** A channel [f] is packed into the byte [b] with clamping at both ends. *)
Definition clamps_to_byte (f : R) (b : Z) : Prop :=
  (f <= 0 -> b = 0%Z) /\ (1 <= f -> b = 255%Z) /\ (0 <= b <= 255)%Z.

End Tolerance.

(** ** Ramps, axes and paths used below *)

Module Examples.
Import CBLut CBLutGen.
Local Open Scope R_scope.

(** A 256-entry ramp whose entry [i] is the grey (i, i, i, 255). *)
Definition grey_ramp : list RGBA32 :=
  map (fun i => mkRGBA32 i i i 255) (map Z.of_nat (seq 0 256)).

(** out/test.case/ishihara.9.png *)
Definition sample_path : CBLutGen.cstr :=
  ["o"; "u"; "t"; "/"; "t"; "e"; "s"; "t"; "."; "c"; "a"; "s"; "e"; "/";
   "i"; "s"; "h"; "i"; "h"; "a"; "r"; "a"; "."; "9"; "."; "p"; "n"; "g"]%char.

End Examples.

Import CBLut.

(** Unfolds the engine down to sums and products of its constants. *)
Ltac unfold_engine :=
  unfold Simulate, Correct, Daltonise, SimulateV, mulmv, dot, vadd, vsub, vscale,
    col, row, elt, set_elt, kLMSProjection, kDaltonErrorToDelta,
    kLMSFromRGB, kRGBFromLMS, kLMSSimulate, kNCDeltaRecip,
    kLMSProtanope, kLMSDeuteranope, kLMSTritanope,
    kLMSFromRGBV, kRGBFromLMSV, kLMSProtanopeV, kLMSDeuteranopeV, kLMSTritanopeV,
    kDaltonErrorToDeltaP, kDaltonErrorToDeltaD, kDaltonErrorToDeltaT, mat;
  cbn [x y z mx my mz].

(** * Properties *)

(** ** The result monad *)

Lemma mapM_map {A B : Type} (f : A -> result B) (g : A -> B) (l : list A) :
  (forall a, In a l -> f a = Ok (g a)) -> mapM f l = Ok (map g l).
Proof.
  induction l as [|a l IH]; intros Hf; simpl; [reflexivity|].
  rewrite (Hf a) by (left; reflexivity). simpl.
  rewrite IH by (intros b Hb; apply Hf; right; exact Hb).
  reflexivity.
Qed.

Lemma mapM_Ok_Forall2 {A B : Type} (f : A -> result B) (l : list A) (l' : list B) :
  mapM f l = Ok l' -> Forall2 (fun a b => f a = Ok b) l l'.
Proof.
  revert l'. induction l as [|a l IH]; simpl; intros l' H.
  - injection H as <-. constructor.
  - destruct (f a) as [b|] eqn:Ha; simpl in H; [|discriminate].
    destruct (mapM f l) as [bs|] eqn:Hl; simpl in H; [|discriminate].
    injection H as <-. constructor; [exact Ha | apply IH; reflexivity].
Qed.

Lemma mapM_Forall2 {A B : Type} (f : A -> result B) (R : A -> B -> Prop)
      (l : list A) :
  (forall a, In a l -> exists b, f a = Ok b /\ R a b) ->
  exists l', mapM f l = Ok l' /\ Forall2 R l l'.
Proof.
  induction l as [|a l IH]; intros Hf.
  - exists []. split; [reflexivity | constructor].
  - destruct (Hf a (or_introl eq_refl)) as (b & Hb & Rb).
    destruct IH as (l' & Hl' & Fl'); [intros a' Ha'; apply Hf; right; exact Ha'|].
    exists (b :: l'). split.
    + cbn [mapM]. rewrite Hb. cbn [bind]. rewrite Hl'. reflexivity.
    + constructor; assumption.
Qed.

Lemma In_firstn {A : Type} (n : nat) (l : list A) (a : A) :
  In a (firstn n l) -> In a l.
Proof.
  intros H. rewrite <- (firstn_skipn n l). apply in_or_app. left. exact H.
Qed.

(** ** Bytes and grid indices *)

Lemma is_u8_spec (v : Z) : is_u8 v = true <-> 0 <= v < 256.
Proof. unfold is_u8. rewrite andb_true_iff, Z.leb_le, Z.ltb_lt. tauto. Qed.

Lemma wf_pixel_spec (p : RGBA32) :
  wf_pixel p = true <->
  (0 <= c0 p < 256) /\ (0 <= c1 p < 256) /\ (0 <= c2 p < 256) /\ (0 <= c3 p < 256).
Proof.
  unfold wf_pixel. rewrite !andb_true_iff, !is_u8_spec. tauto.
Qed.

(** A property checked on each of the 256 bytes holds of every byte. *)
Lemma byte_cases (P : Z -> bool) :
  forallb P (map Z.of_nat (seq 0 256)) = true ->
  forall v, 0 <= v < 256 -> P v = true.
Proof.
  intros H v Hv. rewrite forallb_forall in H. apply H.
  apply in_map_iff. exists (Z.to_nat v). split; [lia|].
  apply in_seq. lia.
Qed.

Lemma kLUTSize_32 : kLUTSize = 32.
Proof. reflexivity. Qed.

Lemma nth_error_indices (i : Z) :
  0 <= i < kLUTSize -> nth_error indices (Z.to_nat i) = Some i.
Proof.
  intros Hi. unfold indices. rewrite nth_error_map.
  rewrite nth_error_seq.
  rewrite kLUTSize_32 in *.
  destruct (Nat.ltb_spec (Z.to_nat i) (Z.to_nat 32)) as [_|Hge]; [|lia].
  simpl. f_equal. lia.
Qed.

Lemma In_indices (i : Z) : In i indices <-> 0 <= i < kLUTSize.
Proof.
  unfold indices. rewrite in_map_iff, kLUTSize_32. split.
  - intros (n & <- & Hn). apply in_seq in Hn. lia.
  - intros Hi. exists (Z.to_nat i). split; [lia|]. apply in_seq. lia.
Qed.

Lemma lut_read_fill (cell : Z -> Z -> Z -> RGBA32) (i j k : Z) :
  0 <= i < kLUTSize -> 0 <= j < kLUTSize -> 0 <= k < kLUTSize ->
  lut_read (fill cell) i j k = Ok (cell i j k).
Proof.
  intros Hi Hj Hk. unfold lut_read, fill.
  rewrite nth_error_map, (nth_error_indices i Hi). cbn [option_map].
  rewrite nth_error_map, (nth_error_indices j Hj). cbn [option_map].
  rewrite nth_error_map, (nth_error_indices k Hk). reflexivity.
Qed.

(** ** The sampler's index arithmetic *)

Lemma axis_init_div (v : Z) :
  axis_init v = {| i0 := (v + 4) / 8 - 1; i1 := (v + 4) / 8; s := (v + 4) mod 8 |}.
Proof.
  unfold axis_init. change fHalf with 4. change fShift with 3.
  change fMask with (Z.ones 3).
  rewrite Z.shiftr_div_pow2 by lia. rewrite Z.land_ones by lia.
  reflexivity.
Qed.

(** Away from the two boundaries nothing is adjusted. *)
Lemma axis_of_interior (e : bool) (v : Z) :
  4 <= v < 252 ->
  axis_of e v = {| i0 := (v + 4) / 8 - 1; i1 := (v + 4) / 8; s := (v + 4) mod 8 |}.
Proof.
  intros Hv. unfold axis_of. rewrite axis_init_div. unfold axis_adjust.
  cbn [i0 i1 s]. change lutSize with 32.
  destruct (Z.ltb_spec ((v + 4) / 8 - 1) 0) as [H|H];
    [exfalso; Z.div_mod_to_equations; lia|].
  destruct (Z.geb_spec ((v + 4) / 8) 32) as [H'|H'];
    [exfalso; Z.div_mod_to_equations; lia|].
  reflexivity.
Qed.

(** Below the first grid centre: [i0] is pinned to 0, [i1] is pushed one
    step out and the weight is biased by a whole step of eight. *)
Lemma axis_of_low (v : Z) :
  0 <= v < 4 -> axis_of true v = {| i0 := 0; i1 := 1; s := v - 4 |}.
Proof.
  intros Hv. unfold axis_of. rewrite axis_init_div. unfold axis_adjust.
  cbn [i0 i1 s].
  assert (Hq : (v + 4) / 8 = 0) by (apply Z.div_small; lia).
  assert (Hr : (v + 4) mod 8 = v + 4) by (apply Z.mod_small; lia).
  rewrite Hq, Hr. cbn. f_equal. lia.
Qed.

(** At and above the last grid centre: the mirror image. *)
Lemma axis_of_high (v : Z) :
  252 <= v < 256 -> axis_of true v = {| i0 := 30; i1 := 31; s := v - 244 |}.
Proof.
  intros Hv. unfold axis_of. rewrite axis_init_div. unfold axis_adjust.
  cbn [i0 i1 s].
  assert (Hq : (v + 4) / 8 = 32) by (Z.div_mod_to_equations; lia).
  assert (Hr : (v + 4) mod 8 = v - 252) by (Z.div_mod_to_equations; lia).
  rewrite Hq, Hr. cbn. f_equal. lia.
Qed.

(** In clamp mode the out-of-range index is pinned and the weight kept. *)
Lemma axis_of_low_clamp (v : Z) :
  0 <= v < 4 -> axis_of false v = {| i0 := 0; i1 := 0; s := v + 4 |}.
Proof.
  intros Hv. unfold axis_of. rewrite axis_init_div. unfold axis_adjust.
  cbn [i0 i1 s].
  assert (Hq : (v + 4) / 8 = 0) by (apply Z.div_small; lia).
  assert (Hr : (v + 4) mod 8 = v + 4) by (apply Z.mod_small; lia).
  rewrite Hq, Hr. reflexivity.
Qed.

Lemma index_ok_spec (a : axis) :
  index_ok a = true <-> (0 <= i0 a < kLUTSize) /\ (0 <= i1 a < kLUTSize).
Proof.
  unfold index_ok. rewrite !andb_true_iff, !Z.leb_le, !Z.ltb_lt. tauto.
Qed.

Lemma axis_of_index_ok (v : Z) :
  0 <= v < 256 -> index_ok (axis_of true v) = true.
Proof.
  intros Hv. apply index_ok_spec. rewrite kLUTSize_32.
  destruct (Z.lt_ge_cases v 4) as [Hlo|Hlo].
  - rewrite axis_of_low by lia. cbn. lia.
  - destruct (Z.lt_ge_cases v 252) as [Hhi|Hhi].
    + rewrite axis_of_interior by lia. cbn [i0 i1].
      Z.div_mod_to_equations. lia.
    + rewrite axis_of_high by lia. cbn. lia.
Qed.

Lemma clamp255_range (ch : Z) : 0 <= clamp255 ch <= 255.
Proof.
  unfold clamp255.
  destruct (Z.ltb_spec ch 0); [lia|].
  destruct (Z.gtb_spec ch 255); lia.
Qed.

Lemma channel_ok_clamp255 (ch : Z) : channel_ok (clamp255 ch) = true.
Proof.
  unfold channel_ok. pose proof (clamp255_range ch).
  rewrite andb_true_iff, Z.leb_le, Z.leb_le. lia.
Qed.

Lemma u8_clamp255 (ch : Z) : u8 (clamp255 ch) = clamp255 ch.
Proof. unfold u8. pose proof (clamp255_range ch). apply Z.mod_small. lia. Qed.

(** ** Reading a well-formed cube *)

Lemma wf_lut_read (rgbLUT : LUT) (i j k : Z) :
  wf_lut rgbLUT = true ->
  0 <= i < kLUTSize -> 0 <= j < kLUTSize -> 0 <= k < kLUTSize ->
  exists p, lut_read rgbLUT i j k = Ok p /\ wf_pixel p = true.
Proof.
  unfold wf_lut. rewrite kLUTSize_32. intros H Hi Hj Hk.
  apply andb_true_iff in H as [Hlen Hall]. apply Nat.eqb_eq in Hlen.
  rewrite forallb_forall in Hall. unfold lut_read.
  destruct (nth_error rgbLUT (Z.to_nat i)) as [plane|] eqn:Ep;
    [|apply nth_error_None in Ep; lia].
  specialize (Hall plane (nth_error_In _ _ Ep)).
  apply andb_true_iff in Hall as [Hlen1 Hall1]. apply Nat.eqb_eq in Hlen1.
  rewrite forallb_forall in Hall1.
  destruct (nth_error plane (Z.to_nat j)) as [line|] eqn:El;
    [|apply nth_error_None in El; lia].
  specialize (Hall1 line (nth_error_In _ _ El)).
  apply andb_true_iff in Hall1 as [Hlen2 Hall2]. apply Nat.eqb_eq in Hlen2.
  rewrite forallb_forall in Hall2.
  destruct (nth_error line (Z.to_nat k)) as [p|] eqn:Ek;
    [|apply nth_error_None in Ek; lia].
  exists p. split; [reflexivity|]. apply Hall2. exact (nth_error_In _ _ Ek).
Qed.

Lemma wf_fill (cell : Z -> Z -> Z -> RGBA32) :
  (forall i j k, 0 <= i < kLUTSize -> 0 <= j < kLUTSize -> 0 <= k < kLUTSize ->
                 wf_pixel (cell i j k) = true) ->
  wf_lut (fill cell) = true.
Proof.
  intros Hc. unfold wf_lut, fill.
  assert (Hlen : forall (B : Type) (f : Z -> B),
             (length (map f indices) =? Z.to_nat kLUTSize)%nat = true).
  { intros B f. rewrite length_map. unfold indices.
    rewrite length_map, length_seq. apply Nat.eqb_refl. }
  rewrite Hlen. cbn [andb]. apply forallb_forall. intros plane Hp.
  apply in_map_iff in Hp as (i & <- & Hi). apply In_indices in Hi.
  rewrite Hlen. cbn [andb]. apply forallb_forall. intros line Hl.
  apply in_map_iff in Hl as (j & <- & Hj). apply In_indices in Hj.
  rewrite Hlen. cbn [andb]. apply forallb_forall. intros p Hk.
  apply in_map_iff in Hk as (k & <- & Hk). apply In_indices in Hk.
  apply Hc; assumption.
Qed.

(** What one iteration of the pixel loop computes on a well-formed cube:
    no assertion fires, both reads are inside the cube, and each output
    channel is the clamped blend of the two entries read. *)
Lemma ApplyLUT_pixel_Ok (rgbLUT : LUT) (p : RGBA32) :
  wf_lut rgbLUT = true -> wf_pixel p = true ->
  let a0 := axis_of true (c0 p) in
  let a1 := axis_of true (c1 p) in
  let a2 := axis_of true (c2 p) in
  exists lutC0 lutC1,
    lut_read rgbLUT (i0 a2) (i0 a1) (i0 a0) = Ok lutC0 /\
    lut_read rgbLUT (i1 a2) (i1 a1) (i1 a0) = Ok lutC1 /\
    wf_pixel lutC0 = true /\ wf_pixel lutC1 = true /\
    ApplyLUT_pixel true rgbLUT p =
      Ok {| c0 := clamp255 (blend (s a0) (c0 lutC0) (c0 lutC1));
            c1 := clamp255 (blend (s a1) (c1 lutC0) (c1 lutC1));
            c2 := clamp255 (blend (s a2) (c2 lutC0) (c2 lutC1));
            c3 := 255 |}.
Proof.
  intros Hlut Hp a0 a1 a2. apply wf_pixel_spec in Hp.
  destruct Hp as (H0 & H1 & H2 & _).
  pose proof (axis_of_index_ok _ H0) as K0.
  pose proof (axis_of_index_ok _ H1) as K1.
  pose proof (axis_of_index_ok _ H2) as K2.
  fold a0 in K0. fold a1 in K1. fold a2 in K2.
  pose proof K0 as [L0 L0']%index_ok_spec.
  pose proof K1 as [L1 L1']%index_ok_spec.
  pose proof K2 as [L2 L2']%index_ok_spec.
  destruct (wf_lut_read rgbLUT _ _ _ Hlut L2 L1 L0) as (lutC0 & R0 & W0).
  destruct (wf_lut_read rgbLUT _ _ _ Hlut L2' L1' L0') as (lutC1 & R1 & W1).
  exists lutC0, lutC1. repeat split; try assumption.
  unfold ApplyLUT_pixel. fold a0 a1 a2.
  rewrite K0, K1, K2. cbn [assert bind].
  rewrite R0, R1. cbn [bind].
  rewrite !channel_ok_clamp255. cbn [assert bind].
  rewrite !u8_clamp255. reflexivity.
Qed.

Lemma wf_CreateIdentityLUT : wf_lut CreateIdentityLUT = true.
Proof. vm_compute. reflexivity. Qed.

Lemma wf_descending_lut : wf_lut Scenarios.descending_lut = true.
Proof. vm_compute. reflexivity. Qed.

Lemma blend_shift (w v0 v1 : Z) : blend w v0 v1 = ((8 - w) * v0 + w * v1) / 8.
Proof. unfold blend. rewrite Z.shiftr_div_pow2 by lia. reflexivity. Qed.

(** With the weight of channel value 0, the blend is the first sample plus
    half the step from the second sample to the first, rounded down. *)
Lemma blend_at_zero (v0 v1 : Z) : blend (0 - 4) v0 v1 = v0 + (v0 - v1) / 2.
Proof. rewrite blend_shift. Z.div_mod_to_equations. lia. Qed.

Lemma chan_Ok_pixel (q0 q1 q2 q3 : Z) (j : nat) :
  (j < 3)%nat ->
  chan {| c0 := q0; c1 := q1; c2 := q2; c3 := q3 |} j =
  match j with O => q0 | 1%nat => q1 | _ => q2 end.
Proof. intros Hj. destruct j as [|[|[|j]]]; try reflexivity. lia. Qed.

Lemma chan_wf (p : RGBA32) (j : nat) : wf_pixel p = true -> 0 <= chan p j < 256.
Proof.
  intros H. apply wf_pixel_spec in H. destruct H as (H0 & H1 & H2 & H3).
  destruct j as [|[|[|j]]]; assumption.
Qed.

(** On the identity cube the blend along one axis gives back the byte. *)
Lemma identity_channel (v : Z) :
  0 <= v < 256 ->
  clamp255 (blend (s (axis_of true v))
                  (c0 (identity_cell 0 0 (i0 (axis_of true v))))
                  (c0 (identity_cell 0 0 (i1 (axis_of true v))))) = v.
Proof.
  intros Hv. apply Z.eqb_eq. revert v Hv.
  apply (byte_cases (fun v =>
    clamp255 (blend (s (axis_of true v))
                    (c0 (identity_cell 0 0 (i0 (axis_of true v))))
                    (c0 (identity_cell 0 0 (i1 (axis_of true v))))) =? v)).
  vm_compute. reflexivity.
Qed.

(** Sampling the identity cube gives back the three colour bytes exactly. *)
Lemma ApplyLUT_pixel_identity (p : RGBA32) :
  wf_pixel p = true ->
  ApplyLUT_pixel true CreateIdentityLUT p =
  Ok {| c0 := c0 p; c1 := c1 p; c2 := c2 p; c3 := 255 |}.
Proof.
  intros Hp.
  destruct (ApplyLUT_pixel_Ok _ _ wf_CreateIdentityLUT Hp)
    as (lutC0 & lutC1 & R0 & R1 & _ & _ & E).
  apply wf_pixel_spec in Hp. destruct Hp as (H0 & H1 & H2 & _).
  pose proof (axis_of_index_ok _ H0) as [L0 L0']%index_ok_spec.
  pose proof (axis_of_index_ok _ H1) as [L1 L1']%index_ok_spec.
  pose proof (axis_of_index_ok _ H2) as [L2 L2']%index_ok_spec.
  unfold CreateIdentityLUT in R0, R1.
  rewrite lut_read_fill in R0 by assumption.
  rewrite lut_read_fill in R1 by assumption.
  injection R0 as <-. injection R1 as <-.
  rewrite E. f_equal. f_equal.
  - exact (identity_channel _ H0).
  - exact (identity_channel _ H1).
  - exact (identity_channel _ H2).
Qed.

(** C2. Building the cube with [CreateIdentityLUT] and running [ApplyLUT]
    over any image of 8-bit pixels returns an image each of whose three
    colour channels is within one level of the input's. *)
Theorem identity_LUT_round_trip (dataIn : list RGBA32) :
  forallb wf_pixel dataIn = true ->
  exists dataOut,
    ApplyLUT CreateIdentityLUT (length dataIn) dataIn = Ok dataOut /\
    Forall2 (fun p q => forall j, (j < 3)%nat -> Z.abs (chan q j - chan p j) <= 1)
            dataIn dataOut.
Proof.
  intros Hwf. rewrite forallb_forall in Hwf.
  exists (map (fun p => {| c0 := c0 p; c1 := c1 p; c2 := c2 p; c3 := 255 |}) dataIn).
  split.
  - unfold ApplyLUT. rewrite firstn_all. apply mapM_map.
    intros p Hp. apply ApplyLUT_pixel_identity. apply Hwf. exact Hp.
  - clear Hwf. induction dataIn as [|p l IH]; simpl; constructor; [|exact IH].
    intros j Hj. rewrite chan_Ok_pixel by exact Hj.
    destruct j as [|[|[|j]]]; cbn [chan]; lia.
Qed.

Lemma identity_LUT_round_trip_witness :
  forallb wf_pixel [Scenarios.mid_grey; mkRGBA32 0 255 3 0] = true /\
  exists dataOut,
    ApplyLUT CreateIdentityLUT 2 [Scenarios.mid_grey; mkRGBA32 0 255 3 0] = Ok dataOut /\
    Forall2 (fun p q => forall j, (j < 3)%nat -> Z.abs (chan q j - chan p j) <= 1)
            [Scenarios.mid_grey; mkRGBA32 0 255 3 0] dataOut.
Proof.
  split; [reflexivity|].
  apply (identity_LUT_round_trip [Scenarios.mid_grey; mkRGBA32 0 255 3 0]).
  reflexivity.
Defined.

Lemma ApplyLUT_Ok (rgbLUT : LUT) (n : nat) (dataIn : list RGBA32) :
  wf_lut rgbLUT = true -> forallb wf_pixel dataIn = true ->
  exists dataOut,
    ApplyLUT rgbLUT n dataIn = Ok dataOut /\
    Forall (fun q => wf_pixel q = true /\ c3 q = 255) dataOut.
Proof.
  intros Hlut Hwf. unfold ApplyLUT.
  assert (Hn : forall p, In p (firstn n dataIn) -> wf_pixel p = true).
  { rewrite forallb_forall in Hwf. intros p Hp. apply Hwf.
    exact (In_firstn _ _ _ Hp). }
  clear Hwf. induction (firstn n dataIn) as [|p l IH].
  - exists []. split; [reflexivity | constructor].
  - destruct IH as (out & Eout & Fout); [intros; apply Hn; right; assumption|].
    destruct (ApplyLUT_pixel_Ok _ _ Hlut (Hn p (or_introl eq_refl)))
      as (lutC0 & lutC1 & _ & _ & _ & _ & E).
    cbn [mapM]. change EXTRAPOLATE_LUT with true. rewrite E. cbn [bind].
    change (mapM (ApplyLUT_pixel true rgbLUT) l)
      with (mapM (ApplyLUT_pixel EXTRAPOLATE_LUT rgbLUT) l).
    rewrite Eout. cbn [bind]. eexists. split; [reflexivity|].
    constructor; [|exact Fout]. split; [|reflexivity].
    apply wf_pixel_spec. cbn [c0 c1 c2 c3].
    pose proof (clamp255_range (blend (s (axis_of true (c0 p))) (c0 lutC0) (c0 lutC1))).
    pose proof (clamp255_range (blend (s (axis_of true (c1 p))) (c1 lutC0) (c1 lutC1))).
    pose proof (clamp255_range (blend (s (axis_of true (c2 p))) (c2 lutC0) (c2 lutC1))).
    lia.
Qed.

(** C3. For every 8-bit input pixel and each of the three channels, the
    grid indices [ApplyLUT] computes after the boundary adjustment lie in
    [0, 32); the blended channel values lie in [0, 255] after the clamp; and
    so, on a 32 x 32 x 32 cube of bytes, no assertion fires and no read
    leaves the cube: [ApplyLUT] returns an image. *)
Theorem ApplyLUT_assertions_never_fire (rgbLUT : LUT) (n : nat) (dataIn : list RGBA32) :
  wf_lut rgbLUT = true -> forallb wf_pixel dataIn = true ->
  (forall p, In p dataIn -> forall j, (j < 3)%nat ->
     let a := axis_of EXTRAPOLATE_LUT (chan p j) in
     (0 <= i0 a < kLUTSize) /\ (0 <= i1 a < kLUTSize)) /\
  (forall w v0 v1, 0 <= clamp255 (blend w v0 v1) <= 255) /\
  exists dataOut,
    ApplyLUT rgbLUT n dataIn = Ok dataOut /\
    Forall (fun q => wf_pixel q = true) dataOut.
Proof.
  intros Hlut Hwf. split; [|split].
  - rewrite forallb_forall in Hwf. intros p Hp j Hj a.
    apply index_ok_spec. apply axis_of_index_ok.
    apply chan_wf. apply Hwf. exact Hp.
  - intros w v0 v1. apply clamp255_range.
  - destruct (ApplyLUT_Ok rgbLUT n dataIn Hlut Hwf) as (out & E & F).
    exists out. split; [exact E|].
    eapply Forall_impl; [|exact F]. intros q [Hq _]. exact Hq.
Qed.

Lemma ApplyLUT_assertions_never_fire_witness :
  wf_lut Scenarios.descending_lut = true /\
  forallb wf_pixel [mkRGBA32 0 255 128 9] = true /\
  exists dataOut,
    ApplyLUT Scenarios.descending_lut 1 [mkRGBA32 0 255 128 9] = Ok dataOut /\
    Forall (fun q => wf_pixel q = true) dataOut.
Proof.
  split; [exact wf_descending_lut|]. split; [reflexivity|].
  apply (ApplyLUT_assertions_never_fire Scenarios.descending_lut 1
           [mkRGBA32 0 255 128 9] wf_descending_lut eq_refl).
Defined.

(** ** The nearest-neighbour path *)

Lemma ApplyLUTNoLerp_pixel_Ok (rgbLUT : LUT) (p : RGBA32) :
  wf_lut rgbLUT = true -> wf_pixel p = true ->
  exists e,
    lut_read rgbLUT (c2 p / 8) (c1 p / 8) (c0 p / 8) = Ok e /\
    ApplyLUTNoLerp_pixel rgbLUT p = Ok e.
Proof.
  intros Hlut Hp. apply wf_pixel_spec in Hp. destruct Hp as (H0 & H1 & H2 & _).
  assert (B : forall v, 0 <= v < 256 -> 0 <= v / 8 < kLUTSize).
  { intros v Hv. rewrite kLUTSize_32. Z.div_mod_to_equations. lia. }
  destruct (wf_lut_read rgbLUT _ _ _ Hlut (B _ H2) (B _ H1) (B _ H0)) as (e & R & _).
  exists e. split; [exact R|].
  unfold ApplyLUTNoLerp_pixel. change (8 - kLUTBits) with 3.
  rewrite !Z.shiftr_div_pow2 by lia. exact R.
Qed.

(** An entry [lut_read] returns is the element of the nested arrays at
    the three indices. *)
Lemma lut_read_nth (rgbLUT : LUT) (i j k : Z) (e : RGBA32) :
  lut_read rgbLUT i j k = Ok e ->
  exists plane line,
    nth_error rgbLUT (Z.to_nat i) = Some plane /\
    nth_error plane (Z.to_nat j) = Some line /\
    nth_error line (Z.to_nat k) = Some e.
Proof.
  unfold lut_read. intros H.
  destruct (nth_error rgbLUT (Z.to_nat i)) as [plane|] eqn:Np; [|discriminate].
  destruct (nth_error plane (Z.to_nat j)) as [line|] eqn:Nl; [|discriminate].
  destruct (nth_error line (Z.to_nat k)) as [e'|] eqn:Ne; [|discriminate].
  injection H as ->. exists plane, line. repeat split; assumption.
Qed.

(** C10. For every image of 8-bit pixels, [ApplyLUTNoLerp] returns one
    pixel per input pixel, and that pixel is the element
    [rgbLUT[c[2]>>3][c[1]>>3][c[0]>>3]] of the cube as it is stored, all four
    bytes of it, so its alpha is the entry's; [ApplyLUT] returns one pixel
    per input pixel too, each with alpha 255, whatever the entries hold. *)
Theorem ApplyLUTNoLerp_verbatim (rgbLUT : LUT) (dataIn : list RGBA32) :
  wf_lut rgbLUT = true -> forallb wf_pixel dataIn = true ->
  exists outNoLerp outLerp,
    ApplyLUTNoLerp rgbLUT (length dataIn) dataIn = Ok outNoLerp /\
    ApplyLUT rgbLUT (length dataIn) dataIn = Ok outLerp /\
    Forall2 (fun p q =>
               exists plane line,
                 nth_error rgbLUT (Z.to_nat (Z.shiftr (c2 p) 3)) = Some plane /\
                 nth_error plane (Z.to_nat (Z.shiftr (c1 p) 3)) = Some line /\
                 nth_error line (Z.to_nat (Z.shiftr (c0 p) 3)) = Some q)
            dataIn outNoLerp /\
    Forall2 (fun p q => c3 q = 255) dataIn outLerp.
Proof.
  intros Hlut Hwf. rewrite forallb_forall in Hwf.
  unfold ApplyLUTNoLerp, ApplyLUT. rewrite firstn_all.
  destruct (mapM_Forall2 (ApplyLUTNoLerp_pixel rgbLUT)
              (fun p q =>
                 exists plane line,
                   nth_error rgbLUT (Z.to_nat (Z.shiftr (c2 p) 3)) = Some plane /\
                   nth_error plane (Z.to_nat (Z.shiftr (c1 p) 3)) = Some line /\
                   nth_error line (Z.to_nat (Z.shiftr (c0 p) 3)) = Some q)
              dataIn) as (outN & EN & FN).
  { intros p Hp.
    destruct (ApplyLUTNoLerp_pixel_Ok _ _ Hlut (Hwf p Hp)) as (e & R & E).
    exists e. split; [exact E|].
    rewrite !Z.shiftr_div_pow2 by lia. exact (lut_read_nth _ _ _ _ _ R). }
  destruct (mapM_Forall2 (ApplyLUT_pixel EXTRAPOLATE_LUT rgbLUT)
              (fun p q => c3 q = 255) dataIn) as (outL & EL & FL).
  { intros p Hp.
    destruct (ApplyLUT_pixel_Ok _ _ Hlut (Hwf p Hp)) as (lutC0 & lutC1 & _ & _ & _ & _ & E).
    eexists. split; [exact E | reflexivity]. }
  exists outN, outL. repeat split; assumption.
Qed.

Lemma wf_translucent_lut : wf_lut Scenarios.translucent_lut = true.
Proof. vm_compute. reflexivity. Qed.

Lemma ApplyLUTNoLerp_verbatim_witness :
  wf_lut Scenarios.translucent_lut = true /\
  forallb wf_pixel [Scenarios.mid_grey] = true /\
  exists outNoLerp outLerp,
    ApplyLUTNoLerp Scenarios.translucent_lut 1 [Scenarios.mid_grey] = Ok outNoLerp /\
    ApplyLUT Scenarios.translucent_lut 1 [Scenarios.mid_grey] = Ok outLerp /\
    Forall2 (fun p q =>
               exists plane line,
                 nth_error Scenarios.translucent_lut (Z.to_nat (Z.shiftr (c2 p) 3))
                   = Some plane /\
                 nth_error plane (Z.to_nat (Z.shiftr (c1 p) 3)) = Some line /\
                 nth_error line (Z.to_nat (Z.shiftr (c0 p) 3)) = Some q)
            [Scenarios.mid_grey] outNoLerp /\
    Forall2 (fun p q => c3 q = 255) [Scenarios.mid_grey] outLerp.
Proof.
  split; [exact wf_translucent_lut|]. split; [reflexivity|].
  exact (ApplyLUTNoLerp_verbatim Scenarios.translucent_lut [Scenarios.mid_grey]
           wf_translucent_lut eq_refl).
Defined.

(** On a cube whose entries have alpha 7 the two paths differ in alpha. *)
Example alpha_of_the_two_paths :
  ApplyLUTNoLerp Scenarios.translucent_lut 1 [Scenarios.mid_grey]
    = Ok [mkRGBA32 16 16 16 7] /\
  ApplyLUT Scenarios.translucent_lut 1 [Scenarios.mid_grey]
    = Ok [mkRGBA32 15 15 15 255].
Proof. split; vm_compute; reflexivity. Qed.

(** ** The boundary policy *)

(** The claim of C4 as it is written fails: on a cube that falls by one
    level per grid step, channel value 0 samples to the first grid sample
    (31), the same as clamp mode gives, although the two entries blended
    (31 and 30) and the two first entries along the red axis (31 and 30)
    differ. *)
Lemma extrapolation_can_equal_clamping :
  ApplyLUT_pixel true Scenarios.descending_lut (mkRGBA32 0 128 128 255)
    = Ok (mkRGBA32 31 15 15 255) /\
  ApplyLUT_pixel false Scenarios.descending_lut (mkRGBA32 0 128 128 255)
    = Ok (mkRGBA32 31 15 15 255) /\
  lut_read Scenarios.descending_lut 15 15 0 = Ok (mkRGBA32 31 16 16 255) /\
  lut_read Scenarios.descending_lut 16 16 1 = Ok (mkRGBA32 30 15 15 255) /\
  lut_read Scenarios.descending_lut 15 15 1 = Ok (mkRGBA32 30 16 16 255).
Proof. repeat split; vm_compute; reflexivity. Qed.

(** C4, amended. In extrapolation mode, a channel value below the first
    grid centre pins [i0] to 0, pushes [i1] one step out and biases the
    weight by -8 (one grid step in eighths); the high boundary mirrors it;
    the output channel is the blend clamped to [0, 255].  At channel value
    0 the output is the first entry's channel plus half the step from the
    second entry to the first, rounded down and clamped; it differs from
    the first entry's channel exactly when the second entry is larger and
    the first is above 0, or the first exceeds the second by at least 2 and
    is below 255. *)
Theorem boundary_extrapolation (rgbLUT : LUT) (p : RGBA32) (j : nat) :
  wf_lut rgbLUT = true -> wf_pixel p = true -> (j < 3)%nat ->
  let a := axis_of EXTRAPOLATE_LUT (chan p j) in
  let a0 := axis_of EXTRAPOLATE_LUT (c0 p) in
  let a1 := axis_of EXTRAPOLATE_LUT (c1 p) in
  let a2 := axis_of EXTRAPOLATE_LUT (c2 p) in
  (chan p j < 4 ->
     i0 a = 0 /\ i1 a = i1 (axis_init (chan p j)) + 1 /\
     s a = s (axis_init (chan p j)) - 8) /\
  (252 <= chan p j ->
     i1 a = 31 /\ i0 a = i0 (axis_init (chan p j)) - 1 /\
     s a = s (axis_init (chan p j)) + 8) /\
  exists lutC0 lutC1 q,
    lut_read rgbLUT (i0 a2) (i0 a1) (i0 a0) = Ok lutC0 /\
    lut_read rgbLUT (i1 a2) (i1 a1) (i1 a0) = Ok lutC1 /\
    ApplyLUT_pixel EXTRAPOLATE_LUT rgbLUT p = Ok q /\
    chan q j = clamp255 (blend (s a) (chan lutC0 j) (chan lutC1 j)) /\
    0 <= chan q j <= 255 /\
    (chan p j = 0 ->
       chan q j = clamp255 (chan lutC0 j + (chan lutC0 j - chan lutC1 j) / 2) /\
       (chan q j <> chan lutC0 j <->
          (chan lutC0 j < chan lutC1 j /\ 0 < chan lutC0 j) \/
          (chan lutC1 j + 2 <= chan lutC0 j /\ chan lutC0 j < 255))).
Proof.
  intros Hlut Hp Hj a a0 a1 a2. change EXTRAPOLATE_LUT with true in *.
  pose proof (chan_wf p j Hp) as Hv.
  split; [|split].
  - intros Hlo. subst a. rewrite axis_of_low by lia. rewrite axis_init_div.
    cbn [i0 i1 s].
    rewrite (Z.div_small (chan p j + 4) 8) by lia.
    rewrite (Z.mod_small (chan p j + 4) 8) by lia. lia.
  - intros Hhi. subst a. rewrite axis_of_high by lia. rewrite axis_init_div.
    cbn [i0 i1 s]. Z.div_mod_to_equations. lia.
  - destruct (ApplyLUT_pixel_Ok _ _ Hlut Hp) as (lutC0 & lutC1 & R0 & R1 & W0 & W1 & E).
    fold a0 a1 a2 in R0, R1, E.
    eexists lutC0, lutC1, _. split; [exact R0|]. split; [exact R1|].
    split; [exact E|].
    pose proof (chan_wf lutC0 j W0) as B0. pose proof (chan_wf lutC1 j W1) as B1.
    assert (Hq : chan {| c0 := clamp255 (blend (s a0) (c0 lutC0) (c0 lutC1));
                         c1 := clamp255 (blend (s a1) (c1 lutC0) (c1 lutC1));
                         c2 := clamp255 (blend (s a2) (c2 lutC0) (c2 lutC1));
                         c3 := 255 |} j
                 = clamp255 (blend (s a) (chan lutC0 j) (chan lutC1 j))).
    { subst a a0 a1 a2. destruct j as [|[|[|j]]]; try reflexivity. lia. }
    rewrite Hq. split; [reflexivity|]. split; [apply clamp255_range|].
    intros Hz. subst a. rewrite Hz. rewrite axis_of_low by lia. cbn [s].
    rewrite blend_at_zero.
    split; [reflexivity|].
    unfold clamp255.
    destruct (Z.ltb_spec (chan lutC0 j + (chan lutC0 j - chan lutC1 j) / 2) 0);
      [Z.div_mod_to_equations; lia|].
    destruct (Z.gtb_spec (chan lutC0 j + (chan lutC0 j - chan lutC1 j) / 2) 255);
      Z.div_mod_to_equations; lia.
Qed.

Lemma boundary_extrapolation_witness :
  wf_lut Scenarios.descending_lut = true /\
  wf_pixel (mkRGBA32 0 128 128 255) = true /\
  exists lutC0 lutC1 q,
    lut_read Scenarios.descending_lut 15 15 0 = Ok lutC0 /\
    lut_read Scenarios.descending_lut 16 16 1 = Ok lutC1 /\
    ApplyLUT_pixel EXTRAPOLATE_LUT Scenarios.descending_lut (mkRGBA32 0 128 128 255)
      = Ok q /\
    (c0 q <> c0 lutC0 <->
       (c0 lutC0 < c0 lutC1 /\ 0 < c0 lutC0) \/
       (c0 lutC1 + 2 <= c0 lutC0 /\ c0 lutC0 < 255)).
Proof.
  split; [exact wf_descending_lut|]. split; [reflexivity|].
  destruct (boundary_extrapolation Scenarios.descending_lut (mkRGBA32 0 128 128 255) 0
              wf_descending_lut eq_refl (Nat.lt_0_succ 2))
    as (_ & _ & lutC0 & lutC1 & q & R0 & R1 & E & _ & _ & Hz).
  exists lutC0, lutC1, q. split; [exact R0|]. split; [exact R1|].
  split; [exact E|]. exact (proj2 (Hz eq_refl)).
Defined.

(** ** Powers and the conversion of a float to a byte *)

Import Tolerance.
Local Open Scope R_scope.

Lemma powf_pos (b e : R) : 0 < b -> powf b e = Ok (Rpower b e).
Proof.
  intros Hb. unfold powf.
  destruct (Rlt_dec b 0) as [H|_]; [lra|].
  destruct (Rle_dec b 0) as [H|_]; [lra|]. reflexivity.
Qed.

Lemma powf_zero (e : R) : powf 0 e = Ok 0.
Proof.
  unfold powf.
  destruct (Rlt_dec 0 0) as [H|_]; [lra|].
  destruct (Rle_dec 0 0) as [_|H]; [reflexivity | lra].
Qed.

Lemma powf_neg (b e : R) : b < 0 -> powf b e = Fault NaN.
Proof.
  intros Hb. unfold powf. destruct (Rlt_dec b 0) as [_|H]; [reflexivity | lra].
Qed.

Lemma Rpower_pos (b e : R) : 0 < Rpower b e.
Proof. unfold Rpower. apply exp_pos. Qed.

(** For an exponent in (0, 1] the power lies between the base and 1. *)
Lemma Rpower_ge_1 (b e : R) : 1 <= b -> 0 < e <= 1 -> 1 <= Rpower b e <= b.
Proof.
  intros Hb [He0 He1]. split.
  - rewrite <- (Rpower_O b) by lra. apply Rle_Rpower; lra.
  - rewrite <- (Rpower_1 b) at 2 by lra. apply Rle_Rpower; lra.
Qed.

Lemma Rpower_le_1 (b e : R) : 0 < b <= 1 -> 0 < e <= 1 -> b <= Rpower b e <= 1.
Proof.
  intros [Hb0 Hb1] [He0 He1].
  assert (Hln : ln b <= 0).
  { destruct (Rle_lt_or_eq_dec b 1 Hb1) as [Hlt| ->].
    - left. rewrite <- ln_1. apply ln_increasing; lra.
    - rewrite ln_1. lra. }
  unfold Rpower. split.
  - rewrite <- (exp_ln b) at 1 by lra.
    destruct (Rle_lt_or_eq_dec (ln b) (e * ln b)) as [Hlt|Heq]; [nra| |].
    + left. apply exp_increasing. exact Hlt.
    + rewrite <- Heq. lra.
  - rewrite <- exp_0.
    destruct (Rle_lt_or_eq_dec (e * ln b) 0) as [Hlt|Heq]; [nra| |].
    + left. apply exp_increasing. exact Hlt.
    + rewrite Heq. lra.
Qed.

Lemma gamma_round_trip (b : R) : 0 < b -> Rpower (Rpower b kGamma) (1 / kGamma) = b.
Proof.
  intros Hb. rewrite Rpower_mult.
  replace (kGamma * (1 / kGamma)) with 1 by (unfold kGamma; lra).
  apply Rpower_1. exact Hb.
Qed.

Lemma Ztrunc_floor (f : R) : 0 <= f -> Ztrunc f = Zfloor f.
Proof. intros Hf. unfold Ztrunc. destruct (Rle_dec 0 f); [reflexivity | lra]. Qed.

Lemma float_to_u8_eq (f : R) (n : Z) :
  (0 <= n < 256)%Z -> IZR n <= f < IZR n + 1 -> float_to_u8 f = n.
Proof.
  intros Hn Hf. unfold float_to_u8.
  assert (0 <= IZR n) by (apply IZR_le; lia).
  rewrite Ztrunc_floor by lra. rewrite (Zfloor_eq n f Hf).
  unfold u8. apply Z.mod_small. exact Hn.
Qed.

Lemma float_to_u8_range (f : R) : (0 <= float_to_u8 f < 256)%Z.
Proof. unfold float_to_u8, u8. apply Z.mod_pos_bound. lia. Qed.

Lemma ToU8_range (f : R) : (0 <= ToU8 f < 256)%Z.
Proof.
  unfold ToU8. destruct (Rle_dec f 0); [lia|].
  destruct (Rge_dec f 1); [lia|]. apply float_to_u8_range.
Qed.

Lemma ToU8u_range (f : R) : (0 <= ToU8u f < 256)%Z.
Proof.
  unfold ToU8u. destruct (Rle_dec f 0); [lia|].
  destruct (Rge_dec f 1); [lia|]. apply float_to_u8_range.
Qed.

Lemma ToU8_low (f : R) : f <= 0 -> ToU8 f = 0%Z.
Proof. intros H. unfold ToU8. destruct (Rle_dec f 0); [reflexivity | lra]. Qed.

Lemma ToU8_high (f : R) : 1 <= f -> ToU8 f = 255%Z.
Proof.
  intros H. unfold ToU8. destruct (Rle_dec f 0); [lra|].
  destruct (Rge_dec f 1); [reflexivity | lra].
Qed.

Lemma ToU8u_low (f : R) : f <= 0 -> ToU8u f = 0%Z.
Proof. intros H. unfold ToU8u. destruct (Rle_dec f 0); [reflexivity | lra]. Qed.

Lemma ToU8u_high (f : R) : 1 <= f -> ToU8u f = 255%Z.
Proof.
  intros H. unfold ToU8u. destruct (Rle_dec f 0); [lra|].
  destruct (Rge_dec f 1); [reflexivity | lra].
Qed.

Lemma ToU8_mid (f : R) (n : Z) :
  0 < f < 1 -> (0 <= n < 256)%Z -> IZR n <= f * 255 + 0.5 < IZR n + 1 -> ToU8 f = n.
Proof.
  intros Hf Hn Hb. unfold ToU8. destruct (Rle_dec f 0); [lra|].
  destruct (Rge_dec f 1); [lra|]. apply float_to_u8_eq; assumption.
Qed.

Lemma ToU8u_mid (f : R) (n : Z) :
  0 < f < 1 -> (0 <= n < 256)%Z -> IZR n <= f * 256 < IZR n + 1 -> ToU8u f = n.
Proof.
  intros Hf Hn Hb. unfold ToU8u. destruct (Rle_dec f 0); [lra|].
  destruct (Rge_dec f 1); [lra|]. apply float_to_u8_eq; assumption.
Qed.

(** ** The deficiency engine *)

Lemma Vec3f_eq (a b : Vec3f) : x a = x b -> y a = y b -> z a = z b -> a = b.
Proof. destruct a, b. cbn. intros -> -> ->. reflexivity. Qed.




(** ** Linearity of the engine, and mid-grey *)

Lemma mulmv_vscale (m : Mat3f) (g : R) (c : Vec3f) : m *m (g *v c) = g *v (m *m c).
Proof. apply Vec3f_eq; unfold mulmv, dot, vscale; cbn [x y z]; ring. Qed.

Lemma elt_vscale (g : R) (v : Vec3f) (d : tLMS) : elt (g *v v) d = g * elt v d.
Proof. destruct d; reflexivity. Qed.

Lemma dot_vscale (r : Vec3f) (g : R) (v : Vec3f) : dot r (g *v v) = g * dot r v.
Proof. unfold dot, vscale; cbn [x y z]; ring. Qed.

Lemma set_elt_vscale (g : R) (v : Vec3f) (d : tLMS) (t : R) :
  set_elt (g *v v) d (g * t) = g *v set_elt v d t.
Proof. destruct d; reflexivity. Qed.

(** [Simulate] commutes with scaling the colour. *)
Lemma Simulate_vscale (g : R) (c : Vec3f) (d : tLMS) (strength : R) :
  Simulate (g *v c) d strength = g *v Simulate c d strength.
Proof.
  unfold Simulate. cbv zeta. rewrite mulmv_vscale, elt_vscale, dot_vscale.
  set (lms := kLMSFromRGB *m c).
  replace (g * elt lms d + strength * (g * dot (row kLMSSimulate d) lms - g * elt lms d))
    with (g * (elt lms d + strength * (dot (row kLMSSimulate d) lms - elt lms d)))
    by ring.
  rewrite set_elt_vscale, mulmv_vscale. reflexivity.
Qed.

Lemma FromRGBA32_mid_grey :
  FromRGBA32 Scenarios.mid_grey = Ok (Scenarios.grey_level *v mkVec3f 1 1 1).
Proof.
  unfold FromRGBA32, pow, Scenarios.mid_grey. cbn [c0 c1 c2 x y z].
  rewrite powf_pos by lra. cbn [bind]. unfold vscale, Scenarios.grey_level. cbn [x y z].
  rewrite !Rmult_1_r. reflexivity.
Qed.

(** A channel within 0.1% of the linear mid-grey level packs to 128. *)
Lemma ToU8_near_grey (k : R) :
  0.999 <= k <= 1.001 ->
  exists t, powf (Scenarios.grey_level * k) (1 / kGamma) = Ok t /\ ToU8 t = 128%Z.
Proof.
  intros Hk.
  assert (Hg : 0 < Scenarios.grey_level) by apply Rpower_pos.
  assert (He : 0 < 1 / kGamma <= 1) by (unfold kGamma; lra).
  exists (Rpower (Scenarios.grey_level * k) (1 / kGamma)). split.
  - apply powf_pos. nra.
  - rewrite <- Rpower_mult_distr by lra.
    unfold Scenarios.grey_level at 1. rewrite gamma_round_trip by lra.
    assert (Ht : 0.999 <= Rpower k (1 / kGamma) <= 1.001).
    { destruct (Rle_lt_dec 1 k) as [H1|H1].
      - pose proof (Rpower_ge_1 k _ H1 He). lra.
      - assert (Hk' : 0 < k <= 1) by lra. pose proof (Rpower_le_1 k _ Hk' He). lra. }
    apply ToU8_mid; [lra | lia | simpl; lra].
Qed.

Lemma ToRGBA32_near_grey (K : Vec3f) :
  0.999 <= x K <= 1.001 -> 0.999 <= y K <= 1.001 -> 0.999 <= z K <= 1.001 ->
  ToRGBA32 (Scenarios.grey_level *v K) = Ok Scenarios.mid_grey.
Proof.
  intros Hx Hy Hz. unfold ToRGBA32, pow, vscale. cbn [x y z].
  destruct (ToU8_near_grey _ Hx) as (tx & -> & Ex).
  destruct (ToU8_near_grey _ Hy) as (ty & -> & Ey).
  destruct (ToU8_near_grey _ Hz) as (tz & -> & Ez).
  cbn [bind x y z]. rewrite Ex, Ey, Ez. reflexivity.
Qed.

(** What [Simulate] does to white, channel by channel, stays within
    0.1% of 1 at every strength from 0 to 1. *)
Lemma Simulate_white (d : tLMS) (strength : R) :
  0 <= strength <= 1 ->
  let K := Simulate (mkVec3f 1 1 1) d strength in
  0.999 <= x K <= 1.001 /\ 0.999 <= y K <= 1.001 /\ 0.999 <= z K <= 1.001.
Proof.
  intros Hs. cbv zeta. destruct d; unfold_engine; repeat split; lra.
Qed.

Lemma Transform_Simulate_mid_grey (d : tLMS) (strength : R) :
  0 <= strength <= 1 ->
  Transform (fun c => Simulate c d strength) 1 [Scenarios.mid_grey]
  = Ok [Scenarios.mid_grey].
Proof.
  intros Hs. unfold Transform. cbn [firstn mapM]. unfold Transform_pixel.
  rewrite FromRGBA32_mid_grey. cbn [bind]. rewrite Simulate_vscale.
  destruct (Simulate_white d strength Hs) as (Hx & Hy & Hz).
  rewrite ToRGBA32_near_grey by assumption. reflexivity.
Qed.

(** The claim of C8 as it is written fails: at full strength the
    deuteranope simulation of mid-grey is mid-grey again, so its green
    channel is 128 and differs from 128 by 0 levels, not by more than 10. *)
Lemma Simulate_mid_grey_green_unchanged :
  Transform (fun c => Simulate c kM 1) 1 [mkRGBA32 128 128 128 255]
    = Ok [mkRGBA32 128 128 128 255] /\
  (Z.abs (128 - 128) <= 10)%Z.
Proof.
  split; [|lia]. apply (Transform_Simulate_mid_grey kM 1). lra.
Qed.

(** C8, amended. Mid-grey deuteranope scenario: for input RGB
    (128,128,128,255), deficiency [kM] and strength 1.0, the output of
    [Simulate] is (128,128,128,255) again, its green channel equal to 128;
    [Simulate] of the same input at strength 0 leaves all channels at 128
    as well. *)
Theorem mid_grey_deuteranope :
  Transform (fun c => Simulate c kM 1) 1 [Scenarios.mid_grey] = Ok [Scenarios.mid_grey] /\
  Transform (fun c => Simulate c kM 0) 1 [Scenarios.mid_grey] = Ok [Scenarios.mid_grey] /\
  Scenarios.mid_grey = mkRGBA32 128 128 128 255.
Proof.
  split; [|split].
  - apply Transform_Simulate_mid_grey. lra.
  - apply Transform_Simulate_mid_grey. lra.
  - reflexivity.
Qed.

(** ** Packing and unpacking *)

Lemma Rpower_1_l (e : R) : Rpower 1 e = 1.
Proof. unfold Rpower. rewrite ln_1, Rmult_0_r. apply exp_0. Qed.

Lemma pack_channel (f : R) :
  0 <= f ->
  exists t, powf f (1 / kGamma) = Ok t /\
            clamps_to_byte f (ToU8 t) /\ clamps_to_byte f (ToU8u t).
Proof.
  intros Hf. assert (He : 0 < 1 / kGamma <= 1) by (unfold kGamma; lra).
  destruct (Rle_lt_or_eq_dec 0 f Hf) as [Hpos| <-].
  - exists (Rpower f (1 / kGamma)). split; [apply powf_pos; exact Hpos|].
    pose proof (ToU8_range (Rpower f (1 / kGamma))).
    pose proof (ToU8u_range (Rpower f (1 / kGamma))).
    unfold clamps_to_byte. repeat split; try lra; try lia.
    + intros H1. apply ToU8_high. apply (Rpower_ge_1 f _ H1 He).
    + intros H1. apply ToU8u_high. apply (Rpower_ge_1 f _ H1 He).
  - exists 0. split; [apply powf_zero|].
    rewrite ToU8_low, ToU8u_low by lra.
    unfold clamps_to_byte. repeat split; try lra; try lia.
Qed.

Lemma unpack_channel (n : Z) (d : R) :
  (0 <= n)%Z -> 0 < d ->
  exists t, powf (IZR n / d) kGamma = Ok t /\ (d < IZR n -> 1 < t).
Proof.
  intros Hn Hd. apply IZR_le in Hn.
  assert (Hi : 0 < / d) by (apply Rinv_0_lt_compat; exact Hd).
  assert (Hq : 0 <= IZR n / d) by (unfold Rdiv; apply Rmult_le_pos; lra).
  destruct (Rle_lt_or_eq_dec 0 _ Hq) as [Hpos|Hz].
  - exists (Rpower (IZR n / d) kGamma). split; [apply powf_pos; exact Hpos|].
    intros Hlt. rewrite <- (Rpower_1_l kGamma).
    apply Rlt_Rpower_l; [unfold kGamma; lra|]. split; [lra|].
    apply (Rmult_lt_reg_r d); [exact Hd|]. unfold Rdiv.
    rewrite Rmult_assoc, Rinv_l by lra. lra.
  - rewrite <- Hz. exists 0. split; [apply powf_zero|]. intros Hlt.
    exfalso. assert (0 < IZR n / d) by (unfold Rdiv; apply Rmult_lt_0_compat; lra).
    lra.
Qed.

(** C9, amended. For a colour with no negative channel, [ToRGBA32] and
    [ToRGBA32u] both pack a channel that is 0 to 0, a channel that is at
    least 1 to 255, and every channel into [0, 255], with alpha 255;
    [FromRGBA32] and [FromRGBA32u] do not clamp: a packed value above 255
    (above 256 for the [u] variant), could one occur, would unpack to more
    than 1. *)
Theorem packing_clamps_unpacking_does_not (c : Vec3f) (rgb : RGBA32) :
  0 <= x c -> 0 <= y c -> 0 <= z c ->
  (0 <= c0 rgb)%Z -> (0 <= c1 rgb)%Z -> (0 <= c2 rgb)%Z ->
  (exists p pu,
     ToRGBA32 c = Ok p /\ ToRGBA32u c = Ok pu /\
     (clamps_to_byte (x c) (c0 p) /\ clamps_to_byte (y c) (c1 p) /\
      clamps_to_byte (z c) (c2 p) /\ c3 p = 255%Z) /\
     (clamps_to_byte (x c) (c0 pu) /\ clamps_to_byte (y c) (c1 pu) /\
      clamps_to_byte (z c) (c2 pu) /\ c3 pu = 255%Z)) /\
  (exists v vu,
     FromRGBA32 rgb = Ok v /\ FromRGBA32u rgb = Ok vu /\
     (((255 < c0 rgb)%Z -> 1 < x v) /\ ((255 < c1 rgb)%Z -> 1 < y v) /\
      ((255 < c2 rgb)%Z -> 1 < z v)) /\
     (((256 < c0 rgb)%Z -> 1 < x vu) /\ ((256 < c1 rgb)%Z -> 1 < y vu) /\
      ((256 < c2 rgb)%Z -> 1 < z vu))).
Proof.
  intros Hx Hy Hz H0 H1 H2. split.
  - destruct (pack_channel _ Hx) as (tx & Ex & Px & Pxu).
    destruct (pack_channel _ Hy) as (ty & Ey & Py & Pyu).
    destruct (pack_channel _ Hz) as (tz & Ez & Pz & Pzu).
    unfold ToRGBA32, ToRGBA32u, pow. rewrite Ex, Ey, Ez. cbn [bind x y z].
    eexists _, _. split; [reflexivity|]. split; [reflexivity|].
    cbn [c0 c1 c2 c3].
    exact (conj (conj Px (conj Py (conj Pz eq_refl)))
                (conj Pxu (conj Pyu (conj Pzu eq_refl)))).
  - assert (D255 : 0 < 255) by lra. assert (D256 : 0 < 256) by lra.
    destruct (unpack_channel _ 255 H0 D255) as (a0 & Ea0 & Ga0).
    destruct (unpack_channel _ 255 H1 D255) as (a1 & Ea1 & Ga1).
    destruct (unpack_channel _ 255 H2 D255) as (a2 & Ea2 & Ga2).
    destruct (unpack_channel _ 256 H0 D256) as (b0 & Eb0 & Gb0).
    destruct (unpack_channel _ 256 H1 D256) as (b1 & Eb1 & Gb1).
    destruct (unpack_channel _ 256 H2 D256) as (b2 & Eb2 & Gb2).
    unfold FromRGBA32, FromRGBA32u, pow. cbn [x y z].
    rewrite Ea0, Ea1, Ea2, Eb0, Eb1, Eb2. cbn [bind].
    eexists _, _. split; [reflexivity|]. split; [reflexivity|].
    cbn [x y z].
    repeat split; intros Hlt; apply IZR_lt in Hlt; auto.
Qed.

Lemma packing_clamps_unpacking_does_not_witness :
  0 <= 0 /\ 0 <= 0.5 /\ 0 <= 2 /\
  (exists p pu,
     ToRGBA32 (mkVec3f 0 0.5 2) = Ok p /\ ToRGBA32u (mkVec3f 0 0.5 2) = Ok pu /\
     (clamps_to_byte 0 (c0 p) /\ clamps_to_byte 0.5 (c1 p) /\
      clamps_to_byte 2 (c2 p) /\ c3 p = 255%Z) /\
     (clamps_to_byte 0 (c0 pu) /\ clamps_to_byte 0.5 (c1 pu) /\
      clamps_to_byte 2 (c2 pu) /\ c3 pu = 255%Z)).
Proof.
  split; [lra|]. split; [lra|]. split; [lra|].
  refine (proj1 (packing_clamps_unpacking_does_not (mkVec3f 0 0.5 2)
                   Scenarios.mid_grey _ _ _ _ _ _));
    cbn [x y z c0 c1 c2 Scenarios.mid_grey]; lra || lia.
Defined.

(** The claim of C9 as it is written fails: [ToRGBA32u] packs the
    out-of-range channel 2 to 255, outside [0, 254]; and a negative channel
    does not reach the clamp of [ToU8] or [ToU8u] as a number, because
    [powf] of a negative base with the exponent [1 / kGamma] comes first. *)
Lemma ToRGBA32u_reaches_255 :
  ToRGBA32u (mkVec3f 2 2 2) = Ok (mkRGBA32 255 255 255 255) /\
  ToRGBA32 (mkVec3f (-1) 0 0) = Fault NaN /\
  ToRGBA32u (mkVec3f (-1) 0 0) = Fault NaN.
Proof.
  assert (He : 0 < 1 / kGamma <= 1) by (unfold kGamma; lra).
  split; [|split].
  - unfold ToRGBA32u, pow. cbn [x y z]. rewrite powf_pos by lra. cbn [bind x y z].
    assert (H1 : (1 <= 2)%R) by lra.
    rewrite ToU8u_high by (apply (Rpower_ge_1 2 _ H1 He)). reflexivity.
  - unfold ToRGBA32, pow. cbn [x y z]. rewrite powf_neg by lra. reflexivity.
  - unfold ToRGBA32u, pow. cbn [x y z]. rewrite powf_neg by lra. reflexivity.
Qed.

(** ** The builder *)

Lemma pack_u_range (nan_u8 : R -> Z) (c : R) : (0 <= pack_u nan_u8 c < 256)%Z.
Proof.
  unfold pack_u. destruct (powf c (1 / kGamma)); [apply ToU8u_range|].
  unfold u8. apply Z.mod_pos_bound. lia.
Qed.

(** Without a NaN, the channel is the one [ToU8u] packs. *)
Lemma pack_u_Ok (nan_u8 : R -> Z) (c t : R) :
  powf c (1 / kGamma) = Ok t -> pack_u nan_u8 c = ToU8u t.
Proof. intros H. unfold pack_u. rewrite H. reflexivity. Qed.

Lemma ToRGBA32u_with_wf (nan_u8 : R -> Z) (c : Vec3f) :
  wf_pixel (ToRGBA32u_with nan_u8 c) = true.
Proof.
  apply wf_pixel_spec. cbn [ToRGBA32u_with c0 c1 c2 c3].
  pose proof (pack_u_range nan_u8 (x c)). pose proof (pack_u_range nan_u8 (y c)).
  pose proof (pack_u_range nan_u8 (z c)). lia.
Qed.

(** Where [ToRGBA32u] meets no NaN, the colour is the one it returns. *)
Lemma ToRGBA32u_with_Ok (nan_u8 : R -> Z) (c : Vec3f) (p : RGBA32) :
  ToRGBA32u c = Ok p -> ToRGBA32u_with nan_u8 c = p.
Proof.
  unfold ToRGBA32u, pow, ToRGBA32u_with.
  destruct (powf (x c) (1 / kGamma)) as [tx|] eqn:Ex; cbn [bind]; [|discriminate].
  destruct (powf (y c) (1 / kGamma)) as [ty|] eqn:Ey; cbn [bind]; [|discriminate].
  destruct (powf (z c) (1 / kGamma)) as [tz|] eqn:Ez; cbn [bind]; [|discriminate].
  intros H. injection H as <-. cbn [x y z].
  rewrite (pack_u_Ok _ _ _ Ex), (pack_u_Ok _ _ _ Ey), (pack_u_Ok _ _ _ Ez). reflexivity.
Qed.

Lemma centre_eq (i j k : Z) :
  (0 <= i < kLUTSize)%Z -> (0 <= j < kLUTSize)%Z -> (0 <= k < kLUTSize)%Z ->
  centre i j k = mkRGBA32 (k * 8 + 4) (j * 8 + 4) (i * 8 + 4) 255.
Proof.
  rewrite kLUTSize_32. intros Hi Hj Hk. unfold centre, u8.
  change (256 / kLUTSize)%Z with 8%Z. change (8 / 2)%Z with 4%Z.
  rewrite !Z.mod_small by lia. reflexivity.
Qed.

Lemma wf_centre (i j k : Z) : wf_pixel (centre i j k) = true.
Proof.
  apply wf_pixel_spec. unfold centre, u8. cbn [c0 c1 c2 c3].
  pose proof (Z.mod_pos_bound (k * (256 / kLUTSize) + 256 / kLUTSize / 2) 256).
  pose proof (Z.mod_pos_bound (j * (256 / kLUTSize) + 256 / kLUTSize / 2) 256).
  pose proof (Z.mod_pos_bound (i * (256 / kLUTSize) + 256 / kLUTSize / 2) 256).
  lia.
Qed.

(** Unpacking never meets a NaN on bytes. *)
Lemma FromRGBA32u_total (rgb : RGBA32) :
  wf_pixel rgb = true -> exists c, FromRGBA32u rgb = Ok c.
Proof.
  intros H. apply wf_pixel_spec in H. destruct H as (H0 & H1 & H2 & _).
  assert (D : 0 < 256) by lra.
  destruct (unpack_channel (c0 rgb) 256 (proj1 H0) D) as (a0 & E0 & _).
  destruct (unpack_channel (c1 rgb) 256 (proj1 H1) D) as (a1 & E1 & _).
  destruct (unpack_channel (c2 rgb) 256 (proj1 H2) D) as (a2 & E2 & _).
  unfold FromRGBA32u, pow. cbn [x y z]. rewrite E0, E1, E2. cbn [bind].
  eexists. reflexivity.
Qed.

(** The loop body stores an entry at every cell, for every transform. *)
Lemma CreateLUT_cell_total (nan_u8 : R -> Z) (xform : Vec3f -> Vec3f) (i j k : Z) :
  exists c,
    FromRGBA32u (centre i j k) = Ok c /\
    CreateLUT_cell nan_u8 xform i j k = Ok (ToRGBA32u_with nan_u8 (xform c)).
Proof.
  destruct (FromRGBA32u_total _ (wf_centre i j k)) as (c & Ec).
  exists c. split; [exact Ec|]. unfold CreateLUT_cell. rewrite Ec. reflexivity.
Qed.

(** [CreateLUT] returns for every transform: the cube of what the loop
    body stores. *)
Lemma CreateLUT_fill (nan_u8 : R -> Z) (xform : Vec3f -> Vec3f) :
  exists cell,
    CreateLUT nan_u8 xform = Ok (fill cell) /\
    (forall i j k, CreateLUT_cell nan_u8 xform i j k = Ok (cell i j k)) /\
    wf_lut (fill cell) = true.
Proof.
  set (cell := fun i j k =>
                 match CreateLUT_cell nan_u8 xform i j k with
                 | Ok e => e
                 | Fault _ => mkRGBA32 0 0 0 255
                 end).
  assert (Hc : forall i j k, CreateLUT_cell nan_u8 xform i j k = Ok (cell i j k)).
  { intros i j k. subst cell. cbv beta.
    destruct (CreateLUT_cell_total nan_u8 xform i j k) as (c & _ & ->). reflexivity. }
  exists cell. split; [|split].
  - unfold CreateLUT, fill.
    apply mapM_map. intros i _. apply mapM_map. intros j _. apply mapM_map. intros k _.
    apply Hc.
  - exact Hc.
  - apply wf_fill. intros i j k _ _ _.
    destruct (CreateLUT_cell_total nan_u8 xform i j k) as (c & _ & E).
    rewrite Hc in E. injection E as ->. apply ToRGBA32u_with_wf.
Qed.

(** At a grid centre the weight is 0 and [i0] is the cell, except in the
    last cell, where the boundary policy makes the weight 8 and [i1] the
    cell. *)
Lemma axis_of_centre (k : Z) :
  (0 <= k < 31)%Z ->
  axis_of true (k * 8 + 4) = {| i0 := k; i1 := k + 1; s := 0 |}.
Proof.
  intros Hk. destruct (Z.eq_dec k 0) as [->|Hne].
  - reflexivity.
  - rewrite axis_of_interior by lia. f_equal; Z.div_mod_to_equations; lia.
Qed.

Lemma axis_of_last_centre :
  axis_of true (31 * 8 + 4) = {| i0 := 30; i1 := 31; s := 8 |}.
Proof. reflexivity. Qed.

Lemma blend_0 (v0 v1 : Z) : blend 0 v0 v1 = v0.
Proof. rewrite blend_shift. Z.div_mod_to_equations. lia. Qed.

Lemma blend_8 (v0 v1 : Z) : blend 8 v0 v1 = v1.
Proof. rewrite blend_shift. Z.div_mod_to_equations. lia. Qed.

Lemma clamp255_id (v : Z) : (0 <= v < 256)%Z -> clamp255 v = v.
Proof.
  intros Hv. unfold clamp255.
  destruct (Z.ltb_spec v 0); [lia|]. destruct (Z.gtb_spec v 255); lia.
Qed.

(** C1, amended. For every transform [xform], whatever byte the conversion
    of a NaN leaves, [CreateLUT] returns a cube, and for every grid index
    (i, j, k) in [0, 32)^3 the cube holds at [i][j][k] the colour
    [ToRGBA32u (xform (FromRGBA32u centerPixel))], where [centerPixel] has
    channels (k*8+4, j*8+4, i*8+4) (for a negative channel of the
    transform's result, the byte that conversion leaves); and [ApplyLUT] at
    that pixel returns exactly the stored entry when i, j and k are all
    below 31 or all equal to 31. *)
Theorem LUT_exact_at_centres (nan_u8 : R -> Z) (xform : Vec3f -> Vec3f) :
  exists rgbLUT,
    CreateLUT nan_u8 xform = Ok rgbLUT /\
    forall i j k, (0 <= i < 32)%Z -> (0 <= j < 32)%Z -> (0 <= k < 32)%Z ->
      let centerPixel := mkRGBA32 (k * 8 + 4) (j * 8 + 4) (i * 8 + 4) 255 in
      exists c,
        FromRGBA32u centerPixel = Ok c /\
        let e := ToRGBA32u_with nan_u8 (xform c) in
        (forall p, ToRGBA32u (xform c) = Ok p -> e = p) /\
        (exists plane line,
           nth_error rgbLUT (Z.to_nat i) = Some plane /\
           nth_error plane (Z.to_nat j) = Some line /\
           nth_error line (Z.to_nat k) = Some e) /\
        ((((i < 31)%Z /\ (j < 31)%Z /\ (k < 31)%Z)
          \/ (i = 31%Z /\ j = 31%Z /\ k = 31%Z)) ->
         ApplyLUT rgbLUT 1 [centerPixel] = Ok [e]).
Proof.
  destruct (CreateLUT_fill nan_u8 xform) as (cell & EL & Hc & Hwf).
  exists (fill cell). split; [exact EL|].
  intros i j k Hi Hj Hk centerPixel.
  rewrite <- kLUTSize_32 in Hi, Hj, Hk.
  destruct (CreateLUT_cell_total nan_u8 xform i j k) as (c & Ec & E).
  rewrite Hc in E. injection E as E.
  rewrite (centre_eq i j k Hi Hj Hk) in Ec. fold centerPixel in Ec.
  exists c. split; [exact Ec|]. cbv zeta.
  pose proof (lut_read_fill cell i j k Hi Hj Hk) as Re. rewrite E in Re.
  split; [intros p Hp; apply ToRGBA32u_with_Ok; exact Hp|].
  split; [exact (lut_read_nth _ _ _ _ _ Re)|].
  intros Hcase. rewrite kLUTSize_32 in Hi, Hj, Hk.
  assert (Hpx : wf_pixel centerPixel = true).
  { apply wf_pixel_spec. subst centerPixel. cbn [c0 c1 c2 c3]. lia. }
  destruct (ApplyLUT_pixel_Ok _ _ Hwf Hpx) as (lutC0 & lutC1 & R0 & R1 & W0 & W1 & Ep).
  unfold ApplyLUT. cbn [firstn mapM]. change EXTRAPOLATE_LUT with true.
  rewrite Ep. cbn [bind]. f_equal. f_equal.
  pose proof (ToRGBA32u_with_wf nan_u8 (xform c)) as We. apply wf_pixel_spec in We.
  set (e := ToRGBA32u_with nan_u8 (xform c)) in *.
  assert (Ae : c3 e = 255%Z) by reflexivity.
  subst centerPixel. cbn [c0 c1 c2] in *.
  destruct Hcase as [(Li & Lj & Lk)|(-> & -> & ->)].
  - rewrite !axis_of_centre in * by lia. cbn [i0 i1 s] in *.
    rewrite Re in R0. injection R0 as <-.
    rewrite !blend_0, !clamp255_id by lia.
    destruct e; cbn in *; subst; reflexivity.
  - rewrite !axis_of_last_centre in *. cbn [i0 i1 s] in *.
    rewrite Re in R1. injection R1 as <-.
    rewrite !blend_8, !clamp255_id by lia.
    destruct e; cbn in *; subst; reflexivity.
Qed.

(** Unpacking a grid-centre byte and packing it again gives the byte. *)
Lemma ToU8u_gamma_round_trip (n : Z) :
  (0 < n < 256)%Z ->
  exists a t, powf (IZR n / 256) kGamma = Ok a /\
              powf a (1 / kGamma) = Ok t /\ ToU8u t = n.
Proof.
  intros Hn.
  assert (H0 : 0 < IZR n) by (apply (IZR_lt 0); lia).
  assert (H1 : IZR n < 256) by (apply (IZR_lt n 256); lia).
  assert (Hb : 0 < IZR n / 256 < 1) by lra.
  exists (Rpower (IZR n / 256) kGamma), (IZR n / 256).
  split; [apply powf_pos; lra|]. split.
  - rewrite powf_pos by apply Rpower_pos. rewrite gamma_round_trip by lra.
    reflexivity.
  - apply ToU8u_mid; [exact Hb | lia | lra].
Qed.

Lemma CreateLUT_cell_grey_of_green (nan_u8 : R -> Z) (i j k : Z) :
  (0 <= i < kLUTSize)%Z -> (0 <= j < kLUTSize)%Z -> (0 <= k < kLUTSize)%Z ->
  CreateLUT_cell nan_u8 Scenarios.grey_of_green i j k
  = Ok (Scenarios.grey_of_green_cell i j k).
Proof.
  intros Hi Hj Hk. unfold CreateLUT_cell. rewrite centre_eq by assumption.
  rewrite kLUTSize_32 in Hi, Hj, Hk.
  unfold FromRGBA32u, pow. cbn [c0 c1 c2 x y z].
  destruct (ToU8u_gamma_round_trip (k * 8 + 4)) as (ak & tk & -> & _); [lia|].
  destruct (ToU8u_gamma_round_trip (j * 8 + 4)) as (aj & tj & -> & Ej & Uj); [lia|].
  destruct (ToU8u_gamma_round_trip (i * 8 + 4)) as (ai & ti & -> & _); [lia|].
  cbn [bind]. unfold Scenarios.grey_of_green, ToRGBA32u_with. cbn [x y z].
  rewrite (pack_u_Ok _ _ _ Ej), Uj.
  unfold Scenarios.grey_of_green_cell. f_equal. f_equal; lia.
Qed.

Lemma CreateLUT_grey_of_green (nan_u8 : R -> Z) :
  CreateLUT nan_u8 Scenarios.grey_of_green = Ok (fill Scenarios.grey_of_green_cell).
Proof.
  unfold CreateLUT, fill.
  apply mapM_map. intros i Hi. apply In_indices in Hi.
  apply mapM_map. intros j Hj. apply In_indices in Hj.
  apply mapM_map. intros k Hk. apply In_indices in Hk.
  apply CreateLUT_cell_grey_of_green; assumption.
Qed.

(** The claim of C1 as it is written fails: the cube built from
    [grey_of_green] stores (4,4,4,255) for the centre (252,4,4) of cell
    [0][0][31], and [ApplyLUT] at that pixel returns (12,4,4,255): the red
    channel is read from cell [1][1][31]. *)
Lemma LUT_not_exact_on_the_last_face :
  CreateLUT (fun _ => 0%Z) Scenarios.grey_of_green
    = Ok (fill Scenarios.grey_of_green_cell) /\
  (c <- FromRGBA32u (mkRGBA32 252 4 4 255) ;; ToRGBA32u (Scenarios.grey_of_green c))
    = Ok (mkRGBA32 4 4 4 255) /\
  lut_read (fill Scenarios.grey_of_green_cell) 0 0 31 = Ok (mkRGBA32 4 4 4 255) /\
  ApplyLUT (fill Scenarios.grey_of_green_cell) 1 [mkRGBA32 252 4 4 255]
    = Ok [mkRGBA32 12 4 4 255].
Proof.
  split; [exact (CreateLUT_grey_of_green _)|]. split; [|split].
  - unfold FromRGBA32u, pow. cbn [c0 c1 c2 x y z].
    destruct (ToU8u_gamma_round_trip 252) as (a & t & -> & _); [lia|].
    destruct (ToU8u_gamma_round_trip 4) as (b & u & -> & Eb & Ub); [lia|].
    cbn [bind]. unfold Scenarios.grey_of_green, ToRGBA32u, pow. cbn [x y z].
    rewrite Eb. cbn [bind x y z]. rewrite Ub. reflexivity.
  - vm_compute. reflexivity.
  - vm_compute. reflexivity.
Qed.

(** * Further properties *)

Import CBLutGen.
Local Open Scope Z_scope.

(** ** The sampler *)

Lemma blend_same (w v : Z) : blend w v v = v.
Proof.
  rewrite blend_shift. replace ((8 - w) * v + w * v) with (v * 8) by ring.
  apply Z.div_mul. lia.
Qed.

(** With a weight from 0 to 8 the blend lies between the two samples. *)
Lemma blend_between (w v0 v1 : Z) :
  0 <= w <= 8 -> Z.min v0 v1 <= blend w v0 v1 <= Z.max v0 v1.
Proof.
  intros Hw. rewrite blend_shift.
  assert (H : 8 * Z.min v0 v1 <= (8 - w) * v0 + w * v1 <= 8 * Z.max v0 v1) by nia.
  split.
  - apply Z.div_le_lower_bound; lia.
  - apply Z.div_le_upper_bound; lia.
Qed.

(** X2. On a cube all of whose entries are the same colour, [ApplyLUT]
    returns that colour, with alpha 255, for every 8-bit pixel: blending
    and extrapolation leave a constant unchanged. *)
Theorem ApplyLUT_constant_cube (rgbLUT : LUT) (e : RGBA32) (n : nat)
        (dataIn : list RGBA32) :
  wf_lut rgbLUT = true -> forallb wf_pixel dataIn = true ->
  (forall i j k, 0 <= i < kLUTSize -> 0 <= j < kLUTSize -> 0 <= k < kLUTSize ->
                 lut_read rgbLUT i j k = Ok e) ->
  ApplyLUT rgbLUT n dataIn
  = Ok (map (fun _ => mkRGBA32 (c0 e) (c1 e) (c2 e) 255) (firstn n dataIn)).
Proof.
  intros Hlut Hwf He. unfold ApplyLUT. apply mapM_map. intros p Hp.
  assert (Wp : wf_pixel p = true).
  { rewrite forallb_forall in Hwf. apply Hwf. exact (In_firstn _ _ _ Hp). }
  destruct (ApplyLUT_pixel_Ok _ _ Hlut Wp) as (lutC0 & lutC1 & R0 & R1 & W0 & _ & E).
  pose proof Wp as Wp'. apply wf_pixel_spec in Wp'. destruct Wp' as (H0 & H1 & H2 & _).
  pose proof (axis_of_index_ok _ H0) as [L0 L0']%index_ok_spec.
  pose proof (axis_of_index_ok _ H1) as [L1 L1']%index_ok_spec.
  pose proof (axis_of_index_ok _ H2) as [L2 L2']%index_ok_spec.
  rewrite He in R0 by assumption. rewrite He in R1 by assumption.
  injection R0 as <-. injection R1 as <-.
  change EXTRAPOLATE_LUT with true. rewrite E.
  apply wf_pixel_spec in W0.
  rewrite !blend_same, !clamp255_id by lia. reflexivity.
Qed.

Lemma ApplyLUT_constant_cube_witness :
  wf_lut (fill (fun _ _ _ => mkRGBA32 10 20 30 40)) = true /\
  forallb wf_pixel [mkRGBA32 0 255 77 3] = true /\
  ApplyLUT (fill (fun _ _ _ => mkRGBA32 10 20 30 40)) 1 [mkRGBA32 0 255 77 3]
  = Ok [mkRGBA32 10 20 30 255].
Proof.
  assert (W : wf_lut (fill (fun _ _ _ => mkRGBA32 10 20 30 40)) = true)
    by (vm_compute; reflexivity).
  split; [exact W|]. split; [reflexivity|].
  apply (ApplyLUT_constant_cube (fill (fun _ _ _ => mkRGBA32 10 20 30 40))
           (mkRGBA32 10 20 30 40) 1 [mkRGBA32 0 255 77 3] W eq_refl).
  intros i j k Hi Hj Hk.
  exact (lut_read_fill (fun _ _ _ => mkRGBA32 10 20 30 40) i j k Hi Hj Hk).
Defined.

(** X3. For a channel value from 4 to 251 (between the first and the last
    grid centre) the output channel of [ApplyLUT] lies between that
    channel of the two entries it blends: only the boundary policy
    extrapolates. *)
Theorem ApplyLUT_interior_no_overshoot (rgbLUT : LUT) (p : RGBA32) (j : nat) :
  wf_lut rgbLUT = true -> wf_pixel p = true -> (j < 3)%nat ->
  4 <= chan p j < 252 ->
  let a0 := axis_of EXTRAPOLATE_LUT (c0 p) in
  let a1 := axis_of EXTRAPOLATE_LUT (c1 p) in
  let a2 := axis_of EXTRAPOLATE_LUT (c2 p) in
  exists lutC0 lutC1 q,
    lut_read rgbLUT (i0 a2) (i0 a1) (i0 a0) = Ok lutC0 /\
    lut_read rgbLUT (i1 a2) (i1 a1) (i1 a0) = Ok lutC1 /\
    ApplyLUT_pixel EXTRAPOLATE_LUT rgbLUT p = Ok q /\
    Z.min (chan lutC0 j) (chan lutC1 j) <= chan q j <= Z.max (chan lutC0 j) (chan lutC1 j).
Proof.
  intros Hlut Hp Hj Hv a0 a1 a2. change EXTRAPOLATE_LUT with true in *.
  destruct (ApplyLUT_pixel_Ok _ _ Hlut Hp) as (lutC0 & lutC1 & R0 & R1 & W0 & W1 & E).
  fold a0 a1 a2 in R0, R1, E.
  eexists lutC0, lutC1, _. split; [exact R0|]. split; [exact R1|].
  split; [exact E|].
  pose proof (chan_wf lutC0 j W0) as B0. pose proof (chan_wf lutC1 j W1) as B1.
  assert (Hq : chan {| c0 := clamp255 (blend (s a0) (c0 lutC0) (c0 lutC1));
                       c1 := clamp255 (blend (s a1) (c1 lutC0) (c1 lutC1));
                       c2 := clamp255 (blend (s a2) (c2 lutC0) (c2 lutC1));
                       c3 := 255 |} j
               = clamp255 (blend (s (axis_of true (chan p j)))
                                 (chan lutC0 j) (chan lutC1 j))).
  { subst a0 a1 a2. destruct j as [|[|[|j]]]; try reflexivity. lia. }
  rewrite Hq. rewrite axis_of_interior by exact Hv. cbn [s].
  assert (Hw : 0 <= (chan p j + 4) mod 8 <= 8).
  { pose proof (Z.mod_pos_bound (chan p j + 4) 8). lia. }
  pose proof (blend_between _ (chan lutC0 j) (chan lutC1 j) Hw) as Hb.
  rewrite clamp255_id by lia. exact Hb.
Qed.

Lemma ApplyLUT_interior_no_overshoot_witness :
  wf_lut Scenarios.descending_lut = true /\
  wf_pixel (mkRGBA32 100 4 251 255) = true /\
  exists lutC0 lutC1 q,
    lut_read Scenarios.descending_lut 30 0 12 = Ok lutC0 /\
    lut_read Scenarios.descending_lut 31 1 13 = Ok lutC1 /\
    ApplyLUT_pixel EXTRAPOLATE_LUT Scenarios.descending_lut (mkRGBA32 100 4 251 255) = Ok q /\
    Z.min (c0 lutC0) (c0 lutC1) <= c0 q <= Z.max (c0 lutC0) (c0 lutC1).
Proof.
  split; [exact wf_descending_lut|]. split; [reflexivity|].
  apply (ApplyLUT_interior_no_overshoot Scenarios.descending_lut
           (mkRGBA32 100 4 251 255) 0 wf_descending_lut eq_refl (Nat.lt_0_succ 2)).
  cbn. lia.
Defined.

(** ** Clamp mode: [EXTRAPOLATE_LUT] not defined *)

Lemma axis_of_high_clamp (v : Z) :
  252 <= v < 256 -> axis_of false v = {| i0 := 31; i1 := 31; s := v - 252 |}.
Proof.
  intros Hv. unfold axis_of. rewrite axis_init_div. unfold axis_adjust.
  cbn [i0 i1 s].
  assert (Hq : (v + 4) / 8 = 32) by (Z.div_mod_to_equations; lia).
  assert (Hr : (v + 4) mod 8 = v - 252) by (Z.div_mod_to_equations; lia).
  rewrite Hq, Hr. reflexivity.
Qed.

(** In clamp mode the indices are in range and the weight is in [0, 8). *)
Lemma axis_of_clamp_ok (v : Z) :
  0 <= v < 256 ->
  index_ok (axis_of false v) = true /\ 0 <= s (axis_of false v) < 8.
Proof.
  intros Hv. rewrite index_ok_spec, kLUTSize_32.
  destruct (Z.lt_ge_cases v 4) as [Hlo|Hlo].
  - rewrite axis_of_low_clamp by lia. cbn. lia.
  - destruct (Z.lt_ge_cases v 252) as [Hhi|Hhi].
    + rewrite axis_of_interior by lia. cbn [i0 i1 s].
      Z.div_mod_to_equations. lia.
    + rewrite axis_of_high_clamp by lia. cbn. lia.
Qed.

Lemma blend_byte (w v0 v1 : Z) :
  0 <= w < 8 -> 0 <= v0 < 256 -> 0 <= v1 < 256 ->
  channel_ok (blend w v0 v1) = true /\ u8 (blend w v0 v1) = blend w v0 v1.
Proof.
  intros Hw H0 H1.
  assert (Hw' : 0 <= w <= 8) by lia.
  pose proof (blend_between w v0 v1 Hw') as Hb.
  unfold channel_ok, u8. rewrite andb_true_iff, !Z.leb_le.
  split; [lia|]. apply Z.mod_small. lia.
Qed.

Lemma ApplyLUT_pixel_clamp_Ok (rgbLUT : LUT) (p : RGBA32) :
  wf_lut rgbLUT = true -> wf_pixel p = true ->
  let a0 := axis_of false (c0 p) in
  let a1 := axis_of false (c1 p) in
  let a2 := axis_of false (c2 p) in
  exists lutC0 lutC1,
    lut_read rgbLUT (i0 a2) (i0 a1) (i0 a0) = Ok lutC0 /\
    lut_read rgbLUT (i1 a2) (i1 a1) (i1 a0) = Ok lutC1 /\
    wf_pixel lutC0 = true /\ wf_pixel lutC1 = true /\
    ApplyLUT_pixel false rgbLUT p =
      Ok {| c0 := blend (s a0) (c0 lutC0) (c0 lutC1);
            c1 := blend (s a1) (c1 lutC0) (c1 lutC1);
            c2 := blend (s a2) (c2 lutC0) (c2 lutC1);
            c3 := 255 |}.
Proof.
  intros Hlut Hp a0 a1 a2. apply wf_pixel_spec in Hp.
  destruct Hp as (H0 & H1 & H2 & _).
  destruct (axis_of_clamp_ok _ H0) as [K0 S0].
  destruct (axis_of_clamp_ok _ H1) as [K1 S1].
  destruct (axis_of_clamp_ok _ H2) as [K2 S2].
  fold a0 in K0, S0. fold a1 in K1, S1. fold a2 in K2, S2.
  pose proof K0 as [L0 L0']%index_ok_spec.
  pose proof K1 as [L1 L1']%index_ok_spec.
  pose proof K2 as [L2 L2']%index_ok_spec.
  destruct (wf_lut_read rgbLUT _ _ _ Hlut L2 L1 L0) as (lutC0 & R0 & W0).
  destruct (wf_lut_read rgbLUT _ _ _ Hlut L2' L1' L0') as (lutC1 & R1 & W1).
  exists lutC0, lutC1. repeat split; try assumption.
  unfold ApplyLUT_pixel. fold a0 a1 a2.
  rewrite K0, K1, K2. cbn [assert bind].
  rewrite R0, R1. cbn [bind].
  pose proof W0 as V0. pose proof W1 as V1.
  apply wf_pixel_spec in V0. apply wf_pixel_spec in V1.
  destruct V0 as (A0 & A1 & A2 & _). destruct V1 as (B0 & B1 & B2 & _).
  destruct (blend_byte _ _ _ S0 A0 B0) as [-> ->].
  destruct (blend_byte _ _ _ S1 A1 B1) as [-> ->].
  destruct (blend_byte _ _ _ S2 A2 B2) as [-> ->].
  reflexivity.
Qed.

(** X4. With [EXTRAPOLATE_LUT] not defined, [ApplyLUT] on a 32 x 32 x 32
    cube of bytes fires no assertion although nothing clamps the blend:
    every output channel lies between that channel of the two entries
    read, and alpha is 255. *)
Theorem clamp_mode_needs_no_clamp (rgbLUT : LUT) (p : RGBA32) :
  wf_lut rgbLUT = true -> wf_pixel p = true ->
  let a0 := axis_of false (c0 p) in
  let a1 := axis_of false (c1 p) in
  let a2 := axis_of false (c2 p) in
  exists lutC0 lutC1 q,
    lut_read rgbLUT (i0 a2) (i0 a1) (i0 a0) = Ok lutC0 /\
    lut_read rgbLUT (i1 a2) (i1 a1) (i1 a0) = Ok lutC1 /\
    ApplyLUT_pixel false rgbLUT p = Ok q /\
    c3 q = 255 /\
    forall j, (j < 3)%nat ->
      Z.min (chan lutC0 j) (chan lutC1 j) <= chan q j <= Z.max (chan lutC0 j) (chan lutC1 j).
Proof.
  intros Hlut Hp a0 a1 a2.
  destruct (ApplyLUT_pixel_clamp_Ok _ _ Hlut Hp) as (lutC0 & lutC1 & R0 & R1 & _ & _ & E).
  fold a0 a1 a2 in R0, R1, E.
  eexists lutC0, lutC1, _. split; [exact R0|]. split; [exact R1|].
  split; [exact E|]. split; [reflexivity|].
  apply wf_pixel_spec in Hp. destruct Hp as (H0 & H1 & H2 & _).
  destruct (axis_of_clamp_ok _ H0) as [_ S0].
  destruct (axis_of_clamp_ok _ H1) as [_ S1].
  destruct (axis_of_clamp_ok _ H2) as [_ S2].
  fold a0 in S0. fold a1 in S1. fold a2 in S2.
  intros j Hj. destruct j as [|[|[|j]]]; cbn [chan c0 c1 c2]; [| | |lia];
    apply blend_between; lia.
Qed.

Lemma clamp_mode_needs_no_clamp_witness :
  wf_lut Scenarios.descending_lut = true /\
  wf_pixel (mkRGBA32 0 255 128 9) = true /\
  exists q, ApplyLUT_pixel false Scenarios.descending_lut (mkRGBA32 0 255 128 9) = Ok q /\
            c3 q = 255.
Proof.
  split; [exact wf_descending_lut|]. split; [reflexivity|].
  destruct (clamp_mode_needs_no_clamp Scenarios.descending_lut (mkRGBA32 0 255 128 9)
              wf_descending_lut eq_refl) as (_ & _ & q & _ & _ & E & A & _).
  exists q. split; [exact E | exact A].
Defined.

(** On the identity cube a channel is pinned to the first or last centre. *)
Lemma identity_channel_clamp (v : Z) :
  0 <= v < 256 ->
  blend (s (axis_of false v))
        (c0 (identity_cell 0 0 (i0 (axis_of false v))))
        (c0 (identity_cell 0 0 (i1 (axis_of false v)))) = Z.max 4 (Z.min 252 v).
Proof.
  intros Hv. apply Z.eqb_eq. revert v Hv.
  apply (byte_cases (fun v =>
    blend (s (axis_of false v))
          (c0 (identity_cell 0 0 (i0 (axis_of false v))))
          (c0 (identity_cell 0 0 (i1 (axis_of false v)))) =? Z.max 4 (Z.min 252 v))).
  vm_compute. reflexivity.
Qed.

(** X5. With [EXTRAPOLATE_LUT] not defined, sampling the identity cube
    pins each channel to the first and last grid centres: the output is
    max(4, min(252, v)) for a channel value v. *)
Theorem clamp_mode_identity_pins_ends (p : RGBA32) :
  wf_pixel p = true ->
  ApplyLUT_pixel false CreateIdentityLUT p
  = Ok {| c0 := Z.max 4 (Z.min 252 (c0 p));
          c1 := Z.max 4 (Z.min 252 (c1 p));
          c2 := Z.max 4 (Z.min 252 (c2 p));
          c3 := 255 |}.
Proof.
  intros Hp.
  destruct (ApplyLUT_pixel_clamp_Ok _ _ wf_CreateIdentityLUT Hp)
    as (lutC0 & lutC1 & R0 & R1 & _ & _ & E).
  apply wf_pixel_spec in Hp. destruct Hp as (H0 & H1 & H2 & _).
  destruct (axis_of_clamp_ok _ H0) as [[L0 L0']%index_ok_spec _].
  destruct (axis_of_clamp_ok _ H1) as [[L1 L1']%index_ok_spec _].
  destruct (axis_of_clamp_ok _ H2) as [[L2 L2']%index_ok_spec _].
  unfold CreateIdentityLUT in R0, R1.
  rewrite lut_read_fill in R0 by assumption.
  rewrite lut_read_fill in R1 by assumption.
  injection R0 as <-. injection R1 as <-.
  rewrite E. f_equal. f_equal.
  - exact (identity_channel_clamp _ H0).
  - exact (identity_channel_clamp _ H1).
  - exact (identity_channel_clamp _ H2).
Qed.

Lemma clamp_mode_identity_pins_ends_witness :
  wf_pixel (mkRGBA32 0 255 128 9) = true /\
  ApplyLUT_pixel false CreateIdentityLUT (mkRGBA32 0 255 128 9)
  = Ok (mkRGBA32 4 252 128 255).
Proof.
  split; [reflexivity|].
  exact (clamp_mode_identity_pins_ends (mkRGBA32 0 255 128 9) eq_refl).
Defined.

(** ** Point sampling the identity cube *)

(** X6. Point sampling the identity cube: [ApplyLUTNoLerp] maps each
    channel value v to the centre 8*(v/8)+4 of its cell, between 3 below
    and 4 above v, and the alpha it returns is 255. *)
Theorem ApplyLUTNoLerp_identity (n : nat) (dataIn : list RGBA32) :
  forallb wf_pixel dataIn = true ->
  exists dataOut,
    ApplyLUTNoLerp CreateIdentityLUT n dataIn = Ok dataOut /\
    Forall2 (fun p q =>
               c3 q = 255 /\
               forall j, (j < 3)%nat ->
                 chan q j = 8 * (chan p j / 8) + 4 /\ -3 <= chan q j - chan p j <= 4)
            (firstn n dataIn) dataOut.
Proof.
  intros Hwf.
  assert (Hn : forall p, In p (firstn n dataIn) -> wf_pixel p = true).
  { rewrite forallb_forall in Hwf. intros p Hp. apply Hwf.
    exact (In_firstn _ _ _ Hp). }
  clear Hwf. unfold ApplyLUTNoLerp. induction (firstn n dataIn) as [|p l IH].
  - exists []. split; [reflexivity | constructor].
  - destruct IH as (out & Eout & Fout); [intros; apply Hn; right; assumption|].
    pose proof (Hn p (or_introl eq_refl)) as Hp.
    destruct (ApplyLUTNoLerp_pixel_Ok _ _ wf_CreateIdentityLUT Hp) as (e & R & E).
    apply wf_pixel_spec in Hp. destruct Hp as (H0 & H1 & H2 & _).
    assert (B : forall v, 0 <= v < 256 -> 0 <= v / 8 < kLUTSize).
    { intros v Hv. rewrite kLUTSize_32. Z.div_mod_to_equations. lia. }
    unfold CreateIdentityLUT in R.
    rewrite lut_read_fill in R by (apply B; assumption).
    injection R as <-.
    eexists (_ :: out). split.
    + cbn [mapM]. rewrite E. cbn [bind]. rewrite Eout. reflexivity.
    + constructor; [|exact Fout]. split; [reflexivity|].
      intros j Hj. unfold identity_cell, u8.
      change (256 / kLUTSize) with 8. change (8 / 2) with 4.
      destruct j as [|[|[|j]]]; cbn [chan c0 c1 c2]; [| | |lia];
        (rewrite Z.mod_small by (Z.div_mod_to_equations; lia));
        (split; [ring | Z.div_mod_to_equations; lia]).
Qed.

Lemma ApplyLUTNoLerp_identity_witness :
  forallb wf_pixel [mkRGBA32 0 255 128 9] = true /\
  exists dataOut,
    ApplyLUTNoLerp CreateIdentityLUT 1 [mkRGBA32 0 255 128 9] = Ok dataOut /\
    Forall2 (fun p q =>
               c3 q = 255 /\
               forall j, (j < 3)%nat ->
                 chan q j = 8 * (chan p j / 8) + 4 /\ -3 <= chan q j - chan p j <= 4)
            (firstn 1 [mkRGBA32 0 255 128 9]) dataOut.
Proof.
  split; [reflexivity|].
  exact (ApplyLUTNoLerp_identity 1 [mkRGBA32 0 255 128 9] eq_refl).
Defined.

Local Open Scope R_scope.

(** ** Unpacking and packing again *)

(** A byte scaled by a factor within 0.19% of 1 still rounds to the byte. *)
Lemma ToU8_scaled (n : Z) (t : R) :
  (0 < n < 256)%Z -> 0.9981 <= t <= 1.0019 -> ToU8 (IZR n / 255 * t) = n.
Proof.
  intros Hn Ht.
  assert (H0 : 1 <= IZR n) by (apply (IZR_le 1); lia).
  assert (H1 : IZR n <= 255) by (apply (IZR_le n 255); lia).
  destruct (Rle_lt_dec 1 (IZR n / 255 * t)) as [Hge|Hlt].
  - rewrite ToU8_high by exact Hge.
    assert (Hn' : 254.5 < IZR n) by nra.
    assert (Hz : (254 < n)%Z).
    { apply lt_IZR. lra. }
    lia.
  - apply ToU8_mid; [split; [nra | exact Hlt] | lia | split; nra].
Qed.

Lemma round_trip_channel (n : Z) :
  (0 <= n < 256)%Z ->
  exists a t, powf (IZR n / 255) kGamma = Ok a /\
              powf a (1 / kGamma) = Ok t /\ ToU8 t = n.
Proof.
  intros Hn. destruct (Z.eq_dec n 0) as [->|Hne].
  - exists 0, 0. replace (0 / 255) with 0 by lra.
    split; [apply powf_zero|]. split; [apply powf_zero|]. apply ToU8_low. lra.
  - assert (H0 : 0 < IZR n) by (apply (IZR_lt 0); lia).
    exists (Rpower (IZR n / 255) kGamma), (IZR n / 255).
    split; [apply powf_pos; lra|]. split.
    + rewrite powf_pos by apply Rpower_pos. rewrite gamma_round_trip by lra.
      reflexivity.
    + replace (IZR n / 255) with (IZR n / 255 * 1) by lra.
      apply ToU8_scaled; [lia | lra].
Qed.

Lemma ToRGBA32_FromRGBA32 (p : RGBA32) :
  wf_pixel p = true ->
  exists c, FromRGBA32 p = Ok c /\
            ToRGBA32 c = Ok (mkRGBA32 (c0 p) (c1 p) (c2 p) 255).
Proof.
  intros Hp. apply wf_pixel_spec in Hp. destruct Hp as (H0 & H1 & H2 & _).
  destruct (round_trip_channel _ H0) as (a0 & t0 & Ea0 & Et0 & U0).
  destruct (round_trip_channel _ H1) as (a1 & t1 & Ea1 & Et1 & U1).
  destruct (round_trip_channel _ H2) as (a2 & t2 & Ea2 & Et2 & U2).
  exists (mkVec3f a0 a1 a2). split.
  - unfold FromRGBA32, pow. cbn [x y z]. rewrite Ea0, Ea1, Ea2. reflexivity.
  - unfold ToRGBA32, pow. cbn [x y z]. rewrite Et0, Et1, Et2. cbn [bind x y z].
    rewrite U0, U1, U2. reflexivity.
Qed.

(** X9. [Transform] with the pass-through transform (unpack with
    [FromRGBA32], pack with [ToRGBA32]) returns the three colour bytes of
    every 8-bit pixel unchanged, with alpha 255. *)
Theorem Transform_pass_through (n : nat) (dataIn : list RGBA32) :
  forallb wf_pixel dataIn = true ->
  Transform (fun c => c) n dataIn
  = Ok (map (fun p => mkRGBA32 (c0 p) (c1 p) (c2 p) 255) (firstn n dataIn)).
Proof.
  intros Hwf. unfold Transform. apply mapM_map. intros p Hp.
  assert (Wp : wf_pixel p = true).
  { rewrite forallb_forall in Hwf. apply Hwf. exact (In_firstn _ _ _ Hp). }
  destruct (ToRGBA32_FromRGBA32 p Wp) as (c & Ec & Et).
  unfold Transform_pixel. rewrite Ec. cbn [bind]. exact Et.
Qed.

Lemma Transform_pass_through_witness :
  forallb wf_pixel [mkRGBA32 0 255 77 3; mkRGBA32 1 2 3 255] = true /\
  Transform (fun c => c) 2 [mkRGBA32 0 255 77 3; mkRGBA32 1 2 3 255]
  = Ok [mkRGBA32 0 255 77 255; mkRGBA32 1 2 3 255].
Proof.
  split; [reflexivity|].
  exact (Transform_pass_through 2 [mkRGBA32 0 255 77 3; mkRGBA32 1 2 3 255] eq_refl).
Defined.

(** ** Neutral greys *)

(** A transform that commutes with scaling and keeps white within 0.19%
    keeps every grey byte: the deviation is below half a level. *)
Lemma Transform_keeps_grey (T : Vec3f -> Vec3f) (v a : Z) :
  (forall g c, T (g *v c) = g *v T c) ->
  (let K := T (mkVec3f 1 1 1) in
   0.9981 <= x K <= 1.0019 /\ 0.9981 <= y K <= 1.0019 /\ 0.9981 <= z K <= 1.0019) ->
  (0 <= v < 256)%Z ->
  Transform_pixel T (mkRGBA32 v v v a) = Ok (mkRGBA32 v v v 255).
Proof.
  intros Hlin HK Hv. cbv zeta in HK. destruct HK as (Kx & Ky & Kz).
  assert (He : 0 < 1 / kGamma <= 1) by (unfold kGamma; lra).
  assert (Hchan : forall g k, 0 < g -> 0.9981 <= k <= 1.0019 ->
            powf (g * k) (1 / kGamma)
            = Ok (Rpower g (1 / kGamma) * Rpower k (1 / kGamma)) /\
            0.9981 <= Rpower k (1 / kGamma) <= 1.0019).
  { intros g k Hg Hk. split.
    - rewrite powf_pos by nra. rewrite Rpower_mult_distr by lra. reflexivity.
    - destruct (Rle_lt_dec 1 k) as [H1|H1].
      + pose proof (Rpower_ge_1 k _ H1 He). lra.
      + assert (Hk' : 0 < k <= 1) by lra. pose proof (Rpower_le_1 k _ Hk' He). lra. }
  unfold Transform_pixel, FromRGBA32, pow. cbn [c0 c1 c2 x y z].
  destruct (Z.eq_dec v 0) as [->|Hne].
  - replace (0 / 255) with 0 by lra. rewrite powf_zero. cbn [bind].
    replace (mkVec3f 0 0 0) with (0 *v mkVec3f 1 1 1)
      by (unfold vscale; cbn [x y z]; rewrite !Rmult_0_l; reflexivity).
    rewrite Hlin. unfold ToRGBA32, pow, vscale. cbn [x y z].
    rewrite !Rmult_0_l, powf_zero. cbn [bind x y z].
    rewrite ToU8_low by lra. reflexivity.
  - assert (H0 : 0 < IZR v) by (apply (IZR_lt 0); lia).
    rewrite powf_pos by lra. cbn [bind].
    set (g := Rpower (IZR v / 255) kGamma).
    assert (Hg : 0 < g) by apply Rpower_pos.
    replace (mkVec3f g g g) with (g *v mkVec3f 1 1 1)
      by (unfold vscale; cbn [x y z]; rewrite !Rmult_1_r; reflexivity).
    rewrite Hlin. unfold ToRGBA32, pow, vscale. cbn [x y z].
    destruct (Hchan g _ Hg Kx) as [-> Bx].
    destruct (Hchan g _ Hg Ky) as [-> By].
    destruct (Hchan g _ Hg Kz) as [-> Bz].
    cbn [bind x y z]. unfold g. rewrite gamma_round_trip by lra.
    rewrite !ToU8_scaled by (lia || assumption). reflexivity.
Qed.

Lemma vsub_vscale (g : R) (a b : Vec3f) : (g *v a) -v (g *v b) = g *v (a -v b).
Proof. apply Vec3f_eq; unfold vsub, vscale; cbn [x y z]; ring. Qed.

Lemma vadd_vscale (g : R) (a b : Vec3f) : (g *v a) +v (g *v b) = g *v (a +v b).
Proof. apply Vec3f_eq; unfold vadd, vscale; cbn [x y z]; ring. Qed.

Lemma vscale_vscale (h g : R) (a : Vec3f) : h *v (g *v a) = g *v (h *v a).
Proof. apply Vec3f_eq; unfold vscale; cbn [x y z]; ring. Qed.

Lemma SimulateV_vscale (g : R) (c : Vec3f) (m : Mat3f) :
  SimulateV (g *v c) m = g *v SimulateV c m.
Proof. unfold SimulateV. cbv zeta. rewrite !mulmv_vscale. reflexivity. Qed.

Lemma Daltonise_vscale (g : R) (c : Vec3f) (d : tLMS) (strength : R) :
  Daltonise (g *v c) d strength = g *v Daltonise c d strength.
Proof.
  unfold Daltonise. cbv zeta.
  destruct d; rewrite SimulateV_vscale, vsub_vscale, vscale_vscale, mulmv_vscale,
    vadd_vscale; reflexivity.
Qed.

Lemma Correct_vscale (g : R) (c : Vec3f) (d : tLMS) (strength : R) :
  Correct (g *v c) d strength = g *v Correct c d strength.
Proof.
  unfold Correct. cbv zeta. rewrite mulmv_vscale, elt_vscale, dot_vscale.
  set (lms := kLMSFromRGB *m c). set (corr := set_elt _ d _).
  replace (strength * (g * elt lms d - g * dot (row kLMSSimulate d) lms))
    with (g * (strength * (elt lms d - dot (row kLMSSimulate d) lms))) by ring.
  set (err := strength * (elt lms d - dot (row kLMSSimulate d) lms)).
  replace ((g * err) *v corr) with (g *v (err *v corr))
    by (apply Vec3f_eq; unfold vscale; cbn [x y z]; ring).
  rewrite vadd_vscale, mulmv_vscale. reflexivity.
Qed.

Lemma LMSSwap_vscale (g : R) (c : Vec3f) (ch : tLMS) :
  LMSSwap (g *v c) ch = g *v LMSSwap c ch.
Proof.
  unfold LMSSwap. cbv zeta. rewrite mulmv_vscale.
  set (lms := kLMSFromRGB *m c).
  destruct ch; rewrite <- mulmv_vscale; reflexivity.
Qed.

Lemma RemapLToS_vscale (g : R) (c : Vec3f) : RemapLToS (g *v c) = g *v RemapLToS c.
Proof.
  unfold RemapLToS. cbv zeta. rewrite !mulmv_vscale.
  set (lms := kLMSProtanope *m (kLMSFromRGB *m c)). set (l0 := kLMSFromRGB *m c).
  rewrite <- mulmv_vscale. f_equal.
  apply Vec3f_eq; unfold vscale; cbn [x y z]; ring.
Qed.

Lemma RemapMToS_vscale (g : R) (c : Vec3f) : RemapMToS (g *v c) = g *v RemapMToS c.
Proof.
  unfold RemapMToS. cbv zeta. rewrite !mulmv_vscale.
  set (lms := kLMSDeuteranope *m (kLMSFromRGB *m c)). set (l0 := kLMSFromRGB *m c).
  rewrite <- mulmv_vscale. f_equal.
  apply Vec3f_eq; unfold vscale; cbn [x y z]; ring.
Qed.

Lemma white_LMS : kLMSFromRGB *m mkVec3f 1 1 1 = mkVec3f 1.00000071 0.99996829 0.9997637.
Proof.
  apply Vec3f_eq; unfold kLMSFromRGB, mulmv, dot, mat; cbn [x y z mx my mz]; lra.
Qed.

Lemma white_LMSV : kLMSFromRGBV *m mkVec3f 1 1 1 = mkVec3f 65.51785 34.47819 1.6813556.
Proof.
  apply Vec3f_eq; unfold kLMSFromRGBV, mulmv, dot, mat; cbn [x y z mx my mz]; lra.
Qed.

(** The simulation [Daltonise] uses keeps white within 5e-5. *)
Lemma SimulateV_white (d : tLMS) :
  let m := match d with kL => kLMSProtanopeV | kM => kLMSDeuteranopeV
                   | kS => kLMSTritanopeV end in
  let K := SimulateV (mkVec3f 1 1 1) m in
  -5e-5 <= 1 - x K <= 5e-5 /\ -5e-5 <= 1 - y K <= 5e-5 /\ -5e-5 <= 1 - z K <= 5e-5.
Proof.
  cbv zeta. unfold SimulateV. rewrite white_LMSV.
  destruct d;
    unfold kRGBFromLMSV, kLMSProtanopeV, kLMSDeuteranopeV, kLMSTritanopeV,
      mulmv, dot, mat; cbn [x y z mx my mz];
    repeat split; lra.
Qed.

Lemma Daltonise_white (d : tLMS) (strength : R) :
  0 <= strength <= 1 ->
  let K := Daltonise (mkVec3f 1 1 1) d strength in
  0.9981 <= x K <= 1.0019 /\ 0.9981 <= y K <= 1.0019 /\ 0.9981 <= z K <= 1.0019.
Proof.
  intros Hs. cbv zeta. pose proof (SimulateV_white d) as H. cbv zeta in H.
  unfold Daltonise.
  destruct d; cbv zeta;
    match goal with |- context [SimulateV ?w ?m] =>
      destruct (SimulateV w m) as [sx sy sz] end;
    cbn [x y z] in H; destruct H as (Hx & Hy & Hz);
    assert (Tx : -5e-5 <= strength * (1 - sx) <= 5e-5) by nra;
    assert (Ty : -5e-5 <= strength * (1 - sy) <= 5e-5) by nra;
    assert (Tz : -5e-5 <= strength * (1 - sz) <= 5e-5) by nra;
    unfold kDaltonErrorToDeltaP, kDaltonErrorToDeltaD, kDaltonErrorToDeltaT,
      mulmv, dot, vadd, vsub, vscale, mat; cbn [x y z mx my mz];
    repeat split; lra.
Qed.

Lemma Correct_white (d : tLMS) (strength : R) :
  0 <= strength <= 1 ->
  let K := Correct (mkVec3f 1 1 1) d strength in
  0.9981 <= x K <= 1.0019 /\ 0.9981 <= y K <= 1.0019 /\ 0.9981 <= z K <= 1.0019.
Proof.
  intros Hs. cbv zeta. unfold Correct. cbv zeta. rewrite white_LMS.
  assert (H2 : 0 <= strength * strength <= 1) by nra.
  assert (H3 : 0 <= strength * strength * strength <= 1) by nra.
  destruct d;
    unfold kRGBFromLMS, kLMSSimulate, kNCDeltaRecip, row, col, elt, set_elt,
      mulmv, dot, vadd, vscale, mat; cbn [x y z mx my mz];
    repeat split; lra.
Qed.

Lemma Simulate_white_wide (d : tLMS) (strength : R) :
  0 <= strength <= 1 ->
  let K := Simulate (mkVec3f 1 1 1) d strength in
  0.9981 <= x K <= 1.0019 /\ 0.9981 <= y K <= 1.0019 /\ 0.9981 <= z K <= 1.0019.
Proof.
  intros Hs. destruct (Simulate_white d strength Hs) as (Hx & Hy & Hz).
  cbv zeta in *. lra.
Qed.

(** X10. For every deficiency type and every strength from 0 to 1,
    [Simulate], [Daltonise] and [Correct], run through [Transform], return
    every grey pixel (v, v, v) as (v, v, v, 255). *)
Theorem engine_keeps_greys (d : tLMS) (strength : R) (v a : Z) :
  0 <= strength <= 1 -> (0 <= v < 256)%Z ->
  Transform (fun c => Simulate c d strength) 1 [mkRGBA32 v v v a]
    = Ok [mkRGBA32 v v v 255] /\
  Transform (fun c => Daltonise c d strength) 1 [mkRGBA32 v v v a]
    = Ok [mkRGBA32 v v v 255] /\
  Transform (fun c => Correct c d strength) 1 [mkRGBA32 v v v a]
    = Ok [mkRGBA32 v v v 255].
Proof.
  intros Hs Hv. unfold Transform. cbn [firstn mapM].
  rewrite (Transform_keeps_grey (fun c => Simulate c d strength) v a
             (fun g c => Simulate_vscale g c d strength)
             (Simulate_white_wide d strength Hs) Hv).
  rewrite (Transform_keeps_grey (fun c => Daltonise c d strength) v a
             (fun g c => Daltonise_vscale g c d strength)
             (Daltonise_white d strength Hs) Hv).
  rewrite (Transform_keeps_grey (fun c => Correct c d strength) v a
             (fun g c => Correct_vscale g c d strength)
             (Correct_white d strength Hs) Hv).
  repeat split.
Qed.

Lemma engine_keeps_greys_witness :
  0 <= 0.5 <= 1 /\ (0 <= 200 < 256)%Z /\
  Transform (fun c => Daltonise c kS 0.5) 1 [mkRGBA32 200 200 200 17]
    = Ok [mkRGBA32 200 200 200 255].
Proof.
  split; [lra|]. split; [lia|].
  refine (proj1 (proj2 (engine_keeps_greys kS 0.5 200 17 _ _))); lra || lia.
Defined.

Lemma LMSSwap_white (ch : tLMS) :
  let K := LMSSwap (mkVec3f 1 1 1) ch in
  0.9981 <= x K <= 1.0019 /\ 0.9981 <= y K <= 1.0019 /\ 0.9981 <= z K <= 1.0019.
Proof.
  cbv zeta. unfold LMSSwap. cbv zeta. rewrite white_LMS.
  destruct ch; unfold kRGBFromLMS, mulmv, dot, mat; cbn [x y z mx my mz];
    repeat split; lra.
Qed.

Lemma RemapLToS_white :
  let K := RemapLToS (mkVec3f 1 1 1) in
  0.9981 <= x K <= 1.0019 /\ 0.9981 <= y K <= 1.0019 /\ 0.9981 <= z K <= 1.0019.
Proof.
  cbv zeta. unfold RemapLToS. cbv zeta. rewrite white_LMS.
  unfold kRGBFromLMS, kLMSProtanope, mulmv, dot, mat; cbn [x y z mx my mz];
    repeat split; lra.
Qed.

Lemma RemapMToS_white :
  let K := RemapMToS (mkVec3f 1 1 1) in
  0.9981 <= x K <= 1.0019 /\ 0.9981 <= y K <= 1.0019 /\ 0.9981 <= z K <= 1.0019.
Proof.
  cbv zeta. unfold RemapMToS. cbv zeta. rewrite white_LMS.
  unfold kRGBFromLMS, kLMSDeuteranope, mulmv, dot, mat; cbn [x y z mx my mz];
    repeat split; lra.
Qed.

(** X11. [LMSSwap] (all three channel pairs), [RemapLToS] and [RemapMToS],
    run through [Transform], return every grey pixel (v, v, v) as
    (v, v, v, 255). *)
Theorem remaps_keep_greys (ch : tLMS) (v a : Z) :
  (0 <= v < 256)%Z ->
  Transform (fun c => LMSSwap c ch) 1 [mkRGBA32 v v v a] = Ok [mkRGBA32 v v v 255] /\
  Transform (fun c => RemapLToS c) 1 [mkRGBA32 v v v a] = Ok [mkRGBA32 v v v 255] /\
  Transform (fun c => RemapMToS c) 1 [mkRGBA32 v v v a] = Ok [mkRGBA32 v v v 255].
Proof.
  intros Hv. unfold Transform. cbn [firstn mapM].
  rewrite (Transform_keeps_grey (fun c => LMSSwap c ch) v a
             (fun g c => LMSSwap_vscale g c ch) (LMSSwap_white ch) Hv).
  rewrite (Transform_keeps_grey (fun c => RemapLToS c) v a
             RemapLToS_vscale RemapLToS_white Hv).
  rewrite (Transform_keeps_grey (fun c => RemapMToS c) v a
             RemapMToS_vscale RemapMToS_white Hv).
  repeat split.
Qed.

Lemma remaps_keep_greys_witness :
  (0 <= 255 < 256)%Z /\
  Transform (fun c => LMSSwap c kS) 1 [mkRGBA32 255 255 255 0]
    = Ok [mkRGBA32 255 255 255 255].
Proof.
  split; [lia|].
  refine (proj1 (remaps_keep_greys kS 255 0 _)). lia.
Defined.

(** ** [RemapMToS] *)


(** ** [ClampUnit] *)

Lemma clamp_unit_spec (c : R) :
  0 <= clamp_unit c <= 1 /\ (0 <= c <= 1 -> clamp_unit c = c) /\
  (c < 0 -> clamp_unit c = 0) /\ (1 < c -> clamp_unit c = 1).
Proof.
  unfold clamp_unit. destruct (Rlt_dec c 0); [repeat split; intros; lra|].
  destruct (Rgt_dec c 1); repeat split; intros; lra.
Qed.

(** X15. [ClampUnit] puts every channel in [0, 1], changes nothing when
    applied again, and its result is packed by [ToRGBA32] and [ToRGBA32u]
    without a fault. *)
Theorem ClampUnit_gamut (c : Vec3f) :
  let k := ClampUnit c in
  (0 <= x k <= 1 /\ 0 <= y k <= 1 /\ 0 <= z k <= 1) /\
  ClampUnit k = k /\
  (exists p, ToRGBA32 k = Ok p) /\ (exists p, ToRGBA32u k = Ok p).
Proof.
  cbv zeta. unfold ClampUnit. cbn [x y z].
  destruct (clamp_unit_spec (x c)) as (Bx & _).
  destruct (clamp_unit_spec (y c)) as (By & _).
  destruct (clamp_unit_spec (z c)) as (Bz & _).
  split; [tauto|]. split.
  - f_equal; apply clamp_unit_spec; assumption.
  - destruct (pack_channel _ (proj1 Bx)) as (tx & Ex & _).
    destruct (pack_channel _ (proj1 By)) as (ty & Ey & _).
    destruct (pack_channel _ (proj1 Bz)) as (tz & Ez & _).
    unfold ToRGBA32, ToRGBA32u, pow. cbn [x y z]. rewrite Ex, Ey, Ez. cbn [bind].
    split; eexists; reflexivity.
Qed.

(** ** The mono LUT *)

Lemma powf_nonneg (b e : R) : 0 <= b -> exists t, powf b e = Ok t /\ 0 <= t.
Proof.
  intros Hb. destruct (Rle_lt_or_eq_dec 0 b Hb) as [Hpos| <-].
  - exists (Rpower b e). split; [apply powf_pos; exact Hpos|].
    left. apply Rpower_pos.
  - exists 0. split; [apply powf_zero | lra].
Qed.

(** [powf] is monotone in a base that is not negative. *)
Lemma powf_mono (a b e ta tb : R) :
  0 <= e -> 0 <= a <= b -> powf a e = Ok ta -> powf b e = Ok tb -> ta <= tb.
Proof.
  intros He [Ha Hab] Ea Eb.
  destruct (powf_nonneg b e) as (tb' & Eb' & Hb'); [lra|].
  rewrite Eb in Eb'. injection Eb' as <-.
  destruct (Rle_lt_or_eq_dec 0 a Ha) as [Hpos|Hz].
  - rewrite powf_pos in Ea by exact Hpos. rewrite powf_pos in Eb by lra.
    injection Ea as <-. injection Eb as <-.
    apply Rle_Rpower_l; [exact He | lra].
  - subst a. rewrite powf_zero in Ea. injection Ea as <-. exact Hb'.
Qed.

Lemma gamma_inverse_byte (n : Z) :
  (0 <= n)%Z ->
  exists a, powf (IZR n / 255) kGamma = Ok a /\ 0 <= a /\
            powf a (1 / kGamma) = Ok (IZR n / 255).
Proof.
  intros Hn. destruct (Z.eq_dec n 0) as [->|Hne].
  - exists 0. replace (0 / 255) with 0 by lra.
    split; [apply powf_zero|]. split; [lra | apply powf_zero].
  - assert (H0 : 0 < IZR n) by (apply (IZR_lt 0); lia).
    exists (Rpower (IZR n / 255) kGamma).
    split; [apply powf_pos; lra|]. split; [left; apply Rpower_pos|].
    rewrite powf_pos by apply Rpower_pos. rewrite gamma_round_trip by lra.
    reflexivity.
Qed.

(** A value between two bytes (over 255) rounds to a byte between them. *)
Lemma ToU8_between (m M : Z) (t : R) :
  (0 <= m <= M)%Z -> (M < 256)%Z -> IZR m / 255 <= t <= IZR M / 255 ->
  (m <= ToU8 t <= M)%Z.
Proof.
  intros Hm HM Ht.
  assert (Hm0 : 0 <= IZR m) by (apply (IZR_le 0); lia).
  assert (HM1 : IZR M <= 255) by (apply (IZR_le M 255); lia).
  unfold ToU8. destruct (Rle_dec t 0) as [Hle|Hgt].
  - assert (IZR m <= 0) by lra.
    assert (m <= 0)%Z by (apply le_IZR; assumption). lia.
  - destruct (Rge_dec t 1) as [Hge|Hlt].
    + assert (255 <= IZR M) by lra.
      assert (255 <= M)%Z by (apply le_IZR; assumption). lia.
    + unfold float_to_u8. rewrite Ztrunc_floor by lra.
      pose proof (Zfloor_bound (t * 255 + 0.5)) as [Hf1 Hf2].
      assert (Hlo : (m <= Zfloor (t * 255 + 0.5))%Z) by (apply Zfloor_lub; lra).
      assert (Hhi : (Zfloor (t * 255 + 0.5) < M + 1)%Z).
      { apply lt_IZR. rewrite plus_IZR. lra. }
      unfold u8. rewrite Z.mod_small by lia. lia.
Qed.

Lemma ApplyMonoLUT_pixel_luminance (monoLUT : list RGBA32) (channel : Z) (p : RGBA32) :
  length monoLUT = 256%nat -> wf_pixel p = true -> (channel < 0)%Z ->
  exists idx q,
    (Z.min (c0 p) (Z.min (c1 p) (c2 p)) <= idx <= Z.max (c0 p) (Z.max (c1 p) (c2 p)))%Z /\
    nth_error monoLUT (Z.to_nat idx) = Some q /\
    ApplyMonoLUT_pixel monoLUT channel p = Ok q.
Proof.
  intros Hlen Hp Hch. apply wf_pixel_spec in Hp. destruct Hp as (H0 & H1 & H2 & _).
  set (m := Z.min (c0 p) (Z.min (c1 p) (c2 p))).
  set (M := Z.max (c0 p) (Z.max (c1 p) (c2 p))).
  assert (Hm : (0 <= m)%Z) by (subst m; lia).
  assert (HM : (M < 256)%Z) by (subst M; lia).
  assert (HmM : (m <= c0 p <= M /\ m <= c1 p <= M /\ m <= c2 p <= M)%Z)
    by (subst m M; lia).
  destruct HmM as (B0 & B1 & B2).
  destruct (gamma_inverse_byte m Hm) as (gm & Egm & Pgm & Em).
  destruct (gamma_inverse_byte M) as (gM & EgM & PgM & EM); [lia|].
  destruct (gamma_inverse_byte (c0 p)) as (g0 & E0 & P0 & _); [lia|].
  destruct (gamma_inverse_byte (c1 p)) as (g1 & E1 & P1 & _); [lia|].
  destruct (gamma_inverse_byte (c2 p)) as (g2 & E2 & P2 & _); [lia|].
  assert (Hg : 0 <= kGamma) by (unfold kGamma; lra).
  assert (Q : forall a b : Z, (0 <= a <= b)%Z -> 0 <= IZR a / 255 <= IZR b / 255).
  { intros a b [Ha Hab]. apply IZR_le in Ha. apply IZR_le in Hab. lra. }
  pose proof (powf_mono _ _ _ _ _ Hg (Q m (c0 p) ltac:(lia)) Egm E0) as L0.
  pose proof (powf_mono _ _ _ _ _ Hg (Q m (c1 p) ltac:(lia)) Egm E1) as L1.
  pose proof (powf_mono _ _ _ _ _ Hg (Q m (c2 p) ltac:(lia)) Egm E2) as L2.
  pose proof (powf_mono _ _ _ _ _ Hg (Q (c0 p) M ltac:(lia)) E0 EgM) as U0.
  pose proof (powf_mono _ _ _ _ _ Hg (Q (c1 p) M ltac:(lia)) E1 EgM) as U1.
  pose proof (powf_mono _ _ _ _ _ Hg (Q (c2 p) M ltac:(lia)) E2 EgM) as U2.
  set (lum := dot (mkVec3f 0.2126 0.7152 0.0722) (mkVec3f g0 g1 g2)).
  assert (Hlum : gm <= lum <= gM).
  { subst lum. unfold dot. cbn [x y z]. lra. }
  destruct (powf_nonneg lum (1 / kGamma)) as (t & Et & Pt); [lra|].
  assert (He : 0 <= 1 / kGamma) by (unfold kGamma; lra).
  pose proof (powf_mono _ _ _ _ _ He (conj Pgm (proj1 Hlum)) Em Et) as Tl.
  assert (HlM : 0 <= lum <= gM) by lra.
  pose proof (powf_mono _ _ _ _ _ He HlM Et EM) as Tu.
  assert (Hidx : (m <= ToU8 t <= M)%Z).
  { apply ToU8_between; [lia | lia | lra]. }
  destruct (nth_error monoLUT (Z.to_nat (ToU8 t))) as [q|] eqn:Eq;
    [|apply nth_error_None in Eq; lia].
  exists (ToU8 t), q. split; [exact Hidx|]. split; [exact Eq|].
  unfold ApplyMonoLUT_pixel.
  destruct (Z.ltb_spec channel 0) as [_|Hc]; [|lia].
  unfold FromRGBA32, pow. cbn [x y z]. rewrite E0, E1, E2. cbn [bind].
  fold lum. rewrite Et. cbn [bind]. unfold mono_read. rewrite Eq. reflexivity.
Qed.

(** X16. With a negative [channel], [ApplyMonoLUT] on a 256-entry ramp
    returns for every 8-bit pixel the ramp entry at an index between the
    smallest and the largest of the pixel's three colour bytes; for a grey
    pixel (v, v, v) that is entry v. *)
Theorem ApplyMonoLUT_luminance (monoLUT : list RGBA32) (n : nat)
        (dataIn : list RGBA32) (channel : Z) :
  length monoLUT = 256%nat -> forallb wf_pixel dataIn = true -> (channel < 0)%Z ->
  exists dataOut,
    ApplyMonoLUT monoLUT n dataIn channel = Ok dataOut /\
    Forall2 (fun p q =>
               exists idx,
                 (Z.min (c0 p) (Z.min (c1 p) (c2 p)) <= idx
                  <= Z.max (c0 p) (Z.max (c1 p) (c2 p)))%Z /\
                 nth_error monoLUT (Z.to_nat idx) = Some q)
            (firstn n dataIn) dataOut.
Proof.
  intros Hlen Hwf Hch. unfold ApplyMonoLUT. apply mapM_Forall2. intros p Hp.
  assert (Wp : wf_pixel p = true).
  { rewrite forallb_forall in Hwf. apply Hwf. exact (In_firstn _ _ _ Hp). }
  destruct (ApplyMonoLUT_pixel_luminance monoLUT channel p Hlen Wp Hch)
    as (idx & q & Hi & Hq & E).
  exists q. split; [exact E|]. exists idx. split; assumption.
Qed.

(** X17. With [channel] from 0 to 3, [ApplyMonoLUT] on a 256-entry ramp
    returns for every 8-bit pixel the ramp entry at the byte
    [c[channel]], and no read leaves the ramp. *)
Theorem ApplyMonoLUT_channel (monoLUT : list RGBA32) (n : nat)
        (dataIn : list RGBA32) (channel : Z) :
  length monoLUT = 256%nat -> forallb wf_pixel dataIn = true ->
  (0 <= channel < 4)%Z ->
  exists dataOut,
    ApplyMonoLUT monoLUT n dataIn channel = Ok dataOut /\
    Forall2 (fun p q =>
               nth_error monoLUT (Z.to_nat (chan p (Z.to_nat channel))) = Some q)
            (firstn n dataIn) dataOut.
Proof.
  intros Hlen Hwf Hch. unfold ApplyMonoLUT. apply mapM_Forall2. intros p Hp.
  assert (Wp : wf_pixel p = true).
  { rewrite forallb_forall in Hwf. apply Hwf. exact (In_firstn _ _ _ Hp). }
  pose proof (chan_wf p (Z.to_nat channel) Wp) as Hv.
  destruct (nth_error monoLUT (Z.to_nat (chan p (Z.to_nat channel)))) as [q|] eqn:Eq;
    [|apply nth_error_None in Eq; lia].
  exists q. split; [|reflexivity].
  unfold ApplyMonoLUT_pixel, chan_read.
  destruct (Z.ltb_spec channel 0) as [Hc|_]; [lia|].
  destruct (Z.leb_spec 0 channel) as [_|Hc]; [|lia].
  destruct (Z.ltb_spec channel 4) as [_|Hc]; [|lia].
  cbn [andb bind]. unfold mono_read. rewrite Eq. reflexivity.
Qed.

(** ** The swatch of option [-F] *)

Lemma in_unit_spec (c : R) : in_unit c = true <-> 0 <= c <= 1.
Proof.
  unfold in_unit. destruct (Rge_dec c 0); [destruct (Rle_dec c 1)|];
    split; intros H; try discriminate; try reflexivity; lra.
Qed.

(** X18. For every pixel (x, y) of the 256 x 256 swatch of option [-F]
    the colour is inside the gamut, so none of the three assertions fires
    and [ToRGBA32] packs it. *)
Theorem swatch_in_gamut (px py : Z) :
  (0 <= px < 256)%Z -> (0 <= py < 256)%Z ->
  let rgb := swatch_rgb 256 256 px py in
  (0.006 <= x rgb <= 0.744 /\ 0.224 <= y rgb <= 0.526 /\ 0.149 <= z rgb <= 0.601) /\
  swatch_pixel px py = ToRGBA32 rgb /\
  exists p, swatch_pixel px py = Ok p.
Proof.
  intros Hx Hy rgb.
  assert (Hlx : 1 / 512 <= (IZR px + 0.5) / 256 <= 511 / 512).
  { destruct Hx as [Hx0 Hx1]. apply IZR_le in Hx0.
    assert (px <= 255)%Z as Hx2 by lia. apply IZR_le in Hx2. lra. }
  assert (Hly : 1 / 512 <= (IZR py + 0.5) / 256 <= 511 / 512).
  { destruct Hy as [Hy0 Hy1]. apply IZR_le in Hy0.
    assert (py <= 255)%Z as Hy2 by lia. apply IZR_le in Hy2. lra. }
  assert (B : 0.006 <= x rgb <= 0.744 /\ 0.224 <= y rgb <= 0.526 /\
              0.149 <= z rgb <= 0.601).
  { subst rgb. unfold swatch_rgb. cbv zeta.
    set (lx := (IZR px + 0.5) / 256) in *. set (ly := (IZR py + 0.5) / 256) in *.
    clearbody lx ly.
    unfold kRGBFromLMS, mulmv, dot, vadd, vmul, vscale_assign, mat.
    cbn [x y z mx my mz]. repeat split; lra. }
  split; [exact B|]. destruct B as (Bx & By & Bz).
  assert (E : swatch_pixel px py = ToRGBA32 rgb).
  { unfold swatch_pixel. fold rgb.
    rewrite (proj2 (in_unit_spec (x rgb))) by lra.
    rewrite (proj2 (in_unit_spec (y rgb))) by lra.
    rewrite (proj2 (in_unit_spec (z rgb))) by lra.
    reflexivity. }
  split; [exact E|]. rewrite E.
  destruct (pack_channel (x rgb)) as (tx & Ex & _); [lra|].
  destruct (pack_channel (y rgb)) as (ty & Ey & _); [lra|].
  destruct (pack_channel (z rgb)) as (tz & Ez & _); [lra|].
  unfold ToRGBA32, pow. rewrite Ex, Ey, Ez. cbn [bind]. eexists. reflexivity.
Qed.

(** ** Building a cube and sampling it *)

(** X8. The cube [CreateLUT] builds from a transform, sampled at an 8-bit
    pixel: an output channel of [ApplyLUT] whose input value lies from 4 to
    251 is between that channel of the two colours the loop body of
    [CreateLUT] stored at the cells [ApplyLUT] reads,
    [i0[2]][i0[1]][i0[0]] and [i1[2]][i1[1]][i1[0]]. *)
Theorem CreateLUT_then_ApplyLUT (nan_u8 : R -> Z) (xform : Vec3f -> Vec3f)
        (p : RGBA32) (j : nat) :
  wf_pixel p = true -> (j < 3)%nat -> (4 <= chan p j < 252)%Z ->
  let a0 := axis_of EXTRAPOLATE_LUT (c0 p) in
  let a1 := axis_of EXTRAPOLATE_LUT (c1 p) in
  let a2 := axis_of EXTRAPOLATE_LUT (c2 p) in
  exists rgbLUT lo hi q,
    CreateLUT nan_u8 xform = Ok rgbLUT /\
    CreateLUT_cell nan_u8 xform (i0 a2) (i0 a1) (i0 a0) = Ok lo /\
    CreateLUT_cell nan_u8 xform (i1 a2) (i1 a1) (i1 a0) = Ok hi /\
    ApplyLUT rgbLUT 1 [p] = Ok [q] /\
    (Z.min (chan lo j) (chan hi j) <= chan q j <= Z.max (chan lo j) (chan hi j))%Z.
Proof.
  intros Hp Hj Hv a0 a1 a2. change EXTRAPOLATE_LUT with true in *.
  destruct (CreateLUT_fill nan_u8 xform) as (cell & EL & Hc & Hwf).
  destruct (ApplyLUT_pixel_Ok _ _ Hwf Hp) as (lutC0 & lutC1 & R0 & R1 & W0 & W1 & E).
  fold a0 a1 a2 in R0, R1, E.
  pose proof Hp as Hp'. apply wf_pixel_spec in Hp'. destruct Hp' as (H0 & H1 & H2 & _).
  pose proof (axis_of_index_ok _ H0) as [L0 L0']%index_ok_spec.
  pose proof (axis_of_index_ok _ H1) as [L1 L1']%index_ok_spec.
  pose proof (axis_of_index_ok _ H2) as [L2 L2']%index_ok_spec.
  fold a0 in L0, L0'. fold a1 in L1, L1'. fold a2 in L2, L2'.
  rewrite lut_read_fill in R0 by assumption. injection R0 as <-.
  rewrite lut_read_fill in R1 by assumption. injection R1 as <-.
  eexists (fill cell), _, _, _.
  split; [exact EL|]. split; [apply Hc|]. split; [apply Hc|].
  split.
  { unfold ApplyLUT. cbn [firstn mapM]. change EXTRAPOLATE_LUT with true.
    rewrite E. reflexivity. }
  set (lo := cell (i0 a2) (i0 a1) (i0 a0)) in *.
  set (hi := cell (i1 a2) (i1 a1) (i1 a0)) in *.
  pose proof (chan_wf lo j W0) as B0. pose proof (chan_wf hi j W1) as B1.
  assert (Hq : chan {| c0 := clamp255 (blend (s a0) (c0 lo) (c0 hi));
                       c1 := clamp255 (blend (s a1) (c1 lo) (c1 hi));
                       c2 := clamp255 (blend (s a2) (c2 lo) (c2 hi));
                       c3 := 255 |} j
               = clamp255 (blend (s (axis_of true (chan p j))) (chan lo j) (chan hi j))).
  { subst a0 a1 a2. destruct j as [|[|[|j]]]; try reflexivity. lia. }
  rewrite Hq. rewrite axis_of_interior by exact Hv. cbn [s].
  assert (Hw : (0 <= (chan p j + 4) mod 8 <= 8)%Z).
  { pose proof (Z.mod_pos_bound (chan p j + 4) 8). lia. }
  pose proof (blend_between _ (chan lo j) (chan hi j) Hw) as Hb.
  rewrite clamp255_id by lia. exact Hb.
Qed.

Lemma CreateLUT_then_ApplyLUT_witness :
  wf_pixel (mkRGBA32 100 4 251 255) = true /\ (0 < 3)%nat /\
  (4 <= chan (mkRGBA32 100 4 251 255) 0 < 252)%Z /\
  exists rgbLUT lo hi q,
    CreateLUT (fun _ => 0%Z) Scenarios.grey_of_green = Ok rgbLUT /\
    CreateLUT_cell (fun _ => 0%Z) Scenarios.grey_of_green 30 0 12 = Ok lo /\
    CreateLUT_cell (fun _ => 0%Z) Scenarios.grey_of_green 31 1 13 = Ok hi /\
    ApplyLUT rgbLUT 1 [mkRGBA32 100 4 251 255] = Ok [q] /\
    (Z.min (c0 lo) (c0 hi) <= c0 q <= Z.max (c0 lo) (c0 hi))%Z.
Proof.
  split; [reflexivity|]. split; [lia|]. split; [cbn; lia|].
  apply (CreateLUT_then_ApplyLUT (fun _ => 0%Z) Scenarios.grey_of_green
           (mkRGBA32 100 4 251 255) 0 eq_refl (Nat.lt_0_succ 2)).
  cbn. lia.
Defined.

(** ** File names *)

(** X1. On the cube of [CreateIdentityLUT], [ApplyLUT] returns the three
    colour bytes of every 8-bit pixel exactly, with alpha 255, for the
    first [n] pixels of the image. *)
Theorem identity_LUT_exact (n : nat) (dataIn : list RGBA32) :
  forallb wf_pixel dataIn = true ->
  ApplyLUT CreateIdentityLUT n dataIn
  = Ok (map (fun p => mkRGBA32 (c0 p) (c1 p) (c2 p) 255) (firstn n dataIn)).
Proof.
  intros Hwf. unfold ApplyLUT. apply mapM_map. intros p Hp.
  apply ApplyLUT_pixel_identity.
  rewrite forallb_forall in Hwf. apply Hwf. exact (In_firstn _ _ _ Hp).
Qed.

Lemma identity_LUT_exact_witness :
  forallb wf_pixel [mkRGBA32 0 3 255 8; mkRGBA32 252 4 100 255] = true /\
  ApplyLUT CreateIdentityLUT 5 [mkRGBA32 0 3 255 8; mkRGBA32 252 4 100 255]
  = Ok [mkRGBA32 0 3 255 255; mkRGBA32 252 4 100 255].
Proof.
  split; [reflexivity|].
  exact (identity_LUT_exact 5 [mkRGBA32 0 3 255 8; mkRGBA32 252 4 100 255] eq_refl).
Defined.

Lemma ApplyMonoLUT_luminance_witness :
  length Examples.grey_ramp = 256%nat /\
  forallb wf_pixel [mkRGBA32 10 200 30 255] = true /\
  exists dataOut,
    ApplyMonoLUT Examples.grey_ramp 1 [mkRGBA32 10 200 30 255] (-1) = Ok dataOut /\
    Forall2 (fun p q =>
               exists idx,
                 (Z.min (c0 p) (Z.min (c1 p) (c2 p)) <= idx
                  <= Z.max (c0 p) (Z.max (c1 p) (c2 p)))%Z /\
                 nth_error Examples.grey_ramp (Z.to_nat idx) = Some q)
            (firstn 1 [mkRGBA32 10 200 30 255]) dataOut.
Proof.
  split; [reflexivity|]. split; [reflexivity|].
  apply (ApplyMonoLUT_luminance Examples.grey_ramp 1 [mkRGBA32 10 200 30 255] (-1)
           eq_refl eq_refl).
  reflexivity.
Defined.

Lemma ApplyMonoLUT_channel_witness :
  length Examples.grey_ramp = 256%nat /\
  forallb wf_pixel [mkRGBA32 10 200 30 255] = true /\
  exists dataOut,
    ApplyMonoLUT Examples.grey_ramp 1 [mkRGBA32 10 200 30 255] 1 = Ok dataOut /\
    Forall2 (fun p q =>
               nth_error Examples.grey_ramp (Z.to_nat (chan p (Z.to_nat 1))) = Some q)
            (firstn 1 [mkRGBA32 10 200 30 255]) dataOut.
Proof.
  split; [reflexivity|]. split; [reflexivity|].
  apply (ApplyMonoLUT_channel Examples.grey_ramp 1 [mkRGBA32 10 200 30 255] 1
           eq_refl eq_refl).
  lia.
Defined.

Lemma swatch_in_gamut_witness :
  (0 <= 0 < 256)%Z /\ (0 <= 255 < 256)%Z /\
  exists p, swatch_pixel 0 255 = Ok p.
Proof.
  split; [lia|]. split; [lia|].
  refine (proj2 (proj2 (swatch_in_gamut 0 255 _ _))); lia.
Defined.

Local Open Scope nat_scope.

Lemma In_skipn {A : Type} (n : nat) (l : list A) (a : A) :
  In a (skipn n l) -> In a l.
Proof.
  intros H. rewrite <- (firstn_skipn n l). apply in_or_app. right. exact H.
Qed.

Lemma strrchr_None (s : cstr) (c : ascii) : strrchr s c = None <-> ~ In c s.
Proof.
  induction s as [|a s IH]; cbn [strrchr In]; [tauto|].
  destruct (strrchr s c) as [i|].
  - split; [discriminate|]. intros H. exfalso. apply H. right.
    destruct (in_dec ascii_dec c s) as [Hin|Hnin]; [exact Hin|].
    apply IH in Hnin. discriminate.
  - destruct (Ascii.eqb_spec a c) as [->|Hne].
    + split; [discriminate|]. intros H. exfalso. apply H. left. reflexivity.
    + split; [|reflexivity]. intros _ [Heq|Hin]; [contradiction|].
      apply (proj1 IH); [reflexivity | exact Hin].
Qed.

(** The offset [strrchr] finds holds [c], and no [c] comes after it. *)
Lemma strrchr_Some (s : cstr) (c : ascii) (i : nat) :
  strrchr s c = Some i ->
  nth_error s i = Some c /\ ~ In c (skipn (S i) s).
Proof.
  revert i. induction s as [|a s IH]; cbn [strrchr]; intros i H; [discriminate|].
  destruct (strrchr s c) as [i'|] eqn:E.
  - injection H as <-. exact (IH i' eq_refl).
  - destruct (Ascii.eqb_spec a c) as [->|Hne]; [|discriminate].
    injection H as <-. split; [reflexivity|]. cbn [skipn].
    apply strrchr_None. exact E.
Qed.

Lemma strrchr_last (s1 s2 : cstr) (c : ascii) :
  ~ In c s2 -> strrchr (s1 ++ c :: s2) c = Some (length s1).
Proof.
  intros H. induction s1 as [|a s1 IH]; cbn [app strrchr length].
  - rewrite (proj2 (strrchr_None s2 c) H). rewrite Ascii.eqb_refl. reflexivity.
  - rewrite IH. reflexivity.
Qed.

Lemma skipn_app_cons {A : Type} (l1 l2 : list A) (a : A) :
  skipn (S (length l1)) (l1 ++ a :: l2) = l2.
Proof. induction l1 as [|b l1 IH]; [reflexivity | exact IH]. Qed.

Lemma firstn_app_exact {A : Type} (l1 l2 : list A) :
  firstn (length l1) (l1 ++ l2) = l1.
Proof. induction l1 as [|b l1 IH]; [apply firstn_O | cbn; f_equal; exact IH]. Qed.

(** X19. [GetFileName] of dir/base.ext is base, when base holds no
    slash, ext holds no slash and no dot, and base.ext fits the buffer. *)
Theorem GetFileName_strips (buffer dir base ext : cstr) (bufferSize : nat) :
  ~ In "/"%char base -> ~ In "/"%char ext -> ~ In "."%char ext ->
  length base + 1 + length ext < bufferSize ->
  GetFileName buffer bufferSize (dir ++ "/"%char :: base ++ "."%char :: ext) = base.
Proof.
  intros Hb He Hd Hlen. unfold GetFileName.
  assert (Hs : ~ In "/"%char (base ++ "."%char :: ext)).
  { intros H. apply in_app_or in H. destruct H as [H|[H|H]];
      [exact (Hb H) | discriminate | exact (He H)]. }
  rewrite (strrchr_last dir _ "/"%char Hs). rewrite skipn_app_cons.
  destruct bufferSize as [|m]; [lia|]. cbn [strlcpy].
  rewrite firstn_all2 by (rewrite length_app; cbn [length]; lia).
  rewrite (strrchr_last base ext "."%char Hd).
  apply firstn_app_exact.
Qed.

(** X20. For a buffer of at least one byte, the name [GetFileName]
    leaves is shorter than the buffer, is made of characters of the path,
    holds no slash, and holds no backslash when the path has no slash. *)
Theorem GetFileName_result (buffer path : cstr) (bufferSize : nat) :
  0 < bufferSize ->
  let name := GetFileName buffer bufferSize path in
  length name < bufferSize /\
  ~ In "/"%char name /\
  (~ In "/"%char path -> ~ In "\"%char name) /\
  (forall c, In c name -> In c path).
Proof.
  intros Hsz name. destruct bufferSize as [|m]; [lia|].
  set (lastSlash := match strrchr path "/"%char with
                    | Some i => Some i
                    | None => strrchr path "\"%char
                    end).
  set (buf := match lastSlash with
              | Some i => strlcpy buffer (skipn (S i) path) (S m)
              | None => strlcpy buffer path (S m)
              end).
  assert (Hname : name = match strrchr buf "."%char with
                         | Some i => firstn i buf
                         | None => buf
                         end) by reflexivity.
  assert (Hsub : forall c, In c name -> In c buf).
  { intros c. rewrite Hname. destruct (strrchr buf "."%char); [apply In_firstn | tauto]. }
  assert (Hlenn : length name <= length buf).
  { rewrite Hname. destruct (strrchr buf "."%char) as [i|]; [|lia].
    rewrite length_firstn. lia. }
  assert (Hbuf : length buf <= m /\ (forall c, In c buf -> In c path) /\
                 ~ In "/"%char buf /\ (~ In "/"%char path -> ~ In "\"%char buf)).
  { subst buf lastSlash. cbn [strlcpy].
    destruct (strrchr path "/"%char) as [i|] eqn:E1.
    - destruct (strrchr_Some _ _ _ E1) as [_ Hno].
      split; [rewrite length_firstn; lia|]. split.
      + intros c Hc. apply In_firstn in Hc. exact (In_skipn _ _ _ Hc).
      + split.
        * intros Hc. apply In_firstn in Hc. exact (Hno Hc).
        * intros Hns. exfalso. apply Hns.
          destruct (strrchr_Some _ _ _ E1) as [Hn _].
          exact (nth_error_In _ _ Hn).
    - apply strrchr_None in E1.
      destruct (strrchr path "\"%char) as [i|] eqn:E2.
      + destruct (strrchr_Some _ _ _ E2) as [_ Hno].
        split; [rewrite length_firstn; lia|]. split.
        * intros c Hc. apply In_firstn in Hc. exact (In_skipn _ _ _ Hc).
        * split.
          -- intros Hc. apply In_firstn in Hc. apply In_skipn in Hc. exact (E1 Hc).
          -- intros _ Hc. apply In_firstn in Hc. exact (Hno Hc).
      + apply strrchr_None in E2.
        split; [rewrite length_firstn; lia|]. split.
        * intros c Hc. exact (In_firstn _ _ _ Hc).
        * split.
          -- intros Hc. apply In_firstn in Hc. exact (E1 Hc).
          -- intros _ Hc. apply In_firstn in Hc. exact (E2 Hc). }
  destruct Hbuf as (Hl & Hp & Hs & Hbs).
  split; [lia|]. split; [intros H; exact (Hs (Hsub _ H))|]. split.
  - intros Hns H. exact (Hbs Hns (Hsub _ H)).
  - intros c H. exact (Hp c (Hsub c H)).
Qed.

Lemma GetFileName_strips_witness :
  length ["i"; "s"; "h"; "i"; "h"; "a"; "r"; "a"; "."; "9"]%char + 1
    + length ["p"; "n"; "g"]%char < 256 /\
  GetFileName [] 256 Examples.sample_path
  = ["i"; "s"; "h"; "i"; "h"; "a"; "r"; "a"; "."; "9"]%char.
Proof.
  split; [cbn; lia|].
  apply (GetFileName_strips []
           ["o"; "u"; "t"; "/"; "t"; "e"; "s"; "t"; "."; "c"; "a"; "s"; "e"]%char
           ["i"; "s"; "h"; "i"; "h"; "a"; "r"; "a"; "."; "9"]%char
           ["p"; "n"; "g"]%char 256).
  - cbn. intros H. repeat (destruct H as [H|H]; [discriminate H|]). exact H.
  - cbn. intros H. repeat (destruct H as [H|H]; [discriminate H|]). exact H.
  - cbn. intros H. repeat (destruct H as [H|H]; [discriminate H|]). exact H.
  - cbn. lia.
Defined.

Lemma GetFileName_result_witness :
  0 < 8 /\
  length (GetFileName [] 8 Examples.sample_path) < 8 /\
  ~ In "/"%char (GetFileName [] 8 Examples.sample_path).
Proof.
  split; [lia|].
  destruct (GetFileName_result [] Examples.sample_path 8) as (Hl & Hs & _);
    [lia|].
  split; [exact Hl | exact Hs].
Defined.

(** * The deficiency engine in binary32 *)

#[local] Set Warnings "-notation-overridden".
Import Binary32 Rounding.
Local Open Scope Q_scope.

(** ** Rounding *)

Lemma rne_error (t : Q) : Qabs (inject_Z (rne t) - t) <= 1 # 2.
Proof.
  unfold rne. pose proof (Qfloor_le t) as L. pose proof (Qlt_floor t) as U.
  rewrite inject_Z_plus in U. change (inject_Z 1) with 1 in U.
  apply Qabs_Qle_condition.
  destruct (Qcompare (t - inject_Z (Qfloor t)) (1 # 2)) eqn:C.
  - apply Qeq_alt in C.
    destruct (Z.even (Qfloor t)); [|rewrite inject_Z_plus; change (inject_Z 1) with 1];
      split; Lqa.lra.
  - apply Qlt_alt in C. split; Lqa.lra.
  - apply Qgt_alt in C. rewrite inject_Z_plus. change (inject_Z 1) with 1.
    split; Lqa.lra.
Qed.

Lemma pow2_pos (e : Z) : 0 < 2 ^ e.
Proof. apply Qpower_0_lt. reflexivity. Qed.

Lemma pow2_plus (a b : Z) : 2 ^ (a + b) == 2 ^ a * 2 ^ b.
Proof. apply Qpower_plus. discriminate. Qed.

Lemma pow2_le (a b : Z) : (a <= b)%Z -> 2 ^ a <= 2 ^ b.
Proof. intros H. apply Qpower_le_compat_l; [exact H|]. discriminate. Qed.

Lemma pow2_Z (n : Z) : (0 <= n)%Z -> 2 ^ n == inject_Z (2 ^ n).
Proof. intros H. rewrite Zpower_Qpower by exact H. reflexivity. Qed.

Lemma frac_le (a b c d : Q) : 0 <= a <= c -> 0 < d <= b -> a / b <= c / d.
Proof.
  intros [Ha Hac] [Hd Hdb].
  apply Qle_shift_div_r; [Lqa.lra|].
  assert (T : c / d * d == c) by (field; Lqa.lra).
  assert (T0 : 0 <= c / d).
  { apply Qle_shift_div_l; [exact Hd | Lqa.lra]. }
  assert (M : c / d * d <= c / d * b).
  { rewrite !(Qmult_comm (c / d)). apply Qmult_le_compat_r; assumption. }
  Lqa.lra.
Qed.

Lemma Qabs_Qmake (q : Q) : Qabs q == inject_Z (Z.abs (Qnum q)) / inject_Z (Zpos (Qden q)).
Proof. destruct q as [a b]. cbn [Qabs Qnum Qden]. apply Qmake_Qdiv. Qed.

Lemma inject_Z_gt0 (n : Z) : (0 < n)%Z -> 0 < inject_Z n.
Proof. intros H. change 0 with (inject_Z 0). rewrite <- Zlt_Qlt. exact H. Qed.

Lemma mag_lower (q : Q) : ~ q == 0 -> 2 ^ mag q <= Qabs q.
Proof.
  intros Hq. unfold mag.
  set (n := Z.abs (Qnum q)). set (d := Zpos (Qden q)).
  destruct (Qle_bool (2 ^ (Z.log2 n - Z.log2 d)) (Qabs q)) eqn:C.
  - apply Qle_bool_iff. exact C.
  - assert (Hn : (0 < n)%Z).
    { subst n. destruct q as [a b]. unfold Qeq in Hq. cbn in *. lia. }
    assert (Hd : (0 < d)%Z) by (subst d; lia).
    destruct (Z.log2_spec n Hn) as [Ln _]. destruct (Z.log2_spec d Hd) as [_ Ud].
    pose proof (Z.log2_nonneg n). pose proof (Z.log2_nonneg d).
    replace (Z.log2 n - Z.log2 d - 1)%Z with (Z.log2 n - Z.succ (Z.log2 d))%Z by lia.
    rewrite Qpower_minus by discriminate.
    rewrite !pow2_Z by lia. rewrite Qabs_Qmake. fold n d.
    apply frac_le; split.
    + change 0 with (inject_Z 0). rewrite <- Zle_Qle. lia.
    + rewrite <- Zle_Qle. exact Ln.
    + apply inject_Z_gt0. exact Hd.
    + rewrite <- Zle_Qle. lia.
Qed.

Lemma mag_upper (q : Q) : ~ q == 0 -> Qabs q < 2 ^ (mag q + 1).
Proof.
  intros Hq. unfold mag.
  set (n := Z.abs (Qnum q)). set (d := Zpos (Qden q)).
  destruct (Qle_bool (2 ^ (Z.log2 n - Z.log2 d)) (Qabs q)) eqn:C.
  - assert (Hn : (0 < n)%Z).
    { subst n. destruct q as [a b]. unfold Qeq in Hq. cbn in *. lia. }
    assert (Hd : (0 < d)%Z) by (subst d; lia).
    destruct (Z.log2_spec n Hn) as [_ Un]. destruct (Z.log2_spec d Hd) as [Ld _].
    pose proof (Z.log2_nonneg n). pose proof (Z.log2_nonneg d).
    replace (Z.log2 n - Z.log2 d + 1)%Z with (Z.succ (Z.log2 n) - Z.log2 d)%Z by lia.
    rewrite Qpower_minus by discriminate.
    rewrite !pow2_Z by lia. rewrite Qabs_Qmake. fold n d.
    apply Qlt_shift_div_l; [apply inject_Z_gt0; lia|].
    assert (T : inject_Z n / inject_Z d * inject_Z d == inject_Z n).
    { field. intros E. pose proof (inject_Z_gt0 d Hd) as P. rewrite E in P. discriminate. }
    assert (T0 : 0 <= inject_Z n / inject_Z d).
    { apply Qle_shift_div_l; [apply inject_Z_gt0; exact Hd|].
      rewrite Qmult_0_l. change 0 with (inject_Z 0). rewrite <- Zle_Qle. lia. }
    assert (M : inject_Z n / inject_Z d * inject_Z (2 ^ Z.log2 d) <= inject_Z n / inject_Z d * inject_Z d).
    { rewrite !(Qmult_comm (inject_Z n / inject_Z d)). apply Qmult_le_compat_r; [|exact T0].
      rewrite <- Zle_Qle. exact Ld. }
    assert (U : inject_Z n < inject_Z (2 ^ Z.succ (Z.log2 n))) by (rewrite <- Zlt_Qlt; exact Un).
    Lqa.lra.
  - replace (Z.log2 n - Z.log2 d - 1 + 1)%Z with (Z.log2 n - Z.log2 d)%Z by lia.
    apply Qnot_le_lt. intros H. apply Qle_bool_iff in H. congruence.
Qed.

Lemma eta_pos : 0 < eta.
Proof. apply pow2_pos. Qed.

Lemma eta_small : eta <= 1 # 1024.
Proof. unfold eta. change (1 # 1024) with (2 ^ (-10)). apply pow2_le. lia. Qed.

Lemma Qabs_scale (a b s : Q) : 0 < s -> Qabs (a * s - b) == Qabs (a - b / s) * s.
Proof.
  intros Hs.
  setoid_replace (a * s - b) with ((a - b / s) * s) by (field; Lqa.lra).
  rewrite Qabs_Qmult, (Qabs_pos s) by Lqa.lra. reflexivity.
Qed.

(** The rounding before the check against [FLT_MAX]. *)
Lemma round_error (q : Q) :
  ~ q == 0 ->
  let e := Z.max (mag q - (prec - 1)) emin in
  Qabs (inject_Z (rne (q / 2 ^ e)) * 2 ^ e - q) <= eps * Qabs q + eta.
Proof.
  intros Hq e. pose proof (pow2_pos e) as Pe.
  rewrite (Qabs_scale _ _ _ Pe).
  pose proof (rne_error (q / 2 ^ e)) as R.
  pose proof (Qabs_nonneg q) as A.
  pose proof eta_pos as Eta.
  assert (H : (1 # 2) * 2 ^ e <= eps * Qabs q + eta).
  { subst e. unfold prec, emin. destruct (Z.max_spec (mag q - (24 - 1)) (-149)) as [[_ ->]|[_ ->]].
    - change ((1 # 2) * 2 ^ (-149)) with ((1 # 2) * 2 ^ (-149)).
      assert (E : (1 # 2) * 2 ^ (-149) == eta) by reflexivity.
      rewrite E. unfold eps. Lqa.lra.
    - replace (mag q - (24 - 1))%Z with (mag q + -23)%Z by lia.
      rewrite pow2_plus.
      assert (E : (1 # 2) * (2 ^ mag q * 2 ^ (-23)) == eps * 2 ^ mag q).
      { unfold eps. change (2 ^ (-23)) with (1 # 8388608). field. }
      rewrite E. pose proof (mag_lower q Hq) as M. unfold eps in *. Lqa.lra. }
  eapply Qle_trans; [|exact H].
  apply Qmult_le_compat_r; [exact R | Lqa.lra].
Qed.

Lemma round32_spec (q B : Q) :
  Qabs q <= B -> B <= 2 ^ 127 ->
  exists r, round32 q = Fin r /\ Qabs (r - q) <= eps * B + eta.
Proof.
  intros HB HM. unfold round32.
  pose proof (Qred_correct q) as Hr. set (q' := Qred q) in *. cbv zeta.
  pose proof eta_pos as Eta. pose proof (Qabs_nonneg q) as A.
  destruct (Qeq_bool q' 0) eqn:Z0.
  - apply Qeq_bool_iff in Z0. exists 0. split; [reflexivity|].
    assert (E : 0 - q == 0) by (rewrite <- Hr, Z0; reflexivity).
    rewrite E. change (Qabs 0) with 0. unfold eps. Lqa.lra.
  - apply Qeq_bool_neq in Z0.
    pose proof (round_error q' Z0) as R. cbv zeta in R.
    set (e := Z.max (mag q' - (prec - 1)) emin) in *.
    set (m := inject_Z (rne (q' / 2 ^ e)) * 2 ^ e) in *.
    pose proof (Qred_correct m) as Hm.
    rewrite Hr in R.
    assert (Err : Qabs (Qred m - q) <= eps * Qabs q + eta).
    { rewrite Hm. exact R. }
    assert (Fin_ok : Qle_bool (Qabs (Qred m)) FLT_MAX = true).
    { apply Qle_bool_iff.
      pose proof (Qabs_triangle (Qred m - q) q) as T.
      setoid_replace (Qred m - q + q) with (Qred m) in T by ring.
      pose proof eta_small.
      assert (E127 : 2 ^ 127 == 170141183460469231731687303715884105728) by reflexivity.
      assert (EM : FLT_MAX == 340282346638528859811704183484516925440) by reflexivity.
      rewrite EM. rewrite E127 in HM. unfold eps in *. Lqa.lra. }
    rewrite Fin_ok. exists (Qred m). split; [reflexivity|].
    eapply Qle_trans; [exact Err|]. unfold eps. 
    assert (eps * Qabs q <= eps * B).
    { unfold eps. Lqa.lra. }
    unfold eps in *. Lqa.lra.
Qed.

Lemma round32_zero (q : Q) : q == 0 -> round32 q = Fin 0.
Proof.
  intros H. unfold round32. cbv zeta.
  assert (E : Qeq_bool (Qred q) 0 = true).
  { apply Qeq_bool_iff. rewrite Qred_correct. exact H. }
  rewrite E. reflexivity.
Qed.

Lemma round32_ext (p q : Q) : p == q -> round32 p = round32 q.
Proof. intros H. unfold round32. rewrite (Qred_complete p q H). reflexivity. Qed.

(** ** Error of one operation and of a dot product *)

Lemma pow2_126 : 2 ^ 126 == 85070591730234615865843651857942052864.
Proof. reflexivity. Qed.

Lemma pow2_127 : 2 ^ 127 == 170141183460469231731687303715884105728.
Proof. reflexivity. Qed.

Lemma round32_within (q B : Q) :
  - B <= q <= B -> B <= 2 ^ 127 ->
  exists r, round32 q = Fin r /\ - (eps * B + eta) <= r - q <= eps * B + eta.
Proof.
  intros HB HM. apply Qabs_Qle_condition in HB.
  destruct (round32_spec q B HB HM) as (r & E & H).
  exists r. split; [exact E|]. apply Qabs_Qle_condition. exact H.
Qed.

Lemma fmul_within (p q B : Q) :
  - B <= p * q <= B -> B <= 2 ^ 127 ->
  exists r, Fin p *f Fin q = Fin r /\ - (eps * B + eta) <= r - p * q <= eps * B + eta.
Proof. apply round32_within. Qed.

Lemma fadd_within (p q B : Q) :
  - B <= p + q <= B -> B <= 2 ^ 127 ->
  exists r, Fin p +f Fin q = Fin r /\ - (eps * B + eta) <= r - (p + q) <= eps * B + eta.
Proof. apply round32_within. Qed.

Lemma fsub_within (p q B : Q) :
  - B <= p - q <= B -> B <= 2 ^ 127 ->
  exists r, Fin p -f Fin q = Fin r /\ - (eps * B + eta) <= r - (p - q) <= eps * B + eta.
Proof. apply round32_within. Qed.

(** [dot] of two finite vectors whose three products are bounded by
    [P1], [P2] and [P3]. *)
Lemma dot_within (a1 a2 a3 v1 v2 v3 P1 P2 P3 : Q) :
  - P1 <= a1 * v1 <= P1 -> - P2 <= a2 * v2 <= P2 -> - P3 <= a3 * v3 <= P3 ->
  P1 + P2 + P3 <= 2 ^ 126 ->
  exists r,
    dot (vec a1 a2 a3) (vec v1 v2 v3) = Fin r /\
    - (gamma3 * (P1 + P2 + P3) + 6 * eta)
      <= r - (a1 * v1 + a2 * v2 + a3 * v3)
      <= gamma3 * (P1 + P2 + P3) + 6 * eta.
Proof.
  intros H1 H2 H3 HM. rewrite pow2_126 in HM.
  pose proof eta_pos as Eta. pose proof eta_small as Eta1.
  assert (M127 : forall B, B <= 170141183460469231731687303715884105728 -> B <= 2 ^ 127).
  { intros B HB. rewrite pow2_127. exact HB. }
  unfold dot, vec. cbn [x y z].
  destruct (fmul_within a1 v1 P1 H1) as (p1 & -> & E1); [apply M127; Lqa.lra|].
  destruct (fmul_within a2 v2 P2 H2) as (p2 & -> & E2); [apply M127; Lqa.lra|].
  destruct (fmul_within a3 v3 P3 H3) as (p3 & -> & E3); [apply M127; Lqa.lra|].
  unfold eps in *.
  destruct (fadd_within p1 p2 ((1 + eps) * (P1 + P2) + 2 * eta)) as (s1 & -> & F1);
    [unfold eps; split; Lqa.lra | apply M127; unfold eps; Lqa.lra |].
  destruct (fadd_within s1 p3 ((1 + eps) * ((1 + eps) * (P1 + P2) + 2 * eta) + eta
                               + (1 + eps) * P3 + eta)) as (s2 & -> & F2);
    [unfold eps in *; split; Lqa.lra | apply M127; unfold eps in *; Lqa.lra |].
  exists s2. split; [reflexivity|]. unfold eps, gamma3 in *. split; Lqa.lra.
Qed.

(** ** A [float] rounds to itself *)

Lemma rne_Z (t : Q) (k : Z) : t == inject_Z k -> rne t = k.
Proof.
  intros H. unfold rne. rewrite (Qfloor_comp _ _ H), Qfloor_Z.
  assert (E : t - inject_Z k == 0) by (rewrite H; ring).
  rewrite (Qcompare_comp _ _ E _ _ (Qeq_refl (1 # 2))). reflexivity.
Qed.

Lemma rne_le (t : Q) (n : Z) : t <= inject_Z n -> (rne t <= n)%Z.
Proof.
  intros H. unfold rne.
  pose proof (Qfloor_le t) as L. pose proof (Qlt_floor t) as U.
  rewrite inject_Z_plus in U. change (inject_Z 1) with 1 in U.
  assert (F : (Qfloor t <= n)%Z).
  { rewrite Zle_Qle. Lqa.lra. }
  destruct (Z.eq_dec (Qfloor t) n) as [E|NE].
  - assert (C : Qcompare (t - inject_Z (Qfloor t)) (1 # 2) = Lt).
    { apply (proj1 (Qlt_alt _ _)). subst n. Lqa.lra. }
    rewrite C. lia.
  - destruct (Qcompare (t - inject_Z (Qfloor t)) (1 # 2)); [destruct (Z.even _)| |]; lia.
Qed.

Lemma rne_ge (t : Q) (n : Z) : inject_Z n <= t -> (n <= rne t)%Z.
Proof.
  intros H. unfold rne.
  assert (F : (n <= Qfloor t)%Z).
  { rewrite <- (Qfloor_Z n). apply Qfloor_resp_le. exact H. }
  destruct (Qcompare (t - inject_Z (Qfloor t)) (1 # 2)); [destruct (Z.even _)| |]; lia.
Qed.

Lemma mag_le (q : Q) (k : Z) : ~ q == 0 -> Qabs q < 2 ^ (k + 1) -> (mag q <= k)%Z.
Proof.
  intros Hq H. pose proof (mag_lower q Hq) as L.
  assert (T : 2 ^ mag q < 2 ^ (k + 1)) by (eapply Qle_lt_trans; eassumption).
  apply Qpower_lt_compat_l_inv in T; [lia | reflexivity].
Qed.

Lemma mag_ge (q : Q) (k : Z) : ~ q == 0 -> 2 ^ k <= Qabs q -> (k <= mag q)%Z.
Proof.
  intros Hq H. pose proof (mag_upper q Hq) as U.
  assert (T : 2 ^ k < 2 ^ (mag q + 1)) by (eapply Qle_lt_trans; eassumption).
  apply Qpower_lt_compat_l_inv in T; [lia | reflexivity].
Qed.

(** A multiple [m * 2^e] of at most 24 bits, on the grid or above it. *)
Lemma round32_multiple (m e : Z) :
  (Z.abs m <= 2 ^ 24)%Z -> (emin <= e)%Z ->
  Qabs (inject_Z m * 2 ^ e) <= FLT_MAX ->
  round32 (inject_Z m * 2 ^ e) = Fin (Qred (inject_Z m * 2 ^ e)).
Proof.
  intros Hm He HF. set (r := inject_Z m * 2 ^ e) in *.
  unfold round32. cbv zeta.
  pose proof (Qred_correct r) as Hr. set (r' := Qred r) in *.
  pose proof (pow2_pos e) as Pe.
  destruct (Qeq_bool r' 0) eqn:Z0.
  - apply Qeq_bool_iff in Z0. f_equal. symmetry.
    apply (Qred_complete r 0). rewrite <- Hr. exact Z0.
  - apply Qeq_bool_neq in Z0.
    assert (Hm0 : m <> 0%Z).
    { intros ->. apply Z0. rewrite Hr. subst r. ring. }
    assert (Ar : Qabs r' == inject_Z (Z.abs m) * 2 ^ e).
    { rewrite Hr. subst r. rewrite Qabs_Qmult, (Qabs_pos (2 ^ e)) by Lqa.lra.
      reflexivity. }
    set (e2 := Z.max (mag r' - (prec - 1)) emin).
    (* the grid of r' is not coarser than 2^e, unless m is 2^24 *)
    assert (K : exists k, r' / 2 ^ e2 == inject_Z k).
    { destruct (Z.eq_dec (Z.abs m) (2 ^ 24)) as [Em|Nm].
      - assert (M : mag r' = (e + 24)%Z).
        { assert (A2 : Qabs r' == 2 ^ (e + 24)).
          { rewrite Ar, Em, Z.add_comm, pow2_plus, <- pow2_Z by lia. reflexivity. }
          apply Z.le_antisymm.
          - apply mag_le; [exact Z0|]. rewrite A2.
            apply Qpower_lt_compat_l; [lia | reflexivity].
          - apply mag_ge; [exact Z0|]. rewrite A2. apply Qle_refl. }
        assert (E2 : e2 = (e + 1)%Z) by (subst e2; unfold prec, emin in *; lia).
        exists (m / 2)%Z. rewrite E2, Hr. subst r.
        assert (D : m = (2 * (m / 2))%Z).
        { assert (Z.abs m mod 2 = 0)%Z by (rewrite Em; reflexivity).
          destruct (Z.abs_spec m) as [[_ A]|[_ A]]; rewrite A in *.
          - apply Z.div_exact; lia.
          - assert ((- m) mod 2 = 0)%Z by assumption.
            assert (m mod 2 = 0)%Z by (Z.div_mod_to_equations; lia).
            apply Z.div_exact; lia. }
        rewrite D at 1. rewrite inject_Z_mult, pow2_plus.
        change (2 ^ 1) with 2. change (inject_Z 2) with 2. field.
        intros E0. rewrite E0 in Pe. discriminate.
      - assert (M : (mag r' <= e + 23)%Z).
        { apply mag_le; [exact Z0|]. rewrite Ar.
          replace (e + 23 + 1)%Z with (24 + e)%Z by lia. rewrite pow2_plus.
          apply Qmult_lt_compat_r; [exact Pe|].
          rewrite pow2_Z by lia. rewrite <- Zlt_Qlt. lia. }
        assert (E2 : (e2 <= e)%Z) by (subst e2; unfold prec, emin in *; lia).
        exists (m * 2 ^ (e - e2))%Z. rewrite Hr. subst r.
        rewrite inject_Z_mult, <- pow2_Z by lia.
        rewrite Qpower_minus by discriminate. field.
        pose proof (pow2_pos e2) as P2. intros E0. rewrite E0 in P2. discriminate. }
    destruct K as (k & Hk). fold e2. rewrite (rne_Z _ _ Hk).
    assert (V : inject_Z k * 2 ^ e2 == r').
    { rewrite <- Hk. field. pose proof (pow2_pos e2) as P2.
      intros E0. rewrite E0 in P2. discriminate. }
    rewrite (Qred_complete _ _ V).
    assert (I : Qred r' = r') by (apply Qred_complete; exact Hr).
    rewrite I.
    assert (Fok : Qle_bool (Qabs r') FLT_MAX = true).
    { apply Qle_bool_iff. rewrite Hr. exact HF. }
    rewrite Fok. reflexivity.
Qed.

Lemma round32_idem (q r : Q) : round32 q = Fin r -> round32 r = Fin r.
Proof.
  unfold round32 at 1. cbv zeta.
  set (q' := Qred q).
  destruct (Qeq_bool q' 0) eqn:Z0.
  - intros H. injection H as <-. reflexivity.
  - apply Qeq_bool_neq in Z0.
    set (e := Z.max (mag q' - (prec - 1)) emin).
    set (m := rne (q' / 2 ^ e)).
    destruct (Qle_bool (Qabs (Qred (inject_Z m * 2 ^ e))) FLT_MAX) eqn:F; [|discriminate].
    intros H. replace r with (Qred (inject_Z m * 2 ^ e)) by congruence. clear H.
    apply Qle_bool_iff in F. rewrite Qred_correct in F.
    pose proof (pow2_pos e) as Pe.
    assert (T : Qabs (q' / 2 ^ e) <= inject_Z (2 ^ 24)).
    { unfold Qdiv. rewrite Qabs_Qmult, Qabs_Qinv, (Qabs_pos (2 ^ e)) by Lqa.lra.
      apply Qle_shift_div_r; [exact Pe|].
      rewrite <- pow2_Z, <- pow2_plus by lia.
      apply Qlt_le_weak. eapply Qlt_le_trans; [apply (mag_upper q' Z0)|].
      apply pow2_le. subst e. unfold prec. lia. }
    apply Qabs_Qle_condition in T. destruct T as [T1 T2].
    assert (Hm : (Z.abs m <= 2 ^ 24)%Z).
    { subst m. rewrite <- inject_Z_opp in T1.
      apply rne_ge in T1. apply rne_le in T2. lia. }
    rewrite (round32_ext (Qred (inject_Z m * 2 ^ e)) (inject_Z m * 2 ^ e)
               (Qred_correct _)).
    rewrite round32_multiple; [reflexivity | exact Hm | subst e; lia | exact F].
Qed.

(** ** The constants *)

Lemma kLMSFromRGB_val :
  kLMSFromRGB =
  mkMat3f (vec (10535763 # 33554432) (10729247 # 16777216) (12481591 # 268435456))
          (vec (5213433 # 33554432) (12715359 # 16777216) (2909217 # 33554432))
          (vec (4765371 # 268435456) (14689069 # 134217728) (7319641 # 8388608)).
Proof. vm_compute. reflexivity. Qed.

Lemma kRGBFromLMS_val :
  kRGBFromLMS =
  mkMat3f (vec (2869015 # 524288) (-608431 # 131072) (1423019 # 8388608))
          (vec (-9439213 # 8388608) (601141 # 262144) (-1408407 # 8388608))
          (vec (15999639 # 536870912) (-12964139 # 67108864) (4880693 # 4194304)).
Proof. vm_compute. reflexivity. Qed.

Lemma kLMSSimulate_val :
  kLMSSimulate =
  mkMat3f (vec 0 (4408981 # 4194304) (-858339 # 16777216))
          (vec (62345 # 65536) 0 (3266183 # 67108864))
          (vec (-1819169 # 2097152) (3915951 # 2097152) 0).
Proof. vm_compute. reflexivity. Qed.


Lemma kLMSProtanope_val :
  kLMSProtanope =
  mkMat3f (vec 0 (4408981 # 4194304) (-858339 # 16777216))
          (vec 0 1 0)
          (vec 0 0 1).
Proof. vm_compute. reflexivity. Qed.

Lemma kLMSDeuteranope_val :
  kLMSDeuteranope =
  mkMat3f (vec 1 0 0)
          (vec (62345 # 65536) 0 (3266183 # 67108864))
          (vec 0 0 1).
Proof. vm_compute. reflexivity. Qed.

Lemma kLMSTritanope_val :
  kLMSTritanope =
  mkMat3f (vec 1 0 0)
          (vec 0 1 0)
          (vec (-1819169 # 2097152) (3915951 # 2097152) 0).
Proof. vm_compute. reflexivity. Qed.


(** ** To LMS and back *)

Lemma pow2_100 : 2 ^ 100 == 1267650600228229401496703205376.
Proof. reflexivity. Qed.

Lemma fadd_float (a b : float) (r : Q) : a +f b = Fin r -> round32 r = Fin r.
Proof. destruct a, b; try discriminate. apply round32_idem. Qed.

Lemma dot_float (a b : Vec3f) (r : Q) : dot a b = Fin r -> round32 r = Fin r.
Proof. apply fadd_float. Qed.

Lemma LMS_round_trip_binary32 (c0 c1 c2 V : Q) :
  - V <= c0 <= V -> - V <= c1 <= V -> - V <= c2 <= V -> V <= 2 ^ 100 ->
  exists l0 l1 l2 r0 r1 r2,
    kLMSFromRGB *m vec c0 c1 c2 = vec l0 l1 l2 /\
    kRGBFromLMS *m vec l0 l1 l2 = vec r0 r1 r2 /\
    (round32 l0 = Fin l0 /\ round32 l1 = Fin l1 /\ round32 l2 = Fin l2) /\
    (- ((1000002 # 1000000) * V + 6 * eta) <= l0 <= (1000002 # 1000000) * V + 6 * eta /\
     - ((1000002 # 1000000) * V + 6 * eta) <= l1 <= (1000002 # 1000000) * V + 6 * eta /\
     - ((1000002 # 1000000) * V + 6 * eta) <= l2 <= (1000002 # 1000000) * V + 6 * eta) /\
    (- (33 * FLT_EPSILON * V + 68 * eta) <= r0 - c0 <= 33 * FLT_EPSILON * V + 68 * eta /\
     - (12 * FLT_EPSILON * V + 28 * eta) <= r1 - c1 <= 12 * FLT_EPSILON * V + 28 * eta /\
     - (5 * FLT_EPSILON * V + 15 * eta) <= r2 - c2 <= 5 * FLT_EPSILON * V + 15 * eta).
Proof.
  intros H0 H1 H2 HV. rewrite pow2_100 in HV.
  pose proof eta_pos as Eta. pose proof eta_small as Eta1.
  assert (M126 : forall B, B <= 85070591730234615865843651857942052864 -> B <= 2 ^ 126).
  { intros B HB. rewrite pow2_126. exact HB. }
  rewrite kLMSFromRGB_val, kRGBFromLMS_val. unfold mulmv. cbn [mx my mz].
  destruct (dot_within (10535763 # 33554432) (10729247 # 16777216) (12481591 # 268435456)
              c0 c1 c2
              ((10535763 # 33554432) * V) ((10729247 # 16777216) * V)
              ((12481591 # 268435456) * V))
    as (l0 & E0 & B0); [split; Lqa.lra | split; Lqa.lra | split; Lqa.lra | apply M126; Lqa.lra |].
  destruct (dot_within (5213433 # 33554432) (12715359 # 16777216) (2909217 # 33554432)
              c0 c1 c2
              ((5213433 # 33554432) * V) ((12715359 # 16777216) * V)
              ((2909217 # 33554432) * V))
    as (l1 & E1 & B1); [split; Lqa.lra | split; Lqa.lra | split; Lqa.lra | apply M126; Lqa.lra |].
  destruct (dot_within (4765371 # 268435456) (14689069 # 134217728) (7319641 # 8388608)
              c0 c1 c2
              ((4765371 # 268435456) * V) ((14689069 # 134217728) * V)
              ((7319641 # 8388608) * V))
    as (l2 & E2 & B2); [split; Lqa.lra | split; Lqa.lra | split; Lqa.lra | apply M126; Lqa.lra |].
  rewrite E0, E1, E2.
  set (L := (1000002 # 1000000) * V + 6 * eta).
  assert (L0 : - L <= l0 <= L) by (subst L; unfold gamma3 in *; split; Lqa.lra).
  assert (L1 : - L <= l1 <= L) by (subst L; unfold gamma3 in *; split; Lqa.lra).
  assert (L2 : - L <= l2 <= L) by (subst L; unfold gamma3 in *; split; Lqa.lra).
  destruct (dot_within (2869015 # 524288) (-608431 # 131072) (1423019 # 8388608)
              l0 l1 l2
              ((2869015 # 524288) * L) ((608431 # 131072) * L) ((1423019 # 8388608) * L))
    as (r0 & F0 & C0);
    [subst L; split; Lqa.lra | subst L; split; Lqa.lra | subst L; split; Lqa.lra
    | apply M126; subst L; Lqa.lra |].
  destruct (dot_within (-9439213 # 8388608) (601141 # 262144) (-1408407 # 8388608)
              l0 l1 l2
              ((9439213 # 8388608) * L) ((601141 # 262144) * L) ((1408407 # 8388608) * L))
    as (r1 & F1 & C1);
    [subst L; split; Lqa.lra | subst L; split; Lqa.lra | subst L; split; Lqa.lra
    | apply M126; subst L; Lqa.lra |].
  destruct (dot_within (15999639 # 536870912) (-12964139 # 67108864) (4880693 # 4194304)
              l0 l1 l2
              ((15999639 # 536870912) * L) ((12964139 # 67108864) * L) ((4880693 # 4194304) * L))
    as (r2 & F2 & C2);
    [subst L; split; Lqa.lra | subst L; split; Lqa.lra | subst L; split; Lqa.lra
    | apply M126; subst L; Lqa.lra |].
  exists l0, l1, l2, r0, r1, r2.
  split; [reflexivity|]. split; [rewrite F0, F1, F2; reflexivity|].
  split; [repeat split; eapply dot_float; eassumption|].
  split; [exact (conj L0 (conj L1 L2))|].
  subst L. unfold gamma3, FLT_EPSILON in *.
  split; [|split]; split; Lqa.lra.
Qed.

(** ** Exact operations *)

Lemma fmul_0_l (t : Q) : Fin 0 *f Fin t = Fin 0.
Proof. apply round32_zero. ring. Qed.

Lemma fmul_0_r (t : Q) : Fin t *f Fin 0 = Fin 0.
Proof. apply round32_zero. ring. Qed.

Lemma fmul_1_l (t : Q) : round32 t = Fin t -> Fin 1 *f Fin t = Fin t.
Proof. intros H. cbn [fmul]. rewrite (round32_ext (1 * t) t) by ring. exact H. Qed.

Lemma fadd_0_r (t : Q) : round32 t = Fin t -> Fin t +f Fin 0 = Fin t.
Proof. intros H. cbn [fadd]. rewrite (round32_ext (t + 0) t) by ring. exact H. Qed.

Lemma fadd_0_l (t : Q) : round32 t = Fin t -> Fin 0 +f Fin t = Fin t.
Proof. intros H. cbn [fadd]. rewrite (round32_ext (0 + t) t) by ring. exact H. Qed.

Lemma fsub_float (a b : float) (r : Q) : a -f b = Fin r -> round32 r = Fin r.
Proof. destruct a, b; try discriminate. apply round32_idem. Qed.

Lemma dot_0_r (a1 a2 a3 : Q) : dot (vec a1 a2 a3) (vec 0 0 0) = Fin 0.
Proof. unfold dot, vec. cbn [x y z]. rewrite !fmul_0_r. reflexivity. Qed.

Lemma dot_unit_x (l0 l1 l2 : Q) :
  round32 l0 = Fin l0 -> dot (vec 1 0 0) (vec l0 l1 l2) = Fin l0.
Proof.
  intros H. unfold dot, vec. cbn [x y z].
  rewrite (fmul_1_l _ H), !fmul_0_l, (fadd_0_r _ H), (fadd_0_r _ H). reflexivity.
Qed.

Lemma dot_unit_y (l0 l1 l2 : Q) :
  round32 l1 = Fin l1 -> dot (vec 0 1 0) (vec l0 l1 l2) = Fin l1.
Proof.
  intros H. unfold dot, vec. cbn [x y z].
  rewrite (fmul_1_l _ H), !fmul_0_l, (fadd_0_l _ H), (fadd_0_r _ H). reflexivity.
Qed.

Lemma dot_unit_z (l0 l1 l2 : Q) :
  round32 l2 = Fin l2 -> dot (vec 0 0 1) (vec l0 l1 l2) = Fin l2.
Proof.
  intros H. unfold dot, vec. cbn [x y z].
  rewrite (fmul_1_l _ H), !fmul_0_l.
  change (Fin 0 +f Fin 0) with (Fin 0). apply (fadd_0_l _ H).
Qed.

(** ** Magnitudes: no operation overflows *)

Lemma bounded_mono (k k' : Z) (a : float) : (k <= k')%Z -> bounded k a -> bounded k' a.
Proof.
  intros Hk (q & E & H). exists q. split; [exact E|].
  eapply Qle_trans; [exact H | apply pow2_le; exact Hk].
Qed.

Lemma pow2_ge_1 (k : Z) : (0 <= k)%Z -> 1 <= 2 ^ k.
Proof. intros H. change 1 with (2 ^ 0). apply pow2_le. exact H. Qed.

Lemma pow2_succ (k : Z) : 2 ^ (k + 1) == 2 * 2 ^ k.
Proof. rewrite pow2_plus. change (2 ^ 1) with 2. ring. Qed.

Lemma dot_bounded (k j : Z) (a v : Vec3f) :
  vbounded k a -> vbounded j v -> (0 <= k + j <= 124)%Z ->
  bounded (k + j + 2) (dot a v).
Proof.
  intros ((a1 & Ea1 & Ha1) & (a2 & Ea2 & Ha2) & (a3 & Ea3 & Ha3))
         ((v1 & Ev1 & Hv1) & (v2 & Ev2 & Hv2) & (v3 & Ev3 & Hv3)) Hk.
  destruct a as [ax ay az], v as [vx vy vz]. cbn [x y z] in *. subst.
  set (T := 2 ^ (k + j)).
  assert (P : forall p q, Qabs p <= 2 ^ k -> Qabs q <= 2 ^ j -> - T <= p * q <= T).
  { intros p q Hp Hq. apply Qabs_Qle_condition. rewrite Qabs_Qmult. subst T.
    rewrite pow2_plus. apply Qmult_le_compat_nonneg; split;
      try apply Qabs_nonneg; assumption. }
  assert (T1 : 1 <= T) by (apply pow2_ge_1; lia).
  assert (T2 : T <= 2 ^ 124) by (apply pow2_le; lia).
  assert (E124 : 2 ^ 124 == 21267647932558653966460912964485513216) by reflexivity.
  rewrite E124 in T2.
  pose proof eta_pos as Eta. pose proof eta_small as Eta1.
  destruct (dot_within a1 a2 a3 v1 v2 v3 T T T) as (r & E & B);
    [apply P; assumption | apply P; assumption | apply P; assumption
    | rewrite pow2_126; Lqa.lra |].
  change (dot (vec a1 a2 a3) (vec v1 v2 v3) = Fin r) in E.
  exists r. split; [exact E|].
  pose proof (P a1 v1 Ha1 Hv1). pose proof (P a2 v2 Ha2 Hv2). pose proof (P a3 v3 Ha3 Hv3).
  replace (k + j + 2)%Z with (k + j + 1 + 1)%Z by lia. rewrite !pow2_succ. fold T.
  apply Qabs_Qle_condition. unfold gamma3 in *. split; Lqa.lra.
Qed.

Lemma mulmv_bounded (k j : Z) (m : Mat3f) (v : Vec3f) :
  mbounded k m -> vbounded j v -> (0 <= k + j <= 124)%Z ->
  vbounded (k + j + 2) (m *m v).
Proof.
  intros (H1 & H2 & H3) Hv Hk. unfold mulmv.
  split; [|split]; cbn [x y z]; apply dot_bounded; assumption.
Qed.

Lemma fsub_bounded (k : Z) (a b : float) :
  bounded k a -> bounded k b -> (0 <= k <= 125)%Z -> bounded (k + 2) (a -f b).
Proof.
  intros (p & -> & Hp) (q & -> & Hq) Hk.
  set (T := 2 ^ k) in *.
  assert (T1 : 1 <= T) by (apply pow2_ge_1; lia).
  assert (T2 : T <= 2 ^ 125) by (apply pow2_le; lia).
  assert (E125 : 2 ^ 125 == 42535295865117307932921825928971026432) by reflexivity.
  rewrite E125 in T2.
  pose proof eta_pos as Eta. pose proof eta_small as Eta1.
  apply Qabs_Qle_condition in Hp, Hq.
  destruct (fsub_within p q (2 * T)) as (r & E & B);
    [split; Lqa.lra | rewrite pow2_127; Lqa.lra |].
  exists r. split; [exact E|].
  replace (k + 2)%Z with (k + 1 + 1)%Z by lia. rewrite !pow2_succ. fold T.
  apply Qabs_Qle_condition. unfold eps in *. split; Lqa.lra.
Qed.

Lemma vsub_bounded (k : Z) (a b : Vec3f) :
  vbounded k a -> vbounded k b -> (0 <= k <= 125)%Z -> vbounded (k + 2) (a -v b).
Proof.
  intros (A1 & A2 & A3) (B1 & B2 & B3) Hk. unfold vsub.
  split; [|split]; cbn [x y z]; apply fsub_bounded; assumption.
Qed.

Lemma vbounded_mono (k k' : Z) (v : Vec3f) : (k <= k')%Z -> vbounded k v -> vbounded k' v.
Proof.
  intros Hk (A1 & A2 & A3). split; [|split]; eapply bounded_mono; eassumption.
Qed.

Lemma vbounded_vec (k : Z) (a b c : Q) :
  Qabs a <= 2 ^ k -> Qabs b <= 2 ^ k -> Qabs c <= 2 ^ k -> vbounded k (vec a b c).
Proof. intros Ha Hb Hc. split; [|split]; eexists; split; try reflexivity; assumption. Qed.

Lemma vbounded_inv (k : Z) (v : Vec3f) :
  vbounded k v -> exists a b c, v = vec a b c.
Proof.
  intros ((a & Ea & _) & (b & Eb & _) & (c & Ec & _)). exists a, b, c.
  destruct v. cbn in *. subst. reflexivity.
Qed.

Ltac closed_bounded :=
  eexists; split; [vm_compute; reflexivity | apply Qle_bool_iff; vm_compute; reflexivity].

Lemma kLMSFromRGBV_bounded : mbounded 6 kLMSFromRGBV.
Proof. repeat split; closed_bounded. Qed.

Lemma kRGBFromLMSV_bounded : mbounded 0 kRGBFromLMSV.
Proof. repeat split; closed_bounded. Qed.

Lemma kLMSProtanopeV_bounded : mbounded 2 kLMSProtanopeV.
Proof. repeat split; closed_bounded. Qed.

Lemma kLMSDeuteranopeV_bounded : mbounded 2 kLMSDeuteranopeV.
Proof. repeat split; closed_bounded. Qed.

Lemma kLMSTritanopeV_bounded : mbounded 2 kLMSTritanopeV.
Proof. repeat split; closed_bounded. Qed.

Lemma SimulateV_bounded (rgb : Vec3f) (lmsTransform : Mat3f) :
  vbounded 100 rgb -> mbounded 2 lmsTransform ->
  vbounded 114 (SimulateV rgb lmsTransform).
Proof.
  intros Hc Hm. unfold SimulateV. cbv zeta.
  apply (mulmv_bounded 0 112); [exact kRGBFromLMSV_bounded | | lia].
  apply (mulmv_bounded 2 108); [exact Hm | | lia].
  apply (mulmv_bounded 6 100); [exact kLMSFromRGBV_bounded | exact Hc | lia].
Qed.

(** ** Strength zero *)

Lemma eta_half : eta == (1 # 2) * FLT_TRUE_MIN.
Proof. reflexivity. Qed.

Lemma kLMSSimulate_bounded : mbounded 1 kLMSSimulate.
Proof. repeat split; closed_bounded. Qed.

Lemma row_bounded (k : Z) (m : Mat3f) (d : tLMS) : mbounded k m -> vbounded k (row m d).
Proof. intros (H1 & H2 & H3). destruct d; assumption. Qed.

Lemma elt_bounded (k : Z) (v : Vec3f) (d : tLMS) : vbounded k v -> bounded k (elt v d).
Proof. intros (H1 & H2 & H3). destruct d; assumption. Qed.

Lemma L_bound (V l : Q) :
  V <= 2 ^ 100 ->
  - ((1000002 # 1000000) * V + 6 * eta) <= l <= (1000002 # 1000000) * V + 6 * eta ->
  Qabs l <= 2 ^ 101.
Proof.
  intros HV H. rewrite pow2_100 in HV.
  assert (E : 2 ^ 101 == 2535301200456458802993406410752) by reflexivity.
  rewrite E. pose proof eta_small. apply Qabs_Qle_condition. split; Lqa.lra.
Qed.

(** At strength 0 the affected LMS channel is stored back as it was. *)
Lemma update_zero (l0 l1 l2 : Q) (d : tLMS) :
  round32 l0 = Fin l0 -> round32 l1 = Fin l1 -> round32 l2 = Fin l2 ->
  vbounded 101 (vec l0 l1 l2) ->
  set_elt (vec l0 l1 l2) d
    (elt (vec l0 l1 l2) d +f
     lit 0 *f (dot (row kLMSSimulate d) (vec l0 l1 l2) -f elt (vec l0 l1 l2) d))
  = vec l0 l1 l2.
Proof.
  intros F0 F1 F2 Hb.
  pose proof (dot_bounded 1 101 _ _ (row_bounded 1 _ d kLMSSimulate_bounded) Hb) as Hs.
  cbv beta in Hs. specialize (Hs ltac:(lia)).
  pose proof (fsub_bounded 104 _ _ Hs
                (bounded_mono 101 104 _ ltac:(lia) (elt_bounded 101 _ d Hb)) ltac:(lia))
    as (t & -> & _).
  change (lit 0) with (Fin 0). rewrite fmul_0_l.
  destruct d; cbn [elt set_elt vec x y z]; unfold vec; rewrite fadd_0_r by assumption;
    reflexivity.
Qed.

Lemma Simulate_strength_zero (c0 c1 c2 V : Q) (d : tLMS) :
  - V <= c0 <= V -> - V <= c1 <= V -> - V <= c2 <= V -> V <= 2 ^ 100 ->
  Simulate (vec c0 c1 c2) d (lit 0) = kRGBFromLMS *m (kLMSFromRGB *m vec c0 c1 c2).
Proof.
  intros H0 H1 H2 HV.
  destruct (LMS_round_trip_binary32 c0 c1 c2 V H0 H1 H2 HV)
    as (l0 & l1 & l2 & r0 & r1 & r2 & EA & _ & (F0 & F1 & F2) & (L0 & L1 & L2) & _).
  unfold Simulate. cbv zeta. rewrite EA.
  rewrite update_zero; try assumption; [reflexivity|].
  apply vbounded_vec; eapply L_bound; eassumption.
Qed.

Lemma Correct_strength_zero (c0 c1 c2 V : Q) (d : tLMS) :
  - V <= c0 <= V -> - V <= c1 <= V -> - V <= c2 <= V -> V <= 2 ^ 100 ->
  Correct (vec c0 c1 c2) d (lit 0) = kRGBFromLMS *m (kLMSFromRGB *m vec c0 c1 c2).
Proof.
  intros H0 H1 H2 HV.
  destruct (LMS_round_trip_binary32 c0 c1 c2 V H0 H1 H2 HV)
    as (l0 & l1 & l2 & r0 & r1 & r2 & EA & _ & (F0 & F1 & F2) & (L0 & L1 & L2) & _).
  assert (Hb : vbounded 101 (vec l0 l1 l2)).
  { apply vbounded_vec; eapply L_bound; eassumption. }
  unfold Correct. cbv zeta. rewrite EA.
  pose proof (dot_bounded 1 101 _ _ (row_bounded 1 _ d kLMSSimulate_bounded) Hb) as Hs.
  cbv beta in Hs. specialize (Hs ltac:(lia)).
  pose proof (fsub_bounded 104 _ _
                (bounded_mono 101 104 _ ltac:(lia) (elt_bounded 101 _ d Hb)) Hs ltac:(lia))
    as (t & -> & _).
  change (lit 0) with (Fin 0). rewrite fmul_0_l.
  f_equal.
  destruct d;
    match goal with
    | |- context [Fin 0 *v ?c] =>
        let c' := eval vm_compute in c in change c with c'
    end;
    unfold vscale, vadd, vec; cbn [x y z]; rewrite !fmul_0_l, !fadd_0_r by assumption;
    reflexivity.
Qed.

Lemma mulmv_0_r (k : Z) (m : Mat3f) : mbounded k m -> m *m vec 0 0 0 = vec 0 0 0.
Proof.
  intros (H1 & H2 & H3).
  destruct (vbounded_inv _ _ H1) as (a1 & a2 & a3 & E1).
  destruct (vbounded_inv _ _ H2) as (b1 & b2 & b3 & E2).
  destruct (vbounded_inv _ _ H3) as (c1 & c2 & c3 & E3).
  unfold mulmv. rewrite E1, E2, E3, !dot_0_r. reflexivity.
Qed.

Lemma kDaltonErrorToDeltaP_bounded : mbounded 0 kDaltonErrorToDeltaP.
Proof. repeat split; closed_bounded. Qed.

Lemma kDaltonErrorToDeltaD_bounded : mbounded 0 kDaltonErrorToDeltaD.
Proof. repeat split; closed_bounded. Qed.

Lemma kDaltonErrorToDeltaT_bounded : mbounded 0 kDaltonErrorToDeltaT.
Proof. repeat split; closed_bounded. Qed.

Lemma vscale_0 (k : Z) (v : Vec3f) : vbounded k v -> Fin 0 *v v = vec 0 0 0.
Proof.
  intros H. destruct (vbounded_inv _ _ H) as (a & b & c & ->).
  unfold vscale, vec. cbn [x y z]. rewrite !fmul_0_l. reflexivity.
Qed.

Lemma vadd_0_r (c0 c1 c2 : Q) :
  round32 c0 = Fin c0 -> round32 c1 = Fin c1 -> round32 c2 = Fin c2 ->
  vec c0 c1 c2 +v vec 0 0 0 = vec c0 c1 c2.
Proof.
  intros F0 F1 F2. unfold vadd, vec. cbn [x y z].
  rewrite !fadd_0_r by assumption. reflexivity.
Qed.

Lemma Daltonise_strength_zero (c0 c1 c2 V : Q) (d : tLMS) :
  round32 c0 = Fin c0 -> round32 c1 = Fin c1 -> round32 c2 = Fin c2 ->
  - V <= c0 <= V -> - V <= c1 <= V -> - V <= c2 <= V -> V <= 2 ^ 100 ->
  Daltonise (vec c0 c1 c2) d (lit 0) = vec c0 c1 c2.
Proof.
  intros F0 F1 F2 H0 H1 H2 HV.
  assert (Hc : vbounded 100 (vec c0 c1 c2)).
  { apply vbounded_vec; apply Qabs_Qle_condition; split; Lqa.lra. }
  assert (D : forall M, mbounded 2 M ->
                Fin 0 *v (vec c0 c1 c2 -v SimulateV (vec c0 c1 c2) M) = vec 0 0 0).
  { intros M HM. apply (vscale_0 116).
    apply (vsub_bounded 114); [| |lia].
    - apply (vbounded_mono 100); [lia | exact Hc].
    - apply SimulateV_bounded; assumption. }
  unfold Daltonise. cbv zeta. change (lit 0) with (Fin 0).
  destruct d.
  - rewrite (D _ kLMSProtanopeV_bounded), (mulmv_0_r _ _ kDaltonErrorToDeltaP_bounded).
    apply vadd_0_r; assumption.
  - rewrite (D _ kLMSDeuteranopeV_bounded), (mulmv_0_r _ _ kDaltonErrorToDeltaD_bounded).
    apply vadd_0_r; assumption.
  - rewrite (D _ kLMSTritanopeV_bounded), (mulmv_0_r _ _ kDaltonErrorToDeltaT_bounded).
    apply vadd_0_r; assumption.
Qed.

(** C5, amended.  Strength zero in binary32, for each deficiency type [d]
    and each colour [c] whose channels are [float]s of magnitude at most
    [V], with [V] up to 2^100.  [Daltonise c d 0] is [c] itself, bit for
    bit.  [Simulate c d 0] and [Correct c d 0] are one and the same colour,
    the round trip [kRGBFromLMS * (kLMSFromRGB * c)]: finite, and its red,
    green and blue are within 33, 12 and 5 times [FLT_EPSILON * V] of those
    of [c] (plus a few [FLT_TRUE_MIN], which count only among the
    subnormals). *)
Theorem strength_zero_is_identity (d : tLMS) (c0 c1 c2 V : Q) :
  round32 c0 = Fin c0 -> round32 c1 = Fin c1 -> round32 c2 = Fin c2 ->
  Qabs c0 <= V -> Qabs c1 <= V -> Qabs c2 <= V -> V <= 2 ^ 100 ->
  let c := vec c0 c1 c2 in
  Daltonise c d (lit 0) = c /\
  exists r0 r1 r2,
    Simulate c d (lit 0) = vec r0 r1 r2 /\
    Correct c d (lit 0) = vec r0 r1 r2 /\
    kRGBFromLMS *m (kLMSFromRGB *m c) = vec r0 r1 r2 /\
    Qabs (r0 - c0) <= 33 * FLT_EPSILON * V + 34 * FLT_TRUE_MIN /\
    Qabs (r1 - c1) <= 12 * FLT_EPSILON * V + 14 * FLT_TRUE_MIN /\
    Qabs (r2 - c2) <= 5 * FLT_EPSILON * V + 8 * FLT_TRUE_MIN.
Proof.
  intros F0 F1 F2 H0 H1 H2 HV c.
  apply Qabs_Qle_condition in H0, H1, H2.
  split; [apply (Daltonise_strength_zero c0 c1 c2 V); assumption|].
  destruct (LMS_round_trip_binary32 c0 c1 c2 V H0 H1 H2 HV)
    as (l0 & l1 & l2 & r0 & r1 & r2 & EA & ER & _ & _ & (B0 & B1 & B2)).
  assert (E : kRGBFromLMS *m (kLMSFromRGB *m c) = vec r0 r1 r2).
  { subst c. rewrite EA. exact ER. }
  exists r0, r1, r2.
  split; [subst c; rewrite (Simulate_strength_zero c0 c1 c2 V) by assumption; exact E|].
  split; [subst c; rewrite (Correct_strength_zero c0 c1 c2 V) by assumption; exact E|].
  split; [exact E|].
  pose proof eta_half as Eh. pose proof eta_pos.
  repeat split; apply Qabs_Qle_condition; split; Lqa.lra.
Qed.

Lemma strength_zero_is_identity_witness :
  (round32 (1 # 4) = Fin (1 # 4) /\ round32 (1 # 2) = Fin (1 # 2) /\
   round32 (3 # 4) = Fin (3 # 4)) /\
  (Qabs (1 # 4) <= 3 # 4 /\ Qabs (1 # 2) <= 3 # 4 /\ Qabs (3 # 4) <= 3 # 4 /\
   3 # 4 <= 2 ^ 100) /\
  Daltonise (vec (1 # 4) (1 # 2) (3 # 4)) kL (lit 0) = vec (1 # 4) (1 # 2) (3 # 4) /\
  exists r0 r1 r2,
    Simulate (vec (1 # 4) (1 # 2) (3 # 4)) kL (lit 0) = vec r0 r1 r2 /\
    Correct (vec (1 # 4) (1 # 2) (3 # 4)) kL (lit 0) = vec r0 r1 r2 /\
    kRGBFromLMS *m (kLMSFromRGB *m vec (1 # 4) (1 # 2) (3 # 4)) = vec r0 r1 r2 /\
    Qabs (r0 - (1 # 4)) <= 33 * FLT_EPSILON * (3 # 4) + 34 * FLT_TRUE_MIN /\
    Qabs (r1 - (1 # 2)) <= 12 * FLT_EPSILON * (3 # 4) + 14 * FLT_TRUE_MIN /\
    Qabs (r2 - (3 # 4)) <= 5 * FLT_EPSILON * (3 # 4) + 8 * FLT_TRUE_MIN.
Proof.
  assert (F0 : round32 (1 # 4) = Fin (1 # 4)) by (vm_compute; reflexivity).
  assert (F1 : round32 (1 # 2) = Fin (1 # 2)) by (vm_compute; reflexivity).
  assert (F2 : round32 (3 # 4) = Fin (3 # 4)) by (vm_compute; reflexivity).
  assert (H0 : Qabs (1 # 4) <= 3 # 4) by (apply Qle_bool_iff; vm_compute; reflexivity).
  assert (H1 : Qabs (1 # 2) <= 3 # 4) by (apply Qle_bool_iff; vm_compute; reflexivity).
  assert (H2 : Qabs (3 # 4) <= 3 # 4) by (apply Qle_bool_iff; vm_compute; reflexivity).
  assert (HV : 3 # 4 <= 2 ^ 100) by (apply Qle_bool_iff; vm_compute; reflexivity).
  split; [exact (conj F0 (conj F1 F2))|].
  split; [exact (conj H0 (conj H1 (conj H2 HV)))|].
  exact (strength_zero_is_identity kL (1 # 4) (1 # 2) (3 # 4) (3 # 4)
           F0 F1 F2 H0 H1 H2 HV).
Defined.

(** At strength 0 [Simulate] and [Correct] miss the colour by more than
    [FLT_EPSILON]: the red of (0.25, 0.5, 0.75) comes back three units of
    2^-24 low, that is 1.5 [FLT_EPSILON]. *)
Lemma strength_zero_exceeds_epsilon :
  Simulate (vec (1 # 4) (1 # 2) (3 # 4)) kL (lit 0)
    = vec (4194301 # 16777216) (8388607 # 16777216) (12582913 # 16777216) /\
  Correct (vec (1 # 4) (1 # 2) (3 # 4)) kL (lit 0)
    = vec (4194301 # 16777216) (8388607 # 16777216) (12582913 # 16777216) /\
  FLT_EPSILON < (1 # 4) - (4194301 # 16777216).
Proof. split; [|split]; vm_compute; reflexivity. Qed.

(** The red of (1, 0.9375, 0.0625) comes back 8.5 [FLT_EPSILON] low. *)
Example strength_zero_on_an_orange :
  Simulate (vec 1 (15 # 16) (1 # 16)) kM (lit 0)
    = vec (16777199 # 16777216) (7864321 # 8388608) (4194303 # 67108864) /\
  1 - (16777199 # 16777216) == (17 # 2) * FLT_EPSILON.
Proof. split; vm_compute; reflexivity. Qed.

(** ** Strength one *)

Lemma projection_replaces_channel (d : tLMS) (l0 l1 l2 s : Q) :
  round32 l0 = Fin l0 -> round32 l1 = Fin l1 -> round32 l2 = Fin l2 ->
  dot (row kLMSSimulate d) (vec l0 l1 l2) = Fin s ->
  kLMSProjection d *m vec l0 l1 l2 = set_elt (vec l0 l1 l2) d (Fin s).
Proof.
  intros F0 F1 F2 H. rewrite kLMSSimulate_val in H.
  destruct d; cbn [kLMSProjection row mx my mz] in *;
    [rewrite kLMSProtanope_val | rewrite kLMSDeuteranope_val | rewrite kLMSTritanope_val];
    unfold mulmv; cbn [mx my mz]; rewrite H;
    rewrite ?dot_unit_x, ?dot_unit_y, ?dot_unit_z by assumption; reflexivity.
Qed.

(** Two dot products with the same row. *)
Lemma dot_pair (a1 a2 a3 v1 v2 v3 w1 w2 w3 P1 P2 P3 D : Q) :
  - P1 <= a1 * v1 <= P1 -> - P2 <= a2 * v2 <= P2 -> - P3 <= a3 * v3 <= P3 ->
  - P1 <= a1 * w1 <= P1 -> - P2 <= a2 * w2 <= P2 -> - P3 <= a3 * w3 <= P3 ->
  - D <= a1 * (v1 - w1) + a2 * (v2 - w2) + a3 * (v3 - w3) <= D ->
  P1 + P2 + P3 <= 2 ^ 126 ->
  exists r r',
    dot (vec a1 a2 a3) (vec v1 v2 v3) = Fin r /\
    dot (vec a1 a2 a3) (vec w1 w2 w3) = Fin r' /\
    - (2 * (gamma3 * (P1 + P2 + P3) + 6 * eta) + D) <= r - r'
      <= 2 * (gamma3 * (P1 + P2 + P3) + 6 * eta) + D.
Proof.
  intros V1 V2 V3 W1 W2 W3 HD HM.
  destruct (dot_within a1 a2 a3 v1 v2 v3 P1 P2 P3 V1 V2 V3 HM) as (r & E & B).
  destruct (dot_within a1 a2 a3 w1 w2 w3 P1 P2 P3 W1 W2 W3 HM) as (r' & E' & B').
  exists r, r'. split; [exact E|]. split; [exact E'|]. split; Lqa.lra.
Qed.

Lemma update_one (d : tLMS) (l0 l1 l2 V : Q) :
  let L := (1000002 # 1000000) * V + 6 * eta in
  round32 l0 = Fin l0 -> round32 l1 = Fin l1 -> round32 l2 = Fin l2 ->
  - L <= l0 <= L -> - L <= l1 <= L -> - L <= l2 <= L -> 0 <= V <= 2 ^ 100 ->
  exists s u,
    dot (row kLMSSimulate d) (vec l0 l1 l2) = Fin s /\
    elt (vec l0 l1 l2) d +f lit 1 *f (Fin s -f elt (vec l0 l1 l2) d) = Fin u /\
    - sim_bound d V <= s <= sim_bound d V /\
    - sim_bound d V <= u <= sim_bound d V /\
    - update_bound d V <= u - s <= update_bound d V.
Proof.
  intros L F0 F1 F2 L0 L1 L2 [V0 HV]. subst L. rewrite pow2_100 in HV.
  pose proof eta_pos as Eta. pose proof eta_small as Eta1.
  assert (M126 : forall B, B <= 85070591730234615865843651857942052864 -> B <= 2 ^ 126).
  { intros B HB. rewrite pow2_126. exact HB. }
  assert (M127 : forall B, B <= 170141183460469231731687303715884105728 -> B <= 2 ^ 127).
  { intros B HB. rewrite pow2_127. exact HB. }
  rewrite kLMSSimulate_val. change (lit 1) with (Fin 1).
  set (L := (1000002 # 1000000) * V + 6 * eta) in *.
  destruct d; cbn [row mx my mz elt vec x y z sim_bound update_bound].
  - destruct (dot_within 0 (4408981 # 4194304) (-858339 # 16777216) l0 l1 l2
                0 ((4408981 # 4194304) * L) ((858339 # 16777216) * L))
      as (s & Es & Bs);
      [subst L; split; Lqa.lra | subst L; split; Lqa.lra | subst L; split; Lqa.lra
      | apply M126; subst L; Lqa.lra |].
    change (dot (vec 0 (4408981 # 4194304) (-858339 # 16777216)) (vec l0 l1 l2) = Fin s) in Es.
    destruct (fsub_within s l0 ((2102350 # 1000000) * V + 30 * eta)) as (t & Et & Bt);
      [subst L; unfold gamma3 in *; split; Lqa.lra | apply M127; Lqa.lra |].
    pose proof (fsub_float _ _ _ Et) as Ft.
    destruct (fadd_within l0 t ((3102400 # 1000000) * V + 40 * eta)) as (u & Eu & Bu);
      [subst L; unfold gamma3, eps in *; split; Lqa.lra | apply M127; Lqa.lra |].
    exists s, u. split; [exact Es|]. split; [rewrite Et, (fmul_1_l _ Ft); exact Eu|].
    subst L. unfold gamma3, eps, FLT_EPSILON in *. repeat split; Lqa.lra.
  - destruct (dot_within (62345 # 65536) 0 (3266183 # 67108864) l0 l1 l2
                ((62345 # 65536) * L) 0 ((3266183 # 67108864) * L))
      as (s & Es & Bs);
      [subst L; split; Lqa.lra | subst L; split; Lqa.lra | subst L; split; Lqa.lra
      | apply M126; subst L; Lqa.lra |].
    change (dot (vec (62345 # 65536) 0 (3266183 # 67108864)) (vec l0 l1 l2) = Fin s) in Es.
    destruct (fsub_within s l1 ((2000010 # 1000000) * V + 30 * eta)) as (t & Et & Bt);
      [subst L; unfold gamma3 in *; split; Lqa.lra | apply M127; Lqa.lra |].
    pose proof (fsub_float _ _ _ Et) as Ft.
    destruct (fadd_within l1 t ((3000020 # 1000000) * V + 40 * eta)) as (u & Eu & Bu);
      [subst L; unfold gamma3, eps in *; split; Lqa.lra | apply M127; Lqa.lra |].
    exists s, u. split; [exact Es|]. split; [rewrite Et, (fmul_1_l _ Ft); exact Eu|].
    subst L. unfold gamma3, eps, FLT_EPSILON in *. repeat split; Lqa.lra.
  - destruct (dot_within (-1819169 # 2097152) (3915951 # 2097152) 0 l0 l1 l2
                ((1819169 # 2097152) * L) ((3915951 # 2097152) * L) 0)
      as (s & Es & Bs);
      [subst L; split; Lqa.lra | subst L; split; Lqa.lra | subst L; split; Lqa.lra
      | apply M126; subst L; Lqa.lra |].
    change (dot (vec (-1819169 # 2097152) (3915951 # 2097152) 0) (vec l0 l1 l2) = Fin s) in Es.
    destruct (fsub_within s l2 ((3734730 # 1000000) * V + 30 * eta)) as (t & Et & Bt);
      [subst L; unfold gamma3 in *; split; Lqa.lra | apply M127; Lqa.lra |].
    pose proof (fsub_float _ _ _ Et) as Ft.
    destruct (fadd_within l2 t ((4734800 # 1000000) * V + 40 * eta)) as (u & Eu & Bu);
      [subst L; unfold gamma3, eps in *; split; Lqa.lra | apply M127; Lqa.lra |].
    exists s, u. split; [exact Es|]. split; [rewrite Et, (fmul_1_l _ Ft); exact Eu|].
    subst L. unfold gamma3, eps, FLT_EPSILON in *. repeat split; Lqa.lra.
Qed.

Ltac unfold_bounds :=
  repeat match goal with x := _ : Q |- _ => subst x end.

Ltac pair_step a1 a2 a3 v1 v2 v3 w1 w2 w3 B1 B2 B3 D r r' :=
  let A1 := eval vm_compute in (Qabs a1) in
  let A2 := eval vm_compute in (Qabs a2) in
  let A3 := eval vm_compute in (Qabs a3) in
  let E := fresh "E" in let E' := fresh "E'" in let B := fresh "B" in
  destruct (dot_pair a1 a2 a3 v1 v2 v3 w1 w2 w3 (A1 * B1) (A2 * B2) (A3 * B3) D)
    as (r & r' & E & E' & B);
  [split; unfold_bounds; Lqa.lra | split; unfold_bounds; Lqa.lra
  | split; unfold_bounds; Lqa.lra | split; unfold_bounds; Lqa.lra
  | split; unfold_bounds; Lqa.lra | split; unfold_bounds; Lqa.lra
  | split; unfold_bounds; Lqa.lra
  | rewrite pow2_126; unfold_bounds; Lqa.lra
  | change (dot (vec a1 a2 a3) (vec v1 v2 v3) = Fin r) in E;
    change (dot (vec a1 a2 a3) (vec w1 w2 w3) = Fin r') in E';
    rewrite E, E' ].

Lemma Simulate_projection_close (d : tLMS) (l0 l1 l2 s u V : Q) :
  let L := (1000002 # 1000000) * V + 6 * eta in
  - L <= l0 <= L -> - L <= l1 <= L -> - L <= l2 <= L -> 0 <= V <= 2 ^ 100 ->
  - sim_bound d V <= s <= sim_bound d V ->
  - sim_bound d V <= u <= sim_bound d V ->
  - update_bound d V <= u - s <= update_bound d V ->
  exists s0 s1 s2 p0 p1 p2,
    kRGBFromLMS *m set_elt (vec l0 l1 l2) d (Fin u) = vec s0 s1 s2 /\
    kRGBFromLMS *m set_elt (vec l0 l1 l2) d (Fin s) = vec p0 p1 p2 /\
    Qabs (s0 - p0) <= 47 * FLT_EPSILON * V + 12 * FLT_TRUE_MIN /\
    Qabs (s1 - p1) <= 17 * FLT_EPSILON * V + 12 * FLT_TRUE_MIN /\
    Qabs (s2 - p2) <= 16 * FLT_EPSILON * V + 12 * FLT_TRUE_MIN.
Proof.
  intros L L0 L1 L2 [V0 HV] Hs Hu Hd. rewrite pow2_100 in HV.
  pose proof eta_pos as Eta. pose proof eta_small as Eta1. pose proof eta_half as Eh.
  rewrite kRGBFromLMS_val. unfold mulmv. cbn [mx my mz].
  destruct d; cbn [set_elt vec x y z sim_bound update_bound] in *;
    fold (vec u l1 l2) (vec s l1 l2) (vec l0 u l2) (vec l0 s l2) (vec l0 l1 u) (vec l0 l1 s);
    subst L; unfold FLT_EPSILON in *.
  - pose (W := (1102347 # 1000000) * V + 25 * eta).
    pose (L := (1000002 # 1000000) * V + 6 * eta).
    pose (D := (26035 # 10000) * (1 # 8388608) * V + (201 # 100) * eta).
    pair_step (2869015 # 524288) (-608431 # 131072) (1423019 # 8388608)
              u l1 l2 s l1 l2 W L L ((2869015 # 524288) * D) s0 p0.
    pair_step (-9439213 # 8388608) (601141 # 262144) (-1408407 # 8388608)
              u l1 l2 s l1 l2 W L L ((9439213 # 8388608) * D) s1 p1.
    pair_step (15999639 # 536870912) (-12964139 # 67108864) (4880693 # 4194304)
              u l1 l2 s l1 l2 W L L ((15999639 # 536870912) * D) s2 p2.
    exists s0, s1, s2, p0, p1, p2. split; [reflexivity|]. split; [reflexivity|].
    unfold_bounds. unfold gamma3 in *.
    repeat split; apply Qabs_Qle_condition; split; Lqa.lra.
  - pose (W := V + 25 * eta).
    pose (L := (1000002 # 1000000) * V + 6 * eta).
    pose (D := (26 # 10) * (1 # 8388608) * V + (201 # 100) * eta).
    pair_step (2869015 # 524288) (-608431 # 131072) (1423019 # 8388608)
              l0 u l2 l0 s l2 L W L ((608431 # 131072) * D) s0 p0.
    pair_step (-9439213 # 8388608) (601141 # 262144) (-1408407 # 8388608)
              l0 u l2 l0 s l2 L W L ((601141 # 262144) * D) s1 p1.
    pair_step (15999639 # 536870912) (-12964139 # 67108864) (4880693 # 4194304)
              l0 u l2 l0 s l2 L W L ((12964139 # 67108864) * D) s2 p2.
    exists s0, s1, s2, p0, p1, p2. split; [reflexivity|]. split; [reflexivity|].
    unfold_bounds. unfold gamma3 in *.
    repeat split; apply Qabs_Qle_condition; split; Lqa.lra.
  - pose (W := (2734725 # 1000000) * V + 25 * eta).
    pose (L := (1000002 # 1000000) * V + 6 * eta).
    pose (D := (43 # 10) * (1 # 8388608) * V + (201 # 100) * eta).
    pair_step (2869015 # 524288) (-608431 # 131072) (1423019 # 8388608)
              l0 l1 u l0 l1 s L L W ((1423019 # 8388608) * D) s0 p0.
    pair_step (-9439213 # 8388608) (601141 # 262144) (-1408407 # 8388608)
              l0 l1 u l0 l1 s L L W ((1408407 # 8388608) * D) s1 p1.
    pair_step (15999639 # 536870912) (-12964139 # 67108864) (4880693 # 4194304)
              l0 l1 u l0 l1 s L L W ((4880693 # 4194304) * D) s2 p2.
    exists s0, s1, s2, p0, p1, p2. split; [reflexivity|]. split; [reflexivity|].
    unfold_bounds. unfold gamma3 in *.
    repeat split; apply Qabs_Qle_condition; split; Lqa.lra.
Qed.

(** C6, amended.  Strength one in binary32, for each deficiency type [d]
    and each colour [rgb] whose channels are at most [V] in magnitude, with
    [V] up to 2^100.  Row [d] of [kLMSSimulate] is row [d] of the projection
    matrix of [d], [float] for [float].  With [lms = kLMSFromRGB * rgb] and
    [simElt] the product of that row and [lms], the projection matrix
    applied to [lms] is [lms] with channel [d] replaced by [simElt], the
    other two channels unchanged.  [Simulate rgb d 1] puts there the result
    [u] of the update [eltx + 1 * (simElt - eltx)] instead, which is within
    5 [FLT_EPSILON * V] of [simElt] (plus 2 [FLT_TRUE_MIN]), and its red,
    green and blue are within 47, 17 and 16 times [FLT_EPSILON * V] of
    those of [kRGBFromLMS * (M_d * (kLMSFromRGB * rgb))] (plus 12
    [FLT_TRUE_MIN]). *)
Theorem strength_one_is_projection (d : tLMS) (c0 c1 c2 V : Q) :
  Qabs c0 <= V -> Qabs c1 <= V -> Qabs c2 <= V -> V <= 2 ^ 100 ->
  let rgb := vec c0 c1 c2 in
  row kLMSSimulate d = row (kLMSProjection d) d /\
  exists l0 l1 l2 simElt u,
    let lms := vec l0 l1 l2 in
    kLMSFromRGB *m rgb = lms /\
    dot (row kLMSSimulate d) lms = Fin simElt /\
    kLMSProjection d *m lms = set_elt lms d (Fin simElt) /\
    elt lms d +f lit 1 *f (Fin simElt -f elt lms d) = Fin u /\
    Simulate rgb d (lit 1) = kRGBFromLMS *m set_elt lms d (Fin u) /\
    Qabs (u - simElt) <= 5 * FLT_EPSILON * V + 2 * FLT_TRUE_MIN /\
    exists s0 s1 s2 p0 p1 p2,
      Simulate rgb d (lit 1) = vec s0 s1 s2 /\
      kRGBFromLMS *m (kLMSProjection d *m (kLMSFromRGB *m rgb)) = vec p0 p1 p2 /\
      Qabs (s0 - p0) <= 47 * FLT_EPSILON * V + 12 * FLT_TRUE_MIN /\
      Qabs (s1 - p1) <= 17 * FLT_EPSILON * V + 12 * FLT_TRUE_MIN /\
      Qabs (s2 - p2) <= 16 * FLT_EPSILON * V + 12 * FLT_TRUE_MIN.
Proof.
  intros H0 H1 H2 HV rgb.
  split; [destruct d; reflexivity|].
  assert (V0 : 0 <= V).
  { eapply Qle_trans; [apply Qabs_nonneg | exact H0]. }
  apply Qabs_Qle_condition in H0, H1, H2.
  destruct (LMS_round_trip_binary32 c0 c1 c2 V H0 H1 H2 HV)
    as (l0 & l1 & l2 & r0 & r1 & r2 & EA & _ & (F0 & F1 & F2) & (L0 & L1 & L2) & _).
  destruct (update_one d l0 l1 l2 V F0 F1 F2 L0 L1 L2 (conj V0 HV))
    as (s & u & Es & Eu & Bs & Bu & Bd).
  destruct (Simulate_projection_close d l0 l1 l2 s u V L0 L1 L2 (conj V0 HV) Bs Bu Bd)
    as (s0 & s1 & s2 & p0 & p1 & p2 & ES & EP & B0 & B1 & B2).
  pose proof (projection_replaces_channel d l0 l1 l2 s F0 F1 F2 Es) as EM.
  assert (Sim : Simulate rgb d (lit 1) = kRGBFromLMS *m set_elt (vec l0 l1 l2) d (Fin u)).
  { subst rgb. unfold Simulate. cbv zeta. rewrite EA, Es, Eu. reflexivity. }
  exists l0, l1, l2, s, u. cbv zeta.
  split; [exact EA|]. split; [exact Es|]. split; [exact EM|]. split; [exact Eu|].
  split; [exact Sim|]. split.
  - pose proof eta_half as Eh. pose proof eta_pos.
    apply Qabs_Qle_condition.
    destruct d; cbn [update_bound] in Bd; unfold FLT_EPSILON in *; split; Lqa.lra.
  - exists s0, s1, s2, p0, p1, p2.
    split; [rewrite Sim; exact ES|].
    split; [subst rgb; rewrite EA, EM; exact EP|].
    exact (conj B0 (conj B1 B2)).
Qed.

Lemma strength_one_is_projection_witness :
  (Qabs 0 <= 3 # 8 /\ Qabs (3 # 8) <= 3 # 8 /\ 3 # 8 <= 2 ^ 100) /\
  row kLMSSimulate kS = row (kLMSProjection kS) kS /\
  exists l0 l1 l2 simElt u,
    let lms := vec l0 l1 l2 in
    kLMSFromRGB *m vec 0 0 (3 # 8) = lms /\
    dot (row kLMSSimulate kS) lms = Fin simElt /\
    kLMSProjection kS *m lms = set_elt lms kS (Fin simElt) /\
    elt lms kS +f lit 1 *f (Fin simElt -f elt lms kS) = Fin u /\
    Simulate (vec 0 0 (3 # 8)) kS (lit 1) = kRGBFromLMS *m set_elt lms kS (Fin u) /\
    Qabs (u - simElt) <= 5 * FLT_EPSILON * (3 # 8) + 2 * FLT_TRUE_MIN /\
    exists s0 s1 s2 p0 p1 p2,
      Simulate (vec 0 0 (3 # 8)) kS (lit 1) = vec s0 s1 s2 /\
      kRGBFromLMS *m (kLMSProjection kS *m (kLMSFromRGB *m vec 0 0 (3 # 8)))
        = vec p0 p1 p2 /\
      Qabs (s0 - p0) <= 47 * FLT_EPSILON * (3 # 8) + 12 * FLT_TRUE_MIN /\
      Qabs (s1 - p1) <= 17 * FLT_EPSILON * (3 # 8) + 12 * FLT_TRUE_MIN /\
      Qabs (s2 - p2) <= 16 * FLT_EPSILON * (3 # 8) + 12 * FLT_TRUE_MIN.
Proof.
  assert (H0 : Qabs 0 <= 3 # 8) by (apply Qle_bool_iff; vm_compute; reflexivity).
  assert (H2 : Qabs (3 # 8) <= 3 # 8) by (apply Qle_bool_iff; vm_compute; reflexivity).
  assert (HV : 3 # 8 <= 2 ^ 100) by (apply Qle_bool_iff; vm_compute; reflexivity).
  split; [exact (conj H0 (conj H2 HV))|].
  exact (strength_one_is_projection kS 0 0 (3 # 8) (3 # 8) H0 H0 H2 HV).
Defined.

(** At strength 1 [Simulate] is not the projection: on the blue
    (0, 0, 0.375) and [kS] the update leaves the S channel two units in the
    last place (2^-28 each) above [simElt], and all three channels of the result differ
    from those of [kRGBFromLMS * (kLMSTritanope * (kLMSFromRGB * rgb))]. *)
Lemma strength_one_is_not_the_projection :
  dot (row kLMSSimulate kS) (kLMSFromRGB *m vec 0 0 (3 # 8))
    = Fin (6118359 # 134217728) /\
  elt (kLMSFromRGB *m vec 0 0 (3 # 8)) kS
    +f lit 1 *f (dot (row kLMSSimulate kS) (kLMSFromRGB *m vec 0 0 (3 # 8))
                 -f elt (kLMSFromRGB *m vec 0 0 (3 # 8)) kS)
    = Fin (764795 # 16777216) /\
  (764795 # 16777216) - (6118359 # 134217728) == 2 * 2 ^ (-28) /\
  Simulate (vec 0 0 (3 # 8)) kS (lit 1)
    = vec (-6412195 # 134217728) (6346353 # 134217728) (3173177 # 67108864) /\
  kRGBFromLMS *m (kLMSTritanope *m (kLMSFromRGB *m vec 0 0 (3 # 8)))
    = vec (-12824391 # 268435456) (12692707 # 268435456) (6346353 # 134217728) /\
  (-12824391 # 268435456) < (-6412195 # 134217728) /\
  (6346353 # 134217728) < (12692707 # 268435456) /\
  (6346353 # 134217728) < (3173177 # 67108864).
Proof. repeat split; vm_compute; reflexivity. Qed.
